(** * TransLens: the page-scan-and-annotate pipeline of the browser extension

    A shallow embedding of the JavaScript sources
    [chrome_ext/content.js], [chrome_ext/popup.js], [chrome_ext/config.js]
    and [chrome_ext/background.js], and the properties of the sampler, the
    scanner, the annotator, the configuration merge, the URL validator, the
    settings form and the translation client.

    Conventions of the embedding:
    - a JavaScript string is the list of its UTF-16 code units;
    - a JavaScript Number is an IEEE-754 binary64 value ([spec_float] with
      precision 53 and maximal exponent 1024);
    - a plain object used as a record of settings is a finite map from
      property names to values; reading an absent property gives
      [None] (JavaScript's [undefined]);
    - a function that can throw returns a [Completion];
    - built-ins of the platform whose full definition is outside the
      repository (the URL parser, the regular-expression engine, the engine's
      sort under a random comparator, the DOM) are parameters of the
      definitions that use them. *)

From Stdlib Require Import ZArith NArith List Bool Ascii String Lia Permutation.
From Stdlib Require Import SpecFloat.
From stdpp Require Import base option list gmap strings fin_maps.

Local Open Scope N_scope.

(** ** JavaScript strings *)


(** The code units of an ASCII literal. *)
Fixpoint js (s : string)   : list N :=
  match s with
  | EmptyString => []
  | String a s' => N_of_ascii a :: js s'
  end.

Arguments js : simpl never.

(** ** JavaScript numbers *)

Module Number.

Definition prec : Z := 53.
Definition emax : Z := 1024.

Definition of_Z (z : Z) : spec_float := binary_normalize prec emax z 0 false.
Definition of_nat (n : nat) : spec_float := of_Z (Z.of_nat n).

Definition mul (x y : spec_float) : spec_float := SFmul prec emax x y.
Definition div (x y : spec_float) : spec_float := SFdiv prec emax x y.

Definition is_nan (x : spec_float) : bool :=
  match x with S754_nan => true | _ => false end.

Definition is_zero (x : spec_float) : bool :=
  match x with S754_zero _ => true | _ => false end.

End Number.

(** ** JavaScript values held in a settings object *)

Inductive JsValue :=
| VNull
| VBool (b : bool)
| VNum (n : spec_float)
| VStr (s : list N).

(** ToBoolean; [None] is [undefined]. *)
Definition truthy (v : option JsValue) : bool :=
  match v with
  | None => false
  | Some VNull => false
  | Some (VBool b) => b
  | Some (VNum n) => negb (Number.is_zero n || Number.is_nan n)
  | Some (VStr s) => match s with [] => false | _ => true end
  end.

(** [a || b] *)
Definition js_or (a b : option JsValue) : option JsValue :=
  if truthy a then a else b.

(** [{...a, ...b}]: the properties of [b] override those of [a]. *)
Definition spread2 (a b : gmap string JsValue) : gmap string JsValue := b ∪ a.

(** ** The configuration merge *)

(** [result.translatorConfig || {}] for a storage area that holds either
    nothing or an object under the key [translatorConfig]. *)
Definition stored_or_empty (stored : option (gmap string JsValue))
  : gmap string JsValue :=
  match stored with
  | Some config => config
  | None => ∅
  end.

(** [{...DEFAULT_CONFIG, ...config, lastUpdated: config.lastUpdated || Date.now()}] *)
Definition mergeConfig (DEFAULT_CONFIG config : gmap string JsValue)
    (now : spec_float) : gmap string JsValue :=
  match js_or (config !! "lastUpdated"%string) (Some (VNum now)) with
  | Some v => <["lastUpdated"%string := v]> (spread2 DEFAULT_CONFIG config)
  | None => delete "lastUpdated"%string (spread2 DEFAULT_CONFIG config)
  end.

(** [{...DEFAULT_CONFIG, lastUpdated: Date.now()}] *)
Definition defaultsOnly (DEFAULT_CONFIG : gmap string JsValue)
    (now : spec_float) : gmap string JsValue :=
  <["lastUpdated"%string := VNum now]> DEFAULT_CONFIG.

(** The outcome of [await chrome.storage.sync.get('translatorConfig')]. *)
Inductive StorageGet :=
| GetRejected
| GetResolved (translatorConfig : option (gmap string JsValue)).

Definition systemPrompt_short : list N :=
  [20320; 26159; 19968; 20010; 33521; 35821; 32763; 35793; 19987; 23478;
   65292; 31934; 36890; 20110; 26681; 25454; 20013; 25991; 19978; 19979;
   25991; 21435; 32763; 35793; 35789; 27719; 30340; 24847; 24605; 12290].

Definition systemPrompt_long : list N :=
  systemPrompt_short ++
  [20320; 21482; 38656; 36820; 22238; 30446; 26631; 35789; 27719; 30340;
   24847; 24605; 65292; 19981; 35201; 26377; 20219; 20309; 22810; 20313;
   30340; 20869; 23481; 12290].

Definition userPromptTemplate_default : list N :=
  [32763; 35793; 19979; 38754; 21477; 23376; 20013; 30340; 12300] ++
  js "{target_word}" ++ [12301; 65306] ++ js "{context_sentence}".

(** chrome_ext/content.js *)
Module Content.

Definition DEFAULT_CONFIG : gmap string JsValue :=
  <["serverUrl"%string := VStr (js "http://127.0.0.1:5000")]>
  (<["apiUrl"%string := VStr []]>
  (<["apiKey"%string := VStr []]>
  (<["modelName"%string := VStr []]>
  (<["systemPrompt"%string := VStr systemPrompt_short]>
  (<["userPromptTemplate"%string := VStr userPromptTemplate_default]>
  (<["selectionPercentage"%string := VNum (Number.of_Z 40)]> ∅)))))).

(** [loadTranslatorConfig]: the value assigned to [translatorConfig].
    [chrome_storage] is the test [typeof chrome !== 'undefined' &&
    chrome.storage]. *)
Definition loadTranslatorConfig (chrome_storage : bool) (get : StorageGet)
    (now : spec_float) : gmap string JsValue :=
  if chrome_storage then
    match get with
    | GetResolved result =>
        mergeConfig DEFAULT_CONFIG (stored_or_empty result) now
    | GetRejected => defaultsOnly DEFAULT_CONFIG now
    end
  else defaultsOnly DEFAULT_CONFIG now.

End Content.

(** chrome_ext/popup.js, the popup script *)
Module Popup.

Definition DEFAULT_CONFIG : gmap string JsValue :=
  <["serverUrl"%string := VStr (js "http://127.0.0.1:5000")]>
  (<["apiUrl"%string := VStr []]>
  (<["apiKey"%string := VStr []]>
  (<["modelName"%string := VStr []]>
  (<["systemPrompt"%string := VStr systemPrompt_short]>
  (<["userPromptTemplate"%string := VStr userPromptTemplate_default]> ∅))))).

(** [getStoredConfig] *)
Definition getStoredConfig (get : StorageGet) (now : spec_float)
  : gmap string JsValue :=
  match get with
  | GetResolved result =>
      mergeConfig DEFAULT_CONFIG (stored_or_empty result) now
  | GetRejected => defaultsOnly DEFAULT_CONFIG now
  end.

End Popup.

(** chrome_ext/popup.js, the settings-page script that follows the popup
    script in the same file *)
Module Settings.

Definition DEFAULT_CONFIG : gmap string JsValue :=
  <["serverUrl"%string := VStr (js "http://127.0.0.1:5000")]>
  (<["apiUrl"%string := VStr (js "http://localhost:8080/v1/chat/completions")]>
  (<["apiKey"%string := VStr []]>
  (<["modelName"%string := VStr []]>
  (<["systemPrompt"%string := VStr systemPrompt_short]>
  (<["userPromptTemplate"%string := VStr userPromptTemplate_default]> ∅))))).

Definition getStoredConfig (get : StorageGet) (now : spec_float)
  : gmap string JsValue :=
  match get with
  | GetResolved result =>
      mergeConfig DEFAULT_CONFIG (stored_or_empty result) now
  | GetRejected => defaultsOnly DEFAULT_CONFIG now
  end.

End Settings.

(** chrome_ext/config.js, as used by the [getConfig] handler of
    chrome_ext/background.js *)
Module Background.

Definition DEFAULT_CONFIG : gmap string JsValue :=
  <["serverUrl"%string := VStr (js "http://127.0.0.1:5000")]>
  (<["apiUrl"%string := VStr (js "http://localhost:8080/v1/chat/completions")]>
  (<["apiKey"%string := VStr []]>
  (<["modelName"%string := VStr []]>
  (<["systemPrompt"%string := VStr systemPrompt_long]>
  (<["userPromptTemplate"%string := VStr userPromptTemplate_default]>
  (<["selectionPercentage"%string := VNum (Number.of_Z 10)]> ∅)))))).

(** the [mergedConfig] of the [getConfig] message handler *)
Definition getConfig (result : option (gmap string JsValue))
    (now : spec_float) : gmap string JsValue :=
  mergeConfig DEFAULT_CONFIG (stored_or_empty result) now.

End Background.

(** ** The sampler (chrome_ext/content.js, [randomSelectTexts]) *)

(** The Number values that [Math.floor] returns: an integer, an infinity or
    NaN. The floor of a finite binary64 value is exactly representable, so
    the integer is kept as it is. *)
Inductive IntegralNumber :=
| INaN
| INegInf
| IInt (z : Z)
| IPosInf.

(** [Math.floor(x)]: the mantissa [m] and exponent [e] of a finite value
    stand for [m * 2^e]; shifting by a negative amount rounds towards minus
    infinity. *)
Definition Math_floor (x : spec_float) : IntegralNumber :=
  match x with
  | S754_nan => INaN
  | S754_infinity s => if s then INegInf else IPosInf
  | S754_zero _ => IInt 0
  | S754_finite s m e => IInt (Z.shiftl (cond_Zopp s (Z.pos m)) e)
  end.

(** [Math.max(a, b)] *)
Definition Math_max (a b : IntegralNumber) : IntegralNumber :=
  match a, b with
  | INaN, _ | _, INaN => INaN
  | IPosInf, _ | _, IPosInf => IPosInf
  | INegInf, y => y
  | x, INegInf => x
  | IInt x, IInt y => IInt (Z.max x y)
  end.

(** [Array.prototype.slice(0, end)]: [end] goes through ToIntegerOrInfinity
    (NaN becomes 0), a negative [end] counts from the end of the array, and
    the result is clamped to the array. *)
Definition slice_final (len : nat) (end_ : IntegralNumber) : nat :=
  match end_ with
  | INaN => 0%nat
  | INegInf => 0%nat
  | IPosInf => len
  | IInt z =>
      if (z <? 0)%Z then Z.to_nat (Z.max (Z.of_nat len + z) 0)
      else Z.to_nat (Z.min z (Z.of_nat len))
  end.

Definition Array_slice0 {A : Type} (l : list A) (end_ : IntegralNumber)
  : list A :=
  firstn (slice_final (length l) end_) l.

Section Sampler.

Context {A : Type}.

(** [[...texts].sort(() => Math.random() - 0.5)]: the order a sort produces
    under a comparator that answers at random is left to the engine. *)
Variable sort_random : list A -> list A.

(** [count] of [randomSelectTexts] *)
Definition selectCount (len : nat) (percentage : spec_float)
  : IntegralNumber :=
  Math_max (IInt 1) (Math_floor (Number.mul (Number.of_nat len) percentage)).

Definition randomSelectTexts (texts : list A) (percentage : spec_float)
  : list A :=
  let count := selectCount (length texts) percentage in
  let shuffled := sort_random texts in
  Array_slice0 shuffled count.

End Sampler.

(** ToNumber of a settings value; the conversion of a string is the
    platform's. *)
Definition ToNumber (StringToNumber : list N -> spec_float)
    (v : option JsValue) : spec_float :=
  match v with
  | None => S754_nan
  | Some VNull => S754_zero false
  | Some (VBool b) => if b then Number.of_Z 1 else S754_zero false
  | Some (VNum n) => n
  | Some (VStr s) => StringToNumber s
  end.

(** [(translatorConfig?.selectionPercentage ||
      DEFAULT_CONFIG.selectionPercentage) / 100]
    in [extractAndTranslateChinese]. *)
Definition selectionFraction (StringToNumber : list N -> spec_float)
    (translatorConfig : option (gmap string JsValue)) : spec_float :=
  let configured :=
    match translatorConfig with
    | Some c => c !! "selectionPercentage"%string
    | None => None
    end in
  Number.div
    (ToNumber StringToNumber
       (js_or configured (Content.DEFAULT_CONFIG !! "selectionPercentage"%string)))
    (Number.of_Z 100).

(** ** String built-ins *)

(** WhiteSpace and LineTerminator code points, the ones
    [String.prototype.trim] removes. *)
Definition isWhiteSpace (c : N) : bool :=
  (c =? 9) || (c =? 10) || (c =? 11) || (c =? 12) || (c =? 13) || (c =? 32)
  || (c =? 160) || (c =? 5760) || ((8192 <=? c) && (c <=? 8202))
  || (c =? 8232) || (c =? 8233) || (c =? 8239) || (c =? 8287)
  || (c =? 12288) || (c =? 65279).

Fixpoint trimStart (s : list N) : list N :=
  match s with
  | [] => []
  | c :: s' => if isWhiteSpace c then trimStart s' else s
  end.

Definition trimEnd (s : list N) : list N := rev (trimStart (rev s)).

(** [s.trim()] *)
Definition trim (s : list N) : list N := trimEnd (trimStart s).

(** [s] starts with [p] *)
Fixpoint startsWith (p s : list N) : bool :=
  match p, s with
  | [], _ => true
  | _ :: _, [] => false
  | a :: p', b :: s' => (a =? b) && startsWith p' s'
  end.

(** [s.includes(p)] *)
Fixpoint includes (s p : list N) : bool :=
  startsWith p s ||
  match s with
  | [] => false
  | _ :: s' => includes s' p
  end.

(** ** The page scanner (chrome_ext/content.js, [extractChineseTexts]) *)

#[warnings="-register-all"]
Inductive Node :=
| TextNode (data : list N)
| CommentNode (data : list N)
| ElementNode (tagName : list N) (childNodes : list Node)
| DocumentNode (childNodes : list Node).

(** A node is referred to by the path of child indices that leads to it from
    the root of the walk. *)
Definition childNodesOf (n : Node) : list Node :=
  match n with
  | ElementNode _ cs | DocumentNode cs => cs
  | TextNode _ | CommentNode _ => []
  end.

Fixpoint nodeAt (root : Node) (path : list nat) : option Node :=
  match path with
  | [] => Some root
  | i :: rest =>
      match nth_error (childNodesOf root) i with
      | Some c => nodeAt c rest
      | None => None
      end
  end.

(** [/[一-鿿]/.test(text)] *)
Definition isCJK (c : N) : bool := (19968 <=? c) && (c <=? 40959).
Definition chineseRegex_test (text : list N) : bool := existsb isCJK text.

Inductive FilterResult := FILTER_ACCEPT | FILTER_REJECT | FILTER_SKIP.

(** the [acceptNode] callback; [data] is [node.textContent] of a text node *)
Definition acceptNode (data : list N) : FilterResult :=
  let text := trim data in
  if (length text <? 2)%nat then FILTER_REJECT
  else if chineseRegex_test text then FILTER_ACCEPT
  else FILTER_REJECT.

(** The nodes that successive [walker.nextNode()] calls return, in document
    order, for [whatToShow = NodeFilter.SHOW_TEXT]: a node of another type is
    skipped and its children are visited; a text node is returned when the
    callback accepts it. *)
Fixpoint walk (here : list nat) (n : Node) {struct n}
  : list (list nat * list N) :=
  match n with
  | TextNode data =>
      match acceptNode data with
      | FILTER_ACCEPT => [(here, data)]
      | _ => []
      end
  | CommentNode _ => []
  | ElementNode _ cs | DocumentNode cs =>
      (fix each (i : nat) (cs : list Node) {struct cs} :=
         match cs with
         | [] => []
         | c :: cs' => walk (here ++ [i]) c ++ each (S i) cs'
         end) 0%nat cs
  end.

(** The walk starts below its root: the root itself is never returned. *)
Definition walker_nodes (root : Node) : list (list nat * list N) :=
  match root with
  | ElementNode _ _ | DocumentNode _ => walk [] root
  | TextNode _ | CommentNode _ => []
  end.

Record TextCandidate := {
  node : list nat;
  text : list N;
  parent : list nat
}.

(** [document.body || document] *)
Record Page := {
  document : Node;
  body : option Node
}.

Definition walker_root (pg : Page) : Node :=
  match body pg with
  | Some b => b
  | None => document pg
  end.

(** the body of the [while (textNode = walker.nextNode())] loop *)
Definition pushCandidate (found : list nat * list N) : list TextCandidate :=
  let text := trim (snd found) in
  if (2 <=? length text)%nat
  then [ {| node := fst found; text := text; parent := removelast (fst found) |} ]
  else [].

Definition extractChineseTexts (pg : Page) : list TextCandidate :=
  flat_map pushCandidate (walker_nodes (walker_root pg)).

(** ** The settings form (chrome_ext/popup.js) *)

(** The part of a parsed URL that the validator reads. *)
Record URL := {
  protocol : list N
}.

Record Form := {
  serverUrlInput : list N;
  apiUrlInput : list N;
  apiKeyInput : list N;
  modelNameInput : list N;
  systemPromptInput : list N;
  userPromptTemplateInput : list N
}.

Inductive StatusType := status_error | status_success.

(** The texts [showStatus] is called with by [saveSettings]. *)
Inductive StatusMessage :=
| MsgServerUrlMissing        (* 请输入后端服务地址 *)
| MsgServerUrlInvalid        (* 请输入有效的后端服务URL地址 *)
| MsgApiUrlInvalid           (* 请输入有效的API URL地址 *)
| MsgTargetWordMissing       (* 用户提示词模板必须包含 {target_word} 占位符 *)
| MsgContextSentenceMissing  (* 用户提示词模板必须包含 {context_sentence} 占位符 *)
| MsgSaved                   (* 设置保存成功！ *)
| MsgSaveFailed.             (* 保存设置失败 *)

(** What [saveSettings] reads and writes outside the form: the value kept by
    [chrome.storage.sync] under [translatorConfig], the arguments of the
    calls of [chrome.storage.sync.set] made so far, the status line, and the
    number of [notifyConfigUpdate] calls. *)
Record PopupState := {
  persisted : option (gmap string JsValue);
  set_calls : list (gmap string JsValue);
  status : option (StatusMessage * StatusType);
  notified : nat
}.

Definition showStatus (m : StatusMessage) (t : StatusType) (st : PopupState)
  : PopupState :=
  {| persisted := persisted st; set_calls := set_calls st;
     status := Some (m, t); notified := notified st |}.

Definition isEmpty (s : list N) : bool :=
  match s with [] => true | _ => false end.

Section SettingsForm.

(** [new URL(string)]; [None] when the constructor throws. *)
Variable URL_parse : list N -> option URL.

Definition isValidUrl (string : list N) : bool :=
  match URL_parse string with
  | Some url =>
      bool_decide (protocol url = js "http:")
      || bool_decide (protocol url = js "https:")
  | None => false
  end.

(** [saveSettings]; [set_resolves] tells whether the promise of
    [chrome.storage.sync.set] resolves, [now] is [Date.now()]. The previews
    of the current settings, which [saveSettings] refreshes after a write,
    are left out. The settings-page script has the same function, followed
    by a refresh of the cache status. *)
Definition saveSettings (form : Form) (now : spec_float) (set_resolves : bool)
    (st : PopupState) : PopupState :=
  let serverUrl := trim (serverUrlInput form) in
  let apiUrl := trim (apiUrlInput form) in
  let apiKey := trim (apiKeyInput form) in
  let modelName := trim (modelNameInput form) in
  let systemPrompt := trim (systemPromptInput form) in
  let userPromptTemplate := trim (userPromptTemplateInput form) in
  if isEmpty serverUrl then
    showStatus MsgServerUrlMissing status_error st
  else if negb (isValidUrl serverUrl) then
    showStatus MsgServerUrlInvalid status_error st
  else if negb (isEmpty apiUrl) && negb (isValidUrl apiUrl) then
    showStatus MsgApiUrlInvalid status_error st
  else if negb (isEmpty userPromptTemplate)
          && negb (includes userPromptTemplate (js "{target_word}")) then
    showStatus MsgTargetWordMissing status_error st
  else if negb (isEmpty userPromptTemplate)
          && negb (includes userPromptTemplate (js "{context_sentence}")) then
    showStatus MsgContextSentenceMissing status_error st
  else
    let config : gmap string JsValue :=
      <["serverUrl"%string := VStr serverUrl]>
      (<["apiUrl"%string := VStr apiUrl]>
      (<["apiKey"%string := VStr apiKey]>
      (<["modelName"%string := VStr modelName]>
      (<["systemPrompt"%string := VStr systemPrompt]>
      (<["userPromptTemplate"%string := VStr userPromptTemplate]>
      (<["lastUpdated"%string := VNum now]> ∅)))))) in
    if set_resolves then
      {| persisted := Some config;
         set_calls := set_calls st ++ [config];
         status := Some (MsgSaved, status_success);
         notified := S (notified st) |}
    else
      {| persisted := persisted st;
         set_calls := set_calls st ++ [config];
         status := Some (MsgSaveFailed, status_error);
         notified := notified st |}.

End SettingsForm.

(** ** Completions *)

Inductive Error :=
| SyntaxError        (* [new RegExp] on an invalid pattern *)
| TypeError          (* a call of a property that is not a function *)
| FetchFailed        (* the promise of [fetch] rejects *)
| HttpError (status : N)   (* [new Error(`HTTP error! status: ...`)] *)
| JsonParseError     (* the promise of [response.json()] rejects *)
| DOMException.      (* a DOM setter throws *)

Inductive Completion (A : Type) :=
| Normal (a : A)
| Throw (e : Error).

Arguments Normal {A} a.
Arguments Throw {A} e.

(** ** Regular expressions *)

(** [subject.replace(new RegExp(pattern, 'g'), template)] as the platform
    computes it; [None] when the constructor throws a SyntaxError. *)
Record RegExpEngine := {
  replace_g : list N -> list N -> list N -> option (list N)
}.

(** The fragment of the pattern language that is interpreted here: a
    non-empty sequence of pattern characters and of dots. *)
Inductive Atom :=
| AChar (c : N)
| ADot.

(** SyntaxCharacter: one of [^ $ \ . * + ? ( ) [ ] { } |] *)
Definition isSyntaxCharacter (c : N) : bool :=
  (c =? 94) || (c =? 36) || (c =? 92) || (c =? 46) || (c =? 42) || (c =? 43)
  || (c =? 63) || (c =? 40) || (c =? 41) || (c =? 91) || (c =? 93)
  || (c =? 123) || (c =? 125) || (c =? 124).

Definition parseAtom (c : N) : option Atom :=
  if c =? 46 then Some ADot
  else if isSyntaxCharacter c then None
  else Some (AChar c).

Fixpoint parseFragment (pattern : list N) : option (list Atom) :=
  match pattern with
  | [] => Some []
  | c :: rest =>
      match parseAtom c, parseFragment rest with
      | Some a, Some r => Some (a :: r)
      | _, _ => None
      end
  end.

(** LineTerminator: the code units a dot does not match *)
Definition isLineTerminator (c : N) : bool :=
  (c =? 10) || (c =? 13) || (c =? 8232) || (c =? 8233).

Definition atomMatches (a : Atom) (c : N) : bool :=
  match a with
  | AChar x => x =? c
  | ADot => negb (isLineTerminator c)
  end.

(** the atoms match a prefix of [s] *)
Fixpoint matchAt (r : list Atom) (s : list N) : bool :=
  match r, s with
  | [], _ => true
  | _ :: _, [] => false
  | a :: r', c :: s' => atomMatches a c && matchAt r' s'
  end.

(** GetSubstitution for a match without capture groups: [$$], [$&],
    [$`] and [$'] are expanded, every other code unit stands for itself. *)
Fixpoint GetSubstitution (matched before after template : list N) : list N :=
  match template with
  | 36 :: 36 :: t => 36 :: GetSubstitution matched before after t
  | 36 :: 38 :: t => matched ++ GetSubstitution matched before after t
  | 36 :: 96 :: t => before ++ GetSubstitution matched before after t
  | 36 :: 39 :: t => after ++ GetSubstitution matched before after t
  | c :: t => c :: GetSubstitution matched before after t
  | [] => []
  end.

(** The global replacement for a non-empty sequence of atoms [r]: the
    subject is scanned from the left; [seen] holds, reversed, what lies
    before the current position, and [skip] counts the code units of the
    last match that are still to be passed over. *)
Fixpoint replaceScan (r : list Atom) (template seen s : list N) (skip : nat)
  : list N :=
  match s with
  | [] => []
  | c :: s' =>
      match skip with
      | S k => replaceScan r template (c :: seen) s' k
      | O =>
          if matchAt r s then
            GetSubstitution (firstn (length r) s) (rev seen)
              (skipn (length r) s) template
            ++ replaceScan r template (c :: seen) s' (length r - 1)
          else c :: replaceScan r template (c :: seen) s' 0
      end
  end.

(** An engine conforms on the fragment when it computes [replaceScan] for
    every pattern of the fragment. *)
Definition conforms (E : RegExpEngine) : Prop :=
  forall pattern r subject template,
    parseFragment pattern = Some r -> r <> [] ->
    replace_g E pattern subject template
    = Some (replaceScan r template [] subject 0).

(** The engine restricted to the fragment; every other pattern is
    refused. *)
Definition fragmentEngine : RegExpEngine :=
  {| replace_g pattern subject template :=
       match parseFragment pattern with
       | Some (a :: r) => Some (replaceScan (a :: r) template [] subject 0)
       | _ => None
       end |}.

(** Replacement of the plain-string occurrences of [word], left to right
    and without overlap, each by [by_]: what a literal substitution does. *)
Fixpoint replaceLiteral (word by_ s : list N) (skip : nat) : list N :=
  match s with
  | [] => []
  | c :: s' =>
      match skip with
      | S k => replaceLiteral word by_ s' k
      | O =>
          if startsWith word s
          then by_ ++ replaceLiteral word by_ s' (length word - 1)
          else c :: replaceLiteral word by_ s' 0
      end
  end.

(** ** The document as the annotator sees it *)

(** The three DOM accesses of [annotateWordInText], over any representation
    [Dom] of the live document. A node is named by its path. The getter
    gives [None] for a node without the property [innerHTML]; a setter gives
    [None] when it throws. *)
Class DomApi (Dom : Type) := {
  innerHTML : Dom -> list nat -> option (list N);
  set_innerHTML : Dom -> list nat -> list N -> option Dom;
  set_textContent : Dom -> list nat -> list N -> option Dom
}.

(** ** The translation client and the annotator (chrome_ext/content.js) *)

(** The body that [callTranslateAPI] posts. *)
Record Request := {
  url : list N;
  method : list N;
  sentence : list N;
  api_url : option JsValue;
  api_key : option JsValue;
  model_name : option JsValue;
  system_prompt : option JsValue;
  user_prompt_template : option JsValue
}.

(** What [response.json()] resolves to: a value that is not an object
    (with its truth value), or an object with optional string properties
    [target_word] and [translation]. *)
Inductive JsonValue :=
| JNotObject (truth : bool)
| JObject (target_word translation : option (list N)).

(** A response: [response.ok], [response.status], and what
    [response.json()] resolves to ([None] when it rejects). *)
Record Response := {
  ok : bool;
  status_code : N;
  json : option JsonValue
}.

(** How the promise of a [fetch] call settles. *)
Inductive FetchOutcome :=
| FetchRejected
| FetchResponse (response : Response).

Inductive Event :=
| LogStart                         (* === 开始翻译选中的句子 === *)
| LogTranslating (i : nat) (text : list N)   (* 正在翻译第 i+1 个句子 *)
| LogFound (target_word translation : list N) (* 发现目标词汇 *)
| LogNoValidResult                 (* 翻译API未返回有效结果 *)
| LogTranslateFailed (e : Error)   (* 翻译失败 *)
| LogDone                          (* === 翻译完成 === *)
| LogConfigLoaded (fallback : bool) (* 配置已加载 / 加载配置失败，使用默认配置 *)
| LogApiCall (url : list N)        (* 调用API *)
| LogApiConfig (systemPrompt userPromptTemplate : list N) (* API配置 *)
| LogApiFailed (e : Error)         (* API调用失败 *)
| LogBefore (originalText : list N) (* 标注前 *)
| LogHtmlAnnotated                 (* 成功添加可悬浮的单词标注 *)
| LogHtmlFailed                    (* HTML样式标注失败，使用文本标注 *)
| LogAfter (newText : list N)      (* 标注后 *)
| LogTextAnnotated                 (* 成功添加文本标注 *)
| LogTextFailed                    (* 添加标注失败 *)
| LogWordNotFound (targetWord : list N) (* 原文本中未找到目标词汇 *)
| EvHoverSetup (id : list N)       (* setTimeout(..., 100) *)
| EvFetch (request : Request)      (* fetch(apiUrl, {method: 'POST', ...}) *)
| EvSettled (outcome : FetchOutcome) (* the awaited promise settles *)
| EvDelay (ms : N).                (* await new Promise(r => setTimeout(r, ms)) *)

(** What the surroundings decide during a translation pass. *)
Record Env := {
  chrome_storage : bool;
  storage_get : StorageGet;
  date_now : spec_float;
  fetch_outcome : nat -> Request -> FetchOutcome;
  word_id : nat -> list N;
  regexp : RegExpEngine;
  Number_toString : spec_float -> list N
}.

(** ToString of a settings value *)
Definition ToString (num : spec_float -> list N) (v : option JsValue)
  : list N :=
  match v with
  | None => js "undefined"
  | Some VNull => js "null"
  | Some (VBool b) => if b then js "true" else js "false"
  | Some (VNum n) => num n
  | Some (VStr s) => s
  end.

(** [v ? v.substring(0, 30) + '...' : '未设置'] *)
Definition promptPreview (v : option JsValue) : Completion (list N) :=
  if truthy v then
    match v with
    | Some (VStr s) => Normal (firstn 30 s ++ js "...")
    | _ => Throw TypeError
    end
  else Normal [26410; 35774; 32622].

Definition quoted (s : list N) : list N := 34 :: s ++ [34].

Definition hoverableWord (hoverableWordId targetWord translation : list N)
  : list N :=
  js "<span id=" ++ quoted hoverableWordId
  ++ js " class=" ++ quoted (js "translens-hoverable-word")
  ++ js " style="
  ++ quoted (js "cursor: pointer; color: #1e3a5f; font-weight: bold; text-decoration: underline; background-color: #e8f4f8; padding: 1px 2px; border-radius: 2px; transition: background-color 0.2s; position: relative;")
  ++ js " data-word=" ++ quoted targetWord
  ++ js " data-translation=" ++ quoted translation
  ++ js ">" ++ targetWord ++ js "</span>".

Definition styledAnnotation (translation : list N) : list N :=
  js "<span style="
  ++ quoted (js "color: #ff6b35; font-weight: bold; background-color: #fff3cd; padding: 1px 4px; border-radius: 3px; font-size: 0.85em; margin-left: 2px;")
  ++ js ">" ++ [12304] ++ translation ++ [12305] ++ js "</span>".

(** [` 【${translation}】`] *)
Definition annotation (translation : list N) : list N :=
  32 :: 12304 :: translation ++ [12305].

Definition validResult (result : JsonValue) : option (list N * list N) :=
  match result with
  | JObject (Some (c :: w)) (Some (d :: t)) => Some (c :: w, d :: t)
  | _ => None
  end.

Section Client.

Context {Dom : Type} `{DomApi Dom}.

(** The state a translation pass works on: the document, the module
    variable [translatorConfig] ([None] is [null]) and the events so far. *)
Record World := {
  dom : Dom;
  translatorConfig : option (gmap string JsValue);
  trace : list Event
}.

(** Statements: state passing with an abrupt completion. *)
Definition M (A : Type) : Type := World -> World * Completion A.

Definition ret {A} (a : A) : M A := fun w => (w, Normal a).
Definition throw {A} (e : Error) : M A := fun w => (w, Throw e).
Definition bind {A B} (m : M A) (k : A -> M B) : M B :=
  fun w =>
    match m w with
    | (w', Normal a) => k a w'
    | (w', Throw e) => (w', Throw e)
    end.
(** [try { m } catch (error) { handler error }] *)
Definition try_catch {A} (m : M A) (handler : Error -> M A) : M A :=
  fun w =>
    match m w with
    | (w', Normal a) => (w', Normal a)
    | (w', Throw e) => handler e w'
    end.
Definition lift {A} (c : Completion A) : M A := fun w => (w, c).
Definition emit (ev : Event) : M unit :=
  fun w =>
    ({| dom := dom w; translatorConfig := translatorConfig w;
        trace := trace w ++ [ev] |}, Normal tt).
Definition read : M World := fun w => (w, Normal w).
Definition set_dom (d : Dom) : M unit :=
  fun w =>
    ({| dom := d; translatorConfig := translatorConfig w; trace := trace w |},
     Normal tt).
Definition set_config (c : gmap string JsValue) : M unit :=
  fun w =>
    ({| dom := dom w; translatorConfig := Some c; trace := trace w |},
     Normal tt).

Notation "x <- m ;; k" := (bind m (fun x => k))
  (at level 100, m at next level, right associativity).
Notation "m ;;; k" := (bind m (fun _ => k))
  (at level 100, right associativity).

Variable env : Env.

(** the fetch calls made so far *)
Definition requests (w : World) : list Request :=
  flat_map (fun ev => match ev with EvFetch r => [r] | _ => [] end) (trace w).

(** [loadTranslatorConfig] as a statement *)
Definition loadTranslatorConfig : M unit :=
  set_config
    (Content.loadTranslatorConfig (chrome_storage env) (storage_get env)
       (date_now env)) ;;;
  emit (LogConfigLoaded
          (negb (chrome_storage env)
           || match storage_get env with GetRejected => true | _ => false end)).

(** [await fetch(apiUrl, {method: 'POST', headers, body})] *)
Definition fetch (request : Request) : M Response :=
  w <- read ;;
  let outcome := fetch_outcome env (length (requests w)) request in
  emit (EvFetch request) ;;;
  emit (EvSettled outcome) ;;;
  match outcome with
  | FetchRejected => throw FetchFailed
  | FetchResponse response => ret response
  end.

(** [if (!translatorConfig) { await loadTranslatorConfig(); }] *)
Definition ensureConfig : M unit :=
  w0 <- read ;;
  match translatorConfig w0 with
  | None => loadTranslatorConfig
  | Some _ => ret tt
  end.

(** [callTranslateAPI] from the line that builds [apiUrl] on, [config]
    being the object in [translatorConfig]. *)
Definition postSentence (config : gmap string JsValue) (sentence_ : list N)
  : M JsonValue :=
  let apiUrl :=
    ToString (Number_toString env) (config !! "serverUrl"%string)
    ++ js "/translate" in
  emit (LogApiCall apiUrl) ;;;
  sp <- lift (promptPreview (config !! "systemPrompt"%string)) ;;
  up <- lift (promptPreview (config !! "userPromptTemplate"%string)) ;;
  emit (LogApiConfig sp up) ;;;
  try_catch
    (let requestBody :=
       {| url := apiUrl;
          method := js "POST";
          sentence := sentence_;
          api_url := config !! "apiUrl"%string;
          api_key := config !! "apiKey"%string;
          model_name := config !! "modelName"%string;
          system_prompt := config !! "systemPrompt"%string;
          user_prompt_template := config !! "userPromptTemplate"%string |} in
     response <- fetch requestBody ;;
     if negb (ok response) then throw (HttpError (status_code response))
     else
       match json response with
       | None => throw JsonParseError
       | Some result => ret result
       end)
    (fun error => emit (LogApiFailed error) ;;; throw error).

Definition callTranslateAPI (sentence_ : list N) : M JsonValue :=
  ensureConfig ;;;
  w <- read ;;
  match translatorConfig w with
  | None => throw TypeError
  | Some config => postSentence config sentence_
  end.

(** [new RegExp(targetWord, 'g')] followed by [subject.replace] *)
Definition regexReplace (targetWord subject template : list N)
  : M (list N) :=
  match replace_g (regexp env) targetWord subject template with
  | Some s => ret s
  | None => throw SyntaxError
  end.

(** the plain-text annotation at the end of [annotateWordInText] *)
Definition annotateAsText (textData : TextCandidate)
    (targetWord translation : list N) : M unit :=
  newText <- regexReplace targetWord (text textData)
               (targetWord ++ annotation translation) ;;
  emit (LogAfter newText) ;;;
  w <- read ;;
  match set_textContent (dom w) (node textData) newText with
  | Some d => set_dom d ;;; emit LogTextAnnotated
  | None => emit LogTextFailed
  end.

Definition annotateWordInText (hoverableWordId : list N)
    (textData : TextCandidate) (targetWord translation : list N) : M unit :=
  let originalText := text textData in
  if includes originalText targetWord then
    emit (LogBefore originalText) ;;;
    w <- read ;;
    match innerHTML (dom w) (parent textData) with
    | Some currentHTML =>
        newHTML <- regexReplace targetWord currentHTML
                     (hoverableWord hoverableWordId targetWord translation
                      ++ styledAnnotation translation) ;;
        match set_innerHTML (dom w) (parent textData) newHTML with
        | Some d =>
            set_dom d ;;;
            emit LogHtmlAnnotated ;;;
            emit (LogAfter (targetWord ++ [12304] ++ translation ++ [12305])) ;;;
            emit (EvHoverSetup hoverableWordId)
        | None =>
            emit LogHtmlFailed ;;;
            annotateAsText textData targetWord translation
        end
    | None => annotateAsText textData targetWord translation
    end
  else emit (LogWordNotFound targetWord).

(** one turn of the [for] loop of [translateSelectedTexts] *)
Definition translateOne (i : nat) (textData : TextCandidate) : M unit :=
  emit (LogTranslating i (text textData)) ;;;
  try_catch
    (result <- callTranslateAPI (text textData) ;;
     match validResult result with
     | Some (target_word, translation) =>
         emit (LogFound target_word translation) ;;;
         annotateWordInText (word_id env i) textData target_word translation
     | None => emit LogNoValidResult
     end)
    (fun error => emit (LogTranslateFailed error)) ;;;
  emit (EvDelay 500).

Fixpoint translateFrom (i : nat) (selectedTexts : list TextCandidate)
  : M unit :=
  match selectedTexts with
  | [] => ret tt
  | textData :: rest => translateOne i textData ;;; translateFrom (S i) rest
  end.

Definition translateSelectedTexts (selectedTexts : list TextCandidate)
  : M unit :=
  emit LogStart ;;;
  translateFrom 0 selectedTexts ;;;
  emit LogDone.

End Client.

Arguments World Dom : clear implicits.
Arguments M Dom A : clear implicits.

(** ** A document kept as two tables *)

(** The markup of the elements and the data of the text nodes, by path.
    Assigning [innerHTML] to an element without markup, or [textContent] to
    a path without text, throws. *)
Record TableDom := {
  markup : gmap (list nat) (list N);
  chars : gmap (list nat) (list N)
}.

#[export] Instance TableDom_api : DomApi TableDom := {|
  innerHTML d p := markup d !! p;
  set_innerHTML d p s :=
    match markup d !! p with
    | Some _ => Some {| markup := <[p := s]> (markup d); chars := chars d |}
    | None => None
    end;
  set_textContent d p s :=
    match chars d !! p with
    | Some _ => Some {| markup := markup d; chars := <[p := s]> (chars d) |}
    | None => None
    end
|}.

(** ** Predicates used in the statements *)

(** The field [k] is absent from what the storage area returned: the stored
    object lacks it, or there is no stored object at all. *)
Definition absent_from_stored (get : StorageGet) (k : string) : Prop :=
  match get with
  | GetResolved (Some config) => config !! k = None
  | GetResolved None => True
  | GetRejected => True
  end.

(** The length the sampler's result has for [len] candidates when the
    floor of the product is [f]: the count [max(1, f)], cut at [len]. *)
Definition clampedCount (len : nat) (f : IntegralNumber) : nat :=
  match f with
  | INaN => 0%nat
  | INegInf => Nat.min len 1
  | IInt z => Z.to_nat (Z.min (Z.of_nat len) (Z.max 1 z))
  | IPosInf => len
  end.

(** The text of a node as the scanner reads it does not qualify: it is
    shorter than two code units, or no code unit of it is in the range
    U+4E00..U+9FFF. *)
Definition unqualified (data : list N) : Prop :=
  (length (trim data) < 2)%nat ∨ (∀ c, In c (trim data) → isCJK c = false).

(** The children part of [walk], named. *)
Fixpoint walkEach (here : list nat) (i : nat) (cs : list Node)
  : list (list nat * list N) :=
  match cs with
  | [] => []
  | c :: cs' => walk (here ++ [i]) c ++ walkEach here (S i) cs'
  end.

(** What [walk] returns lies below the node it starts from, is a text node,
    and was accepted by the callback. *)
Definition walk_sound_at (n : Node) : Prop :=
  ∀ here path data,
    In (path, data) (walk here n) →
    ∃ rel, path = here ++ rel
           ∧ nodeAt n rel = Some (TextNode data)
           ∧ acceptNode data = FILTER_ACCEPT.

(** A page for the examples: a body with a short text, a paragraph holding
    a Chinese text, a comment and a single character, an English text and a
    Chinese text. *)
Definition samplePage : Page :=
  {| document := DocumentNode [];
     body := Some (ElementNode (js "BODY")
       [ TextNode (js "  a ");
         ElementNode (js "P")
           [ TextNode (32 :: 20013 :: 25991 :: js " x ");
             CommentNode [20013; 20013];
             TextNode [20013] ];
         TextNode (js "hello world");
         TextNode [20013; 20013] ]) |}.

Definition sampleCandidate : TextCandidate :=
  {| node := [3%nat]; text := [20013; 20013]; parent := [] |}.

(** The checks of [saveSettings] that end it before the write. *)
Definition validation_fails (URL_parse : list N → option URL) (form : Form)
  : Prop :=
  let serverUrl := trim (serverUrlInput form) in
  let apiUrl := trim (apiUrlInput form) in
  let userPromptTemplate := trim (userPromptTemplateInput form) in
  serverUrl = []
  ∨ isValidUrl URL_parse serverUrl = false
  ∨ (apiUrl ≠ [] ∧ isValidUrl URL_parse apiUrl = false)
  ∨ (userPromptTemplate ≠ []
     ∧ (includes userPromptTemplate (js "{target_word}") = false
        ∨ includes userPromptTemplate (js "{context_sentence}") = false)).

(** A parser for the examples: it accepts what starts with [http://],
    [https://] or [ftp://] and keeps the scheme. *)
Definition sampleParser (s : list N) : option URL :=
  if startsWith (js "http://") s then Some {| protocol := js "http:" |}
  else if startsWith (js "https://") s then Some {| protocol := js "https:" |}
  else if startsWith (js "ftp://") s then Some {| protocol := js "ftp:" |}
  else None.

Definition emptyForm : Form :=
  {| serverUrlInput := js "   "; apiUrlInput := []; apiKeyInput := [];
     modelNameInput := []; systemPromptInput := [];
     userPromptTemplateInput := [] |}.

Definition goodForm : Form :=
  {| serverUrlInput := js " http://127.0.0.1:5000 "; apiUrlInput := [];
     apiKeyInput := js "k"; modelNameInput := []; systemPromptInput := [];
     userPromptTemplateInput := js "{target_word} in {context_sentence}" |}.

Definition freshPopup : PopupState :=
  {| persisted := None; set_calls := []; status := None; notified := 0 |}.

(** [p] occurs in [s] as a substring. *)
Definition substring_of (p s : list N) : Prop :=
  ∃ before after, s = before ++ p ++ after.

(** *** The translation pass *)

(** The requests of a trace are those of its network events. *)
Definition requestsOf (tr : list Event) : list Request :=
  flat_map (fun ev => match ev with EvFetch r => [r] | _ => [] end) tr.


Section ClientStatements.

Context {Dom : Type} `{DomApi Dom}.
Variable env : Env.

(** The state a statement leaves and the way it completes. *)
Definition exec {A} (m : M Dom A) (w : World Dom) : World Dom := fst (m w).
Definition completion {A} (m : M Dom A) (w : World Dom) : Completion A :=
  snd (m w).

(** The turns of the loop that a trace records. *)
Definition turns (tr : list Event) : list (nat * list N) :=
  flat_map (fun ev => match ev with LogTranslating i t => [(i, t)] | _ => [] end)
    tr.

(** What a trace records of the network and of the waits. *)
Definition isNet (ev : Event) : bool :=
  match ev with
  | EvFetch _ | EvSettled _ | EvDelay _ => true
  | _ => false
  end.

Definition net (tr : list Event) : list Event := List.filter isNet tr.

(** The configuration a call works with: the one in [translatorConfig], or
    the one [loadTranslatorConfig] puts there when it is [null]. *)
Definition effective_config (w : World Dom) : gmap string JsValue :=
  match translatorConfig w with
  | Some config => config
  | None =>
      Content.loadTranslatorConfig (chrome_storage env) (storage_get env)
        (date_now env)
  end.

(** The request [callTranslateAPI] sends for a sentence. *)
Definition requestFor (config : gmap string JsValue) (sentence_ : list N)
  : Request :=
  {| url := ToString (Number_toString env) (config !! "serverUrl"%string)
            ++ js "/translate";
     method := js "POST";
     sentence := sentence_;
     api_url := config !! "apiUrl"%string;
     api_key := config !! "apiKey"%string;
     model_name := config !! "modelName"%string;
     system_prompt := config !! "systemPrompt"%string;
     user_prompt_template := config !! "userPromptTemplate"%string |}.

(** A translation call fails: the request is rejected, the response is not
    in the 2xx range, or its body is not JSON. *)
Definition failing (o : FetchOutcome) : bool :=
  match o with
  | FetchRejected => true
  | FetchResponse r => negb (ok r) || match json r with None => true | _ => false end
  end.

(** How [callTranslateAPI] completes for an outcome of its request. *)
Definition apiCompletion (o : FetchOutcome) : Completion JsonValue :=
  match o with
  | FetchRejected => Throw FetchFailed
  | FetchResponse r =>
      if negb (ok r) then Throw (HttpError (status_code r))
      else match json r with
           | None => Throw JsonParseError
           | Some result => Normal result
           end
  end.

(** A prompt in the configuration is a string or is falsy. *)
Definition string_or_falsy (v : option JsValue) : Prop :=
  truthy v = false ∨ ∃ s, v = Some (VStr s).

Definition prompts_are_strings (config : gmap string JsValue) : Prop :=
  string_or_falsy (config !! "systemPrompt"%string)
  ∧ string_or_falsy (config !! "userPromptTemplate"%string).

(** The events of the network and of the waits for the turns of
    [selectedTexts], the first request being the [k]-th of the trace. *)
Fixpoint netOf (config : gmap string JsValue) (k : nat)
    (selectedTexts : list TextCandidate) : list Event :=
  match selectedTexts with
  | [] => []
  | textData :: rest =>
      let request := requestFor config (text textData) in
      EvFetch request :: EvSettled (fetch_outcome env k request)
      :: EvDelay 500 :: netOf config (S k) rest
  end.

(** The turns of [selectedTexts], numbered from [i]. *)
Fixpoint turnsOf (i : nat) (selectedTexts : list TextCandidate)
  : list (nat * list N) :=
  match selectedTexts with
  | [] => []
  | textData :: rest => (i, text textData) :: turnsOf (S i) rest
  end.

(** A statement takes every state to one related to it by [R]. *)
Definition preserves {A} (R : relation (World Dom)) (m : M Dom A) : Prop :=
  ∀ w, R w (exec m w).

(** The trace grows, by events of the kind [P] only. *)
Definition grows (P : Event → Prop) : relation (World Dom) :=
  fun w w' => ∃ delta, trace w' = trace w ++ delta ∧ Forall P delta.

Definition same_dom : relation (World Dom) :=
  fun w w' => dom w' = dom w.

Definition same_config : relation (World Dom) :=
  fun w w' => translatorConfig w' = translatorConfig w.

(** A statement completes normally from every state. *)
Definition never_throws {A} (m : M Dom A) : Prop :=
  ∀ w, ∃ a, completion m w = Normal a.

(** Events of the annotator and of the logs: neither a turn of the loop nor
    an event of the network. *)
Definition quiet (ev : Event) : Prop :=
  isNet ev = false ∧ turns [ev] = [].

End ClientStatements.

(** *** Examples for the annotator and the client *)

(** One paragraph at path [[0]] holding the text node [[0; 0]]:
    1.5米和125米 *)
Definition sampleText : list N :=
  js "1.5" ++ [31859; 21644] ++ js "125" ++ [31859].

Definition sampleDom : TableDom :=
  {| markup := {[ [0%nat] := sampleText ]};
     chars := {[ [0; 0]%nat := sampleText ]} |}.

Definition sampleTextData : TextCandidate :=
  {| node := [0; 0]%nat; text := sampleText; parent := [0%nat] |}.

Definition sampleResponse (o : FetchOutcome) : nat → Request → FetchOutcome :=
  fun _ _ => o.

Definition sampleEnv (stored : option (gmap string JsValue))
    (o : FetchOutcome) : Env :=
  {| chrome_storage := true;
     storage_get := GetResolved stored;
     date_now := Number.of_Z 1;
     fetch_outcome := sampleResponse o;
     word_id := fun _ => js "translens-word-1-abc";
     regexp := fragmentEngine;
     Number_toString := fun _ => js "NaN" |}.

Definition sampleWorld : World TableDom :=
  {| dom := sampleDom; translatorConfig := None; trace := [] |}.

(** What replaces an occurrence of the word: the hoverable span followed by
    the bracket badge. *)
Definition annotationMarkup (id targetWord translation : list N) : list N :=
  hoverableWord id targetWord translation ++ styledAnnotation translation.


(** *** Percentages and rounding *)

(** [p] is a finite number with 0 <= p <= 1: a zero, or a positive
    mantissa [m] with an exponent [e] such that [m * 2^e <= 1]. *)
Definition unitFraction (p : spec_float) : Prop :=
  match p with
  | S754_zero _ => True
  | S754_finite false m e => (e ≤ 0)%Z ∧ (Z.pos m ≤ 2 ^ (- e))%Z
  | _ => False
  end.

(** What [i] shifts to the right keep of the mantissa [m]: the part that
    is left is not above [m], and it is below [m] when a bit was dropped. *)
Definition shifted (m : Z) (i : Z) (mrs : shr_record) : Prop :=
  (0 ≤ shr_m mrs)%Z
  ∧ (shr_m mrs * 2 ^ i ≤ m)%Z
  ∧ (shr_r mrs || shr_s mrs = true → (shr_m mrs * 2 ^ i < m)%Z).

(** *** A page with two paragraphs *)

(** A second paragraph at path [[1]] holding the text node [[1; 0]]:
    共125页 *)
Definition secondText : list N := [20849] ++ js "125" ++ [39029].

Definition secondTextData : TextCandidate :=
  {| node := [1; 0]%nat; text := secondText; parent := [1%nat] |}.

Definition twoParagraphs : TableDom :=
  {| markup := <[ [1%nat] := secondText ]> {[ [0%nat] := sampleText ]};
     chars := <[ [1; 0]%nat := secondText ]> {[ [0; 0]%nat := sampleText ]} |}.

Definition twoParagraphWorld : World TableDom :=
  {| dom := twoParagraphs; translatorConfig := None; trace := [] |}.

(** A server that answers the first request with status 500 and every
    later one with the word 125 and its translation. *)
Definition failThenAnswer (k : nat) (request : Request) : FetchOutcome :=
  match k with
  | O => FetchResponse {| ok := false; status_code := 500; json := None |}
  | S _ =>
      FetchResponse {| ok := true; status_code := 200;
                       json := Some (JObject (Some (js "125"))
                                       (Some (js "x"))) |}
  end.

Definition failFirstEnv : Env :=
  {| chrome_storage := true;
     storage_get := GetResolved None;
     date_now := Number.of_Z 1;
     fetch_outcome := failThenAnswer;
     word_id := fun _ => js "w1";
     regexp := fragmentEngine;
     Number_toString := fun _ => js "NaN" |}.
(** * The rest of the extension *)

(** ** The settings form: previews, loading and resetting
    (chrome_ext/popup.js) *)

(** 未设置 and 已设置 *)
Definition unsetText : list N := [26410; 35774; 32622].
Definition isSetText : list N := [24050; 35774; 32622].

(** The six lines under the form that show the current settings. *)
Record Previews := {
  currentServerUrl : list N;
  currentApiUrl : list N;
  currentModel : list N;
  currentApiKey : list N;
  currentSystemPrompt : list N;
  currentUserPromptTemplate : list N
}.

(** [s || '未设置'] for a string [s] *)
Definition orUnset (s : list N) : list N :=
  if isEmpty s then unsetText else s.

Definition updatePreview (form : Form) (pv : Previews) : Previews :=
  {| currentServerUrl := orUnset (trim (serverUrlInput form));
     currentApiUrl := currentApiUrl pv;
     currentModel := currentModel pv;
     currentApiKey := currentApiKey pv;
     currentSystemPrompt := currentSystemPrompt pv;
     currentUserPromptTemplate := currentUserPromptTemplate pv |}.

Definition updateApiPreview (form : Form) (pv : Previews) : Previews :=
  {| currentServerUrl := currentServerUrl pv;
     currentApiUrl := orUnset (trim (apiUrlInput form));
     currentModel := orUnset (trim (modelNameInput form));
     currentApiKey :=
       if isEmpty (trim (apiKeyInput form)) then unsetText else isSetText;
     currentSystemPrompt := currentSystemPrompt pv;
     currentUserPromptTemplate := currentUserPromptTemplate pv |}.

Definition updatePromptPreview (form : Form) (pv : Previews) : Previews :=
  {| currentServerUrl := currentServerUrl pv;
     currentApiUrl := currentApiUrl pv;
     currentModel := currentModel pv;
     currentApiKey := currentApiKey pv;
     currentSystemPrompt :=
       firstn 20 (orUnset (trim (systemPromptInput form))) ++ js "...";
     currentUserPromptTemplate :=
       firstn 20 (orUnset (trim (userPromptTemplateInput form))) ++ js "..." |}.

(** [element.value = v || fallback], also [element.textContent = ...]: the
    value is turned into a string. *)
Definition valueOr (num : spec_float -> list N) (v : option JsValue)
    (fallback : list N) : list N :=
  ToString num (js_or v (Some (VStr fallback))).

(** [(v || '未设置').substring(0, 20) + '...'] *)
Definition shortPreview (v : option JsValue) : Completion (list N) :=
  match js_or v (Some (VStr unsetText)) with
  | Some (VStr s) => Normal (firstn 20 s ++ js "...")
  | _ => Throw TypeError
  end.

(** [loadCurrentSettings], given the configuration that [getStoredConfig]
    returned: the form, the previews, and whether the handler of the [try]
    showed 加载设置失败. The assignments made before a throw stay. The copy
    of the settings page also starts [loadCacheStatus], which writes to the
    two lines of the cache only. *)
Definition loadCurrentSettings (num : spec_float -> list N)
    (config : gmap string JsValue) (pv : Previews)
  : Form * Previews * bool :=
  let form :=
    {| serverUrlInput := valueOr num (config !! "serverUrl"%string) [];
       apiUrlInput := valueOr num (config !! "apiUrl"%string) [];
       apiKeyInput := valueOr num (config !! "apiKey"%string) [];
       modelNameInput := valueOr num (config !! "modelName"%string) [];
       systemPromptInput := valueOr num (config !! "systemPrompt"%string) [];
       userPromptTemplateInput :=
         valueOr num (config !! "userPromptTemplate"%string) [] |} in
  let shown (sp up : list N) :=
    {| currentServerUrl :=
         valueOr num (config !! "serverUrl"%string) unsetText;
       currentApiUrl := valueOr num (config !! "apiUrl"%string) unsetText;
       currentModel := valueOr num (config !! "modelName"%string) unsetText;
       currentApiKey :=
         if truthy (config !! "apiKey"%string) then isSetText else unsetText;
       currentSystemPrompt := sp;
       currentUserPromptTemplate := up |} in
  match shortPreview (config !! "systemPrompt"%string) with
  | Throw _ =>
      (form, shown (currentSystemPrompt pv) (currentUserPromptTemplate pv),
       true)
  | Normal sp =>
      match shortPreview (config !! "userPromptTemplate"%string) with
      | Throw _ => (form, shown sp (currentUserPromptTemplate pv), true)
      | Normal up => (form, shown sp up, false)
      end
  end.

(** [input.value = v]: [null] gives the empty string. *)
Definition inputValue (num : spec_float -> list N) (v : option JsValue)
  : list N :=
  match v with
  | Some VNull => []
  | _ => ToString num v
  end.

(** What [resetSettings] works on: the form, the previews, the value kept
    by [chrome.storage.sync] under [translatorConfig], the arguments of the
    [set] calls, whether the last status shown is the success 设置已重置为默认值
    ([Some true]) or the error 重置设置失败 ([Some false]), and the number of
    [notifyConfigUpdate] calls. *)
Record SettingsPage := {
  inputs : Form;
  previews : Previews;
  store : option (gmap string JsValue);
  writes : list (gmap string JsValue);
  resetStatus : option bool;
  broadcasts : nat
}.

(** [resetSettings] for the [DEFAULT_CONFIG] of the script: the inputs are
    overwritten before the write is awaited. The copy of the settings page
    also starts [loadCacheStatus] after a write that resolved. *)
Definition resetSettings (DEFAULT_CONFIG : gmap string JsValue)
    (num : spec_float -> list N) (now : spec_float) (set_resolves : bool)
    (pg : SettingsPage) : SettingsPage :=
  let form :=
    {| serverUrlInput := inputValue num (DEFAULT_CONFIG !! "serverUrl"%string);
       apiUrlInput := inputValue num (DEFAULT_CONFIG !! "apiUrl"%string);
       apiKeyInput := inputValue num (DEFAULT_CONFIG !! "apiKey"%string);
       modelNameInput := inputValue num (DEFAULT_CONFIG !! "modelName"%string);
       systemPromptInput :=
         inputValue num (DEFAULT_CONFIG !! "systemPrompt"%string);
       userPromptTemplateInput :=
         inputValue num (DEFAULT_CONFIG !! "userPromptTemplate"%string) |} in
  let written := defaultsOnly DEFAULT_CONFIG now in
  if set_resolves then
    {| inputs := form;
       previews :=
         updatePromptPreview form
           (updateApiPreview form (updatePreview form (previews pg)));
       store := Some written;
       writes := writes pg ++ [written];
       resetStatus := Some true;
       broadcasts := S (broadcasts pg) |}
  else
    {| inputs := form;
       previews := previews pg;
       store := store pg;
       writes := writes pg ++ [written];
       resetStatus := Some false;
       broadcasts := broadcasts pg |}.

(** ** Installation (chrome_ext/background.js) *)

(** The storage area, the [set] calls made, and the tabs opened. *)
Record Installation := {
  stored : option (gmap string JsValue);
  store_writes : list (gmap string JsValue);
  tabs_created : nat
}.

(** The listener of [chrome.runtime.onInstalled]; [get_resolves] and
    [set_resolves] tell whether the promises of the storage area resolve. *)
Definition onInstalled (reason : list N) (get_resolves set_resolves : bool)
    (now : spec_float) (st : Installation) : Installation :=
  if get_resolves then
    match stored st with
    | None =>
        let defaultConfig :=
          <["firstInstall"%string := VBool true]>
            (<["lastUpdated"%string := VNum now]> Background.DEFAULT_CONFIG) in
        if set_resolves then
          {| stored := Some defaultConfig;
             store_writes := store_writes st ++ [defaultConfig];
             tabs_created :=
               if bool_decide (reason = js "install")
               then S (tabs_created st) else tabs_created st |}
        else
          {| stored := stored st;
             store_writes := store_writes st ++ [defaultConfig];
             tabs_created := tabs_created st |}
    | Some _ => st
    end
  else st.

(** *** Statements about the settings *)

(** The form with every input trimmed. *)
Definition trimmedForm (form : Form) : Form :=
  {| serverUrlInput := trim (serverUrlInput form);
     apiUrlInput := trim (apiUrlInput form);
     apiKeyInput := trim (apiKeyInput form);
     modelNameInput := trim (modelNameInput form);
     systemPromptInput := trim (systemPromptInput form);
     userPromptTemplateInput := trim (userPromptTemplateInput form) |}.

(** The object [saveSettings] passes to [chrome.storage.sync.set]. *)
Definition savedConfig (form : Form) (now : spec_float)
  : gmap string JsValue :=
  <["serverUrl"%string := VStr (trim (serverUrlInput form))]>
  (<["apiUrl"%string := VStr (trim (apiUrlInput form))]>
  (<["apiKey"%string := VStr (trim (apiKeyInput form))]>
  (<["modelName"%string := VStr (trim (modelNameInput form))]>
  (<["systemPrompt"%string := VStr (trim (systemPromptInput form))]>
  (<["userPromptTemplate"%string := VStr (trim (userPromptTemplateInput form))]>
  (<["lastUpdated"%string := VNum now]> ∅)))))).

(** The previews that the three update functions show for a form. *)
Definition previewsOf (form : Form) (pv : Previews) : Previews :=
  updatePromptPreview form (updateApiPreview form (updatePreview form pv)).

Definition noPreviews : Previews :=
  {| currentServerUrl := []; currentApiUrl := []; currentModel := [];
     currentApiKey := []; currentSystemPrompt := [];
     currentUserPromptTemplate := [] |}.

Definition freshSettingsPage : SettingsPage :=
  {| inputs := emptyForm; previews := noPreviews; store := None; writes := [];
     resetStatus := None; broadcasts := 0 |}.

Definition freshInstallation : Installation :=
  {| stored := None; store_writes := []; tabs_created := 0 |}.

(** The defaults of the popup script, as a form. *)
Definition popupDefaultsForm : Form :=
  {| serverUrlInput := js "http://127.0.0.1:5000";
     apiUrlInput := [];
     apiKeyInput := [];
     modelNameInput := [];
     systemPromptInput := systemPrompt_short;
     userPromptTemplateInput := userPromptTemplate_default |}.

(** The defaults of the settings page, as a form. *)
Definition settingsDefaultsForm : Form :=
  {| serverUrlInput := js "http://127.0.0.1:5000";
     apiUrlInput := js "http://localhost:8080/v1/chat/completions";
     apiKeyInput := [];
     modelNameInput := [];
     systemPromptInput := systemPrompt_short;
     userPromptTemplateInput := userPromptTemplate_default |}.

(** ** Statements about the annotator *)

(** The code unit [$] occurs in [s]. *)
Definition hasDollar (s : list N) : bool := existsb (N.eqb 36) s.

(** No code unit of [word] is a syntax character of the pattern language. *)
Definition plainWord (word : list N) : bool :=
  forallb (fun c => negb (isSyntaxCharacter c)) word.

(** A document whose paragraph has no [innerHTML]: only the text node
    [[0; 0]] can be written. *)
Definition textOnlyDom : TableDom :=
  {| markup := ∅; chars := {[ [0; 0]%nat := sampleText ]} |}.

Definition textOnlyWorld : World TableDom :=
  {| dom := textOnlyDom; translatorConfig := None; trace := [] |}.

(** A response with the JSON body [{target_word, translation}]. *)
Definition wordResponse (target_word translation : list N) : FetchOutcome :=
  FetchResponse {| ok := true; status_code := 200;
                   json := Some (JObject (Some target_word)
                                   (Some translation)) |}.

(** The text f(x)中文 in the paragraph [[0]]. *)
Definition parenText : list N := js "f(x)" ++ [20013; 25991].

Definition parenTextData : TextCandidate :=
  {| node := [0; 0]%nat; text := parenText; parent := [0%nat] |}.

Definition parenWorld : World TableDom :=
  {| dom := {| markup := {[ [0%nat] := parenText ]};
               chars := {[ [0; 0]%nat := parenText ]} |};
     translatorConfig := None; trace := [] |}.

(** ** The content script from page load to the requests
    (chrome_ext/content.js) *)

(** What the script keeps between its entry points besides
    [translatorConfig]: the flag [hasExecuted], and how many
    [setTimeout(extractAndTranslateChinese, 1000)] were set. *)
Record Script := {
  hasExecuted : bool;
  scheduled_passes : nat
}.

(** What calls [executeMain]: the listeners of [DOMContentLoaded] and of
    [load], the timer of a page that is already complete, and the timer of
    three seconds, which looks at [hasExecuted] itself. *)
Inductive Trigger :=
| DomContentLoaded
| WindowLoad
| AlreadyComplete
| BackupTimer.

Section PagePass.

Context {Dom : Type} `{DomApi Dom}.
Variable env : Env.
Variable sort_random : list TextCandidate -> list TextCandidate.
Variable StringToNumber : list N -> spec_float.

(** [extractAndTranslateChinese], the scan being made on the tree [pg] of
    the page. The lines it writes to the console and the listeners that
    [setupExistingWordHoverEvents] adds are no part of the state. *)
Definition extractAndTranslateChinese (pg : Page) : M Dom unit :=
  let chineseTexts := extractChineseTexts pg in
  if (length chineseTexts =? 0)%nat then ret tt
  else
    bind read (fun w =>
      let selectionPercentage :=
        selectionFraction StringToNumber (translatorConfig w) in
      let selectedTexts :=
        randomSelectTexts sort_random chineseTexts selectionPercentage in
      translateSelectedTexts env selectedTexts).

(** [executeMain]: [traverseAllNodes] only writes to the console. *)
Definition executeMain (s : Script) : M Dom Script :=
  if hasExecuted s then ret s
  else
    bind (loadTranslatorConfig env) (fun _ =>
      ret {| hasExecuted := true;
             scheduled_passes := S (scheduled_passes s) |}).

(** What a trigger set up by [waitForPageLoad] does when it fires. *)
Definition fire (t : Trigger) (s : Script) : M Dom Script :=
  match t with
  | BackupTimer => if negb (hasExecuted s) then executeMain s else ret s
  | DomContentLoaded | WindowLoad | AlreadyComplete => executeMain s
  end.

Fixpoint fireAll (ts : list Trigger) (s : Script) : M Dom Script :=
  match ts with
  | [] => ret s
  | t :: rest => bind (fire t s) (fireAll rest)
  end.

(** The listener of [chrome.runtime.onMessage] of the content script. *)
Definition onMessage (action : list N) : M Dom unit :=
  if bool_decide (action = js "configUpdated") then loadTranslatorConfig env
  else ret tt.

End PagePass.

Definition freshScript : Script :=
  {| hasExecuted := false; scheduled_passes := 0 |}.

(** The request [callTranslateAPI] sends for [sentence_] when the settings
    of [form] are in effect. *)
Definition requestOfForm (form : Form) (sentence_ : list N) : Request :=
  {| url := trim (serverUrlInput form) ++ js "/translate";
     method := js "POST";
     sentence := sentence_;
     api_url := Some (VStr (trim (apiUrlInput form)));
     api_key := Some (VStr (trim (apiKeyInput form)));
     model_name := Some (VStr (trim (modelNameInput form)));
     system_prompt := Some (VStr (trim (systemPromptInput form)));
     user_prompt_template :=
       Some (VStr (trim (userPromptTemplateInput form))) |}.

(** ** Familiar words (chrome_ext/content.js) *)

(** [element.textContent]: the data of the text nodes below the element, in
    tree order. *)
Fixpoint descendantText (n : Node) : list N :=
  match n with
  | TextNode data => data
  | CommentNode _ => []
  | ElementNode _ cs | DocumentNode cs =>
      (fix each (cs : list Node) {struct cs} :=
         match cs with
         | [] => []
         | c :: cs' => descendantText c ++ each cs'
         end) cs
  end.

(** The node with its children replaced; a node without children is left
    as it is. *)
Definition withChildren (n : Node) (f : list Node -> list Node) : Node :=
  match n with
  | ElementNode tag cs => ElementNode tag (f cs)
  | DocumentNode cs => DocumentNode (f cs)
  | TextNode _ | CommentNode _ => n
  end.

(** [nextSibling.nodeType === Node.ELEMENT_NODE &&
     nextSibling.textContent.includes('【') &&
     nextSibling.textContent.includes('】')] *)
Definition isBadge (n : Node) : bool :=
  match n with
  | ElementNode _ _ =>
      includes (descendantText n) [12304] && includes (descendantText n) [12305]
  | _ => false
  end.

(** The body of [removeWordAnnotation] on the children of the parent, the
    word element being the child [i]: the next sibling is removed when it is
    a badge, then the element is replaced by a text node with its text. *)
Definition unwrapAt (i : nat) (cs : list Node) : list Node :=
  match nth_error cs i with
  | Some (ElementNode tag inner) =>
      let originalText := descendantText (ElementNode tag inner) in
      let following := skipn (S i) cs in
      let kept :=
        match following with
        | nextSibling :: after =>
            if isBadge nextSibling then after else following
        | [] => following
        end in
      firstn i cs ++ TextNode originalText :: kept
  | _ => cs
  end.

(** The tree after the body of [removeWordAnnotation] ran for the element
    at [path]. *)
Fixpoint unwrapElement (root : Node) (path : list nat) : Node :=
  match path with
  | [] => root
  | i :: rest =>
      match rest with
      | [] => withChildren root (unwrapAt i)
      | _ :: _ =>
          withChildren root (fun cs =>
            match nth_error cs i with
            | Some c => firstn i cs ++ unwrapElement c rest :: skipn (S i) cs
            | None => cs
            end)
      end
  end.

(** [removeWordAnnotation(elementId)]; [wordElement] is what
    [document.getElementById(elementId)] returns: [None] for [null],
    otherwise the path of an element below the document. *)
Definition removeWordAnnotation (root : Node)
    (wordElement : option (list nat)) : Node :=
  match wordElement with
  | Some path => unwrapElement root path
  | None => root
  end.

(** The page as the familiar-word functions change it: the tree of the
    document without the overlays of the script, the notifications shown
    (the text and [isError]; [showSuccessNotification] appends them to the
    body and removes them after 3.3 s), and whether the tooltip is there. *)
Record FamiliarPage := {
  page_tree : Node;
  notices : list (list N * bool);
  tooltip_shown : bool
}.

(** [单词"${word}"已添加到熟悉列表，今后不再显示翻译] *)
Definition familiarNotice (word : list N) : list N :=
  [21333; 35789; 34] ++ word
  ++ [34; 24050; 28155; 21152; 21040; 29087; 24713; 21015; 34920; 65292;
      20170; 21518; 19981; 20877; 26174; 31034; 32763; 35793].

(** [标记失败，请稍后重试] *)
Definition failedNotice : list N :=
  [26631; 35760; 22833; 36133; 65292; 35831; 31245; 21518; 37325; 35797].

(** [markWordAsFamiliar(word, elementId)] from its request on, for the
    outcome of the request to [/familiar-words]. *)
Definition markWordAsFamiliar (outcome : FetchOutcome) (word : list N)
    (wordElement : option (list nat)) (pg : FamiliarPage)
  : FamiliarPage * Completion unit :=
  match outcome with
  | FetchRejected => (pg, Throw FetchFailed)
  | FetchResponse response =>
      if negb (ok response) then
        (pg, Throw (HttpError (status_code response)))
      else
        match json response with
        | None => (pg, Throw JsonParseError)
        | Some _ =>
            ({| page_tree := removeWordAnnotation (page_tree pg) wordElement;
                notices := notices pg ++ [(familiarNotice word, false)];
                tooltip_shown := tooltip_shown pg |}, Normal tt)
        end
  end.

(** [markWordAsFamiliarFromTooltip(word, wordElement)] *)
Definition markWordAsFamiliarFromTooltip (outcome : FetchOutcome)
    (word : list N) (wordElement : option (list nat)) (pg : FamiliarPage)
  : FamiliarPage * Completion unit :=
  match markWordAsFamiliar outcome word wordElement pg with
  | (pg', Normal _) =>
      ({| page_tree := page_tree pg'; notices := notices pg';
          tooltip_shown := false |}, Normal tt)
  | (pg', Throw _) =>
      ({| page_tree := page_tree pg';
          notices := notices pg' ++ [(failedNotice, true)];
          tooltip_shown := tooltip_shown pg' |}, Normal tt)
  end.

(** The next sibling of the child [i] is a badge. *)
Definition hasBadgeAfter (cs : list Node) (i : nat) : bool :=
  match nth_error cs (S i) with
  | Some nextSibling => isBadge nextSibling
  | None => false
  end.

(** The text of the badge that follows the child [i]; empty when the next
    sibling is no badge. *)
Definition badgeTextAfter (cs : list Node) (i : nat) : list N :=
  match nth_error cs (S i) with
  | Some nextSibling =>
      if isBadge nextSibling then descendantText nextSibling else []
  | None => []
  end.

(** The children of the parent as the property describes them after the
    removal: those before the word element, a text node with the text of the
    element, and those after it, without the next sibling when that is a
    badge. *)
Definition unwrappedChildren (cs : list Node) (i : nat) (wordText : list N)
  : list Node :=
  firstn i cs ++ TextNode wordText
  :: skipn (if hasBadgeAfter cs i then S (S i) else S i) cs.

(** A paragraph after the annotation of 中文 in 学中文好: the span of the
    word, the badge, and the text around them. *)
Definition annotatedParagraph : Node :=
  DocumentNode
    [ ElementNode (js "P")
        [ TextNode [23398];
          ElementNode (js "SPAN") [TextNode [20013; 25991]];
          ElementNode (js "SPAN") [TextNode (12304 :: js "Chinese" ++ [12305])];
          TextNode [22909] ] ].

Definition annotatedPage : FamiliarPage :=
  {| page_tree := annotatedParagraph; notices := []; tooltip_shown := true |}.

(** ** Testing the service (chrome_ext/popup.js, [testConnection]) *)

(** The texts [showStatus] is called with by [testConnection]. *)
Inductive TestStatus :=
| TsServerUrlMissing   (* 请先输入后端服务地址 *)
| TsServerUrlInvalid   (* 请输入有效的URL地址 *)
| TsTesting            (* 正在测试翻译服务... *)
| TsSuccess (target_word translation : list N)  (* 翻译测试成功！ *)
| TsAbnormal (message : list N)  (* 服务连接成功，但翻译结果异常 *)
| TsNoResult           (* 服务连接成功，但未返回有效的翻译结果 *)
| TsHttpFailed (status : N) (errorText : list N) (* 翻译服务调用失败 *)
| TsTimeout            (* 翻译服务请求超时 *)
| TsFailed (message : list N).  (* 翻译服务测试失败 *)

(** [requestBody.api_config] *)
Record ApiConfig := {
  ac_api_url : list N;
  ac_api_key : list N;
  ac_model_name : list N;
  ac_system_prompt : list N;
  ac_user_prompt_template : list N
}.

(** The request of the test: [testUrl] and the body. *)
Record TestRequest := {
  test_url : list N;
  test_sentence : list N;
  test_api_config : option ApiConfig
}.

(** What [response.json()] gives the test: a value without the properties
    looked at (with its truth value), or an object whose properties
    [target_word], [translation] and [message] are strings or absent. *)
Inductive TestBody :=
| TbOther (truth : bool)
| TbObject (target_word translation message : option (list N)).

(** Reading the body of a response: the promise rejects with an error that
    has a message, or gives a value. *)
Inductive BodyRead (A : Type) :=
| ReadFails (message : list N)
| ReadGives (a : A).

Arguments ReadFails {A} message.
Arguments ReadGives {A} a.

(** How the request of the test ends: aborted by the timer of ten seconds,
    rejected with another error, or answered. *)
Inductive TestOutcome :=
| TestAborted
| TestRejected (message : list N)
| TestAnswered (ok : bool) (status : N) (json : BodyRead TestBody)
    (text : BodyRead (list N)).

(** The status texts shown so far (the last one is the one on display),
    [testBtn.disabled], and the requests made. *)
Record TestPage := {
  statuses : list TestStatus;
  testBtn_disabled : bool;
  test_requests : list TestRequest
}.

(** [这是一个测试句子，用来验证翻译服务是否正常工作。] *)
Definition testSentence : list N :=
  [36825; 26159; 19968; 20010; 27979; 35797; 21477; 23376; 65292; 29992;
   26469; 39564; 35777; 32763; 35793; 26381; 21153; 26159; 21542; 27491;
   24120; 24037; 20316; 12290].

(** [a || b] on strings *)
Definition orString (a b : list N) : list N := if isEmpty a then b else a.

(** The body of the request that [testConnection] builds from the form. *)
Definition testRequestOf (form : Form) : TestRequest :=
  let serverUrl := trim (serverUrlInput form) in
  let apiUrl := trim (apiUrlInput form) in
  let apiKey := trim (apiKeyInput form) in
  let modelName := trim (modelNameInput form) in
  let systemPrompt := trim (systemPromptInput form) in
  let userPromptTemplate := trim (userPromptTemplateInput form) in
  {| test_url := serverUrl ++ js "/translate";
     test_sentence := testSentence;
     test_api_config :=
       if negb (isEmpty apiUrl) || negb (isEmpty apiKey)
          || negb (isEmpty modelName) || negb (isEmpty systemPrompt)
          || negb (isEmpty userPromptTemplate)
       then Some {| ac_api_url := apiUrl;
                    ac_api_key := apiKey;
                    ac_model_name := modelName;
                    ac_system_prompt := orString systemPrompt systemPrompt_short;
                    ac_user_prompt_template :=
                      orString userPromptTemplate userPromptTemplate_default |}
       else None |}.

(** The status that the [try] block or its handler shows for an outcome. *)
Definition testResultStatus (outcome : TestOutcome) : TestStatus :=
  match outcome with
  | TestAborted => TsTimeout
  | TestRejected message => TsFailed message
  | TestAnswered true _ (ReadFails message) _ => TsFailed message
  | TestAnswered true _ (ReadGives result) _ =>
      match result with
      | TbObject (Some (c :: w)) (Some (d :: t)) _ => TsSuccess (c :: w) (d :: t)
      | TbObject _ _ (Some (c :: m)) => TsAbnormal (c :: m)
      | _ => TsNoResult
      end
  | TestAnswered false _ _ (ReadFails message) => TsFailed message
  | TestAnswered false status _ (ReadGives errorText) =>
      TsHttpFailed status errorText
  end.

Section TestConnection.

Variable URL_parse : list N -> option URL.

(** [testConnection], when the request has ended as [outcome] says. *)
Definition testConnection (form : Form) (outcome : TestOutcome)
    (pg : TestPage) : TestPage :=
  let serverUrl := trim (serverUrlInput form) in
  if isEmpty serverUrl then
    {| statuses := statuses pg ++ [TsServerUrlMissing];
       testBtn_disabled := testBtn_disabled pg;
       test_requests := test_requests pg |}
  else if negb (isValidUrl URL_parse serverUrl) then
    {| statuses := statuses pg ++ [TsServerUrlInvalid];
       testBtn_disabled := testBtn_disabled pg;
       test_requests := test_requests pg |}
  else
    {| statuses := statuses pg ++ [TsTesting; testResultStatus outcome];
       testBtn_disabled := false;
       test_requests := test_requests pg ++ [testRequestOf form] |}.

End TestConnection.

(** The [api_config] of a test request holds what the request [r] of the
    content script carries. *)
Definition sameApiConfig (ac : ApiConfig) (r : Request) : Prop :=
  api_url r = Some (VStr (ac_api_url ac))
  ∧ api_key r = Some (VStr (ac_api_key ac))
  ∧ model_name r = Some (VStr (ac_model_name ac))
  ∧ system_prompt r = Some (VStr (ac_system_prompt ac))
  ∧ user_prompt_template r = Some (VStr (ac_user_prompt_template ac)).

Definition freshTestPage : TestPage :=
  {| statuses := []; testBtn_disabled := false; test_requests := [] |}.

(** ** The tooltip of an annotated word (chrome_ext/content.js) *)

(** The callbacks given to [setTimeout]: the one of [mouseenter] on a word
    (200 ms), the one of [mouseleave] on a word (100 ms), and
    [hideWordTooltip] itself, set by [mouseleave] on the tooltip (100 ms). *)
Inductive TimerTask :=
| ShowTooltip (word translation : list N)
| HideUnlessHovered
| HideTooltip.

(** The elements with the id [translens-word-tooltip] in the document, in
    document order, each with its word and translation; the number of style
    elements for the arrow; the timers that are pending, by their ids; the
    two handles of [currentTooltipTimeouts]; and the id the next timer
    gets. *)
Record Tooltips := {
  shown : list (list N * list N);
  arrow_styles : nat;
  pending : list (nat * TimerTask);
  show_handle : option nat;
  hide_handle : option nat;
  next_timer : nat
}.

Inductive HoverEvent :=
| WordEnter (word translation : list N)  (* mouseenter on a word *)
| WordLeave                              (* mouseleave on a word *)
| TooltipEnter                           (* mouseenter on the tooltip *)
| TooltipLeave                           (* mouseleave on the tooltip *)
| TimerFires (id : nat) (hovered : bool).
  (* the timer [id] is due; [hovered] is [tooltip.matches(':hover')] *)

(** [clearTimeout(handle)]: [null] and the ids of timers that are gone are
    ignored. *)
Definition clearTimeout (handle : option nat) (st : Tooltips) : Tooltips :=
  match handle with
  | Some id =>
      {| shown := shown st; arrow_styles := arrow_styles st;
         pending := List.filter (fun t => negb (fst t =? id)%nat) (pending st);
         show_handle := show_handle st; hide_handle := hide_handle st;
         next_timer := next_timer st |}
  | None => st
  end.

(** [setTimeout(task, ms)]: the state with the timer added, and its id. *)
Definition setTimeout (task : TimerTask) (st : Tooltips) : Tooltips * nat :=
  ({| shown := shown st; arrow_styles := arrow_styles st;
      pending := pending st ++ [(next_timer st, task)];
      show_handle := show_handle st; hide_handle := hide_handle st;
      next_timer := S (next_timer st) |}, next_timer st).

Definition set_show_handle (id : nat) (st : Tooltips) : Tooltips :=
  {| shown := shown st; arrow_styles := arrow_styles st;
     pending := pending st; show_handle := Some id;
     hide_handle := hide_handle st; next_timer := next_timer st |}.

Definition set_hide_handle (id : nat) (st : Tooltips) : Tooltips :=
  {| shown := shown st; arrow_styles := arrow_styles st;
     pending := pending st; show_handle := show_handle st;
     hide_handle := Some id; next_timer := next_timer st |}.

(** [hideWordTooltip]: [getElementById] finds the first element with the
    id, every style element for the arrow is removed, and both handles are
    cleared. *)
Definition hideWordTooltip (st : Tooltips) : Tooltips :=
  let removed :=
    {| shown := tl (shown st); arrow_styles := 0;
       pending := pending st; show_handle := show_handle st;
       hide_handle := hide_handle st; next_timer := next_timer st |} in
  clearTimeout (hide_handle removed)
    (clearTimeout (show_handle removed) removed).

(** [showWordTooltip]: what it does to the document. *)
Definition showWordTooltip (word translation : list N) (st : Tooltips)
  : Tooltips :=
  let st1 := hideWordTooltip st in
  {| shown := shown st1 ++ [(word, translation)];
     arrow_styles := S (arrow_styles st1);
     pending := pending st1; show_handle := show_handle st1;
     hide_handle := hide_handle st1; next_timer := next_timer st1 |}.

Definition runTask (task : TimerTask) (hovered : bool) (st : Tooltips)
  : Tooltips :=
  match task with
  | ShowTooltip word translation => showWordTooltip word translation st
  | HideUnlessHovered =>
      match shown st with
      | _ :: _ => if negb hovered then hideWordTooltip st else st
      | [] => st
      end
  | HideTooltip => hideWordTooltip st
  end.

Definition taskOf (id : nat) (st : Tooltips) : option TimerTask :=
  match List.filter (fun t => (fst t =? id)%nat) (pending st) with
  | t :: _ => Some (snd t)
  | [] => None
  end.

(** One event of the listeners and timers. The listeners of the tooltip
    exist while a tooltip is in the document. *)
Definition hoverStep (st : Tooltips) (ev : HoverEvent) : Tooltips :=
  match ev with
  | WordEnter word translation =>
      let st1 := clearTimeout (hide_handle st) st in
      match shown st1 with
      | _ :: _ => st1
      | [] =>
          let (st2, id) := setTimeout (ShowTooltip word translation) st1 in
          set_show_handle id st2
      end
  | WordLeave =>
      let st1 := clearTimeout (show_handle st) st in
      let (st2, id) := setTimeout HideUnlessHovered st1 in
      set_hide_handle id st2
  | TooltipEnter =>
      match shown st with
      | _ :: _ => clearTimeout (hide_handle st) st
      | [] => st
      end
  | TooltipLeave =>
      match shown st with
      | _ :: _ =>
          let (st1, id) := setTimeout HideTooltip st in
          set_hide_handle id st1
      | [] => st
      end
  | TimerFires id hovered =>
      match taskOf id st with
      | Some task => runTask task hovered (clearTimeout (Some id) st)
      | None => st
      end
  end.

Definition hoverRun (st : Tooltips) (evs : list HoverEvent) : Tooltips :=
  fold_left hoverStep evs st.

Definition noTooltips : Tooltips :=
  {| shown := []; arrow_styles := 0; pending := []; show_handle := None;
     hide_handle := None; next_timer := 0 |}.

(** No timer that is pending would show a tooltip. *)
Definition noShowPending (st : Tooltips) : Prop :=
  Forall (fun t => match snd t with ShowTooltip _ _ => False | _ => True end)
    (pending st).

Definition isTimerFires (ev : HoverEvent) : Prop :=
  match ev with TimerFires _ _ => True | _ => False end.

(** At most one tooltip, with as many arrow styles as tooltips. *)
Definition tooltipInvariant (st : Tooltips) : Prop :=
  (length (shown st) <= 1)%nat /\ arrow_styles st = length (shown st).

(** What the storage area holds under [selectionPercentage] when the
    content script can read it. *)
Definition storedShare (env : Env) : option JsValue :=
  if chrome_storage env then
    match storage_get env with
    | GetResolved (Some config) => config !! "selectionPercentage"%string
    | _ => None
    end
  else None.

(** ** The configuration merge *)

Section MergeFacts.

Variables (D config : gmap string JsValue) (now : spec_float).

Lemma mergeConfig_lookup_other (k : string) :
  k ≠ "lastUpdated"%string →
  mergeConfig D config now !! k = spread2 D config !! k.
Proof.
  intros Hk. unfold mergeConfig.
  destruct (js_or _ _); [rewrite lookup_insert_ne | rewrite lookup_delete_ne];
    congruence.
Qed.

Lemma spread2_lookup_absent (k : string) :
  config !! k = None → spread2 D config !! k = D !! k.
Proof. intros Hk. unfold spread2. by rewrite lookup_union_r. Qed.

Lemma spread2_lookup_present (k : string) (v : JsValue) :
  config !! k = Some v → spread2 D config !! k = Some v.
Proof. intros Hk. unfold spread2. by apply lookup_union_Some_l. Qed.

Lemma mergeConfig_lastUpdated :
  mergeConfig D config now !! "lastUpdated"%string =
    if truthy (config !! "lastUpdated"%string)
    then config !! "lastUpdated"%string
    else Some (VNum now).
Proof.
  unfold mergeConfig, js_or.
  destruct (truthy (config !! "lastUpdated"%string)) eqn:Ht.
  - destruct (config !! "lastUpdated"%string) eqn:Hl; [|done].
    by rewrite lookup_insert_eq.
  - by rewrite lookup_insert_eq.
Qed.

(** A key with a default that the stored object lacks reads as the
    default. *)
Lemma mergeConfig_absent (k : string) (v : JsValue) :
  D !! "lastUpdated"%string = None →
  D !! k = Some v → config !! k = None →
  mergeConfig D config now !! k = Some v.
Proof.
  intros HD Hk Hc.
  assert (k ≠ "lastUpdated"%string) by congruence.
  by rewrite mergeConfig_lookup_other, spread2_lookup_absent.
Qed.

Lemma mergeConfig_present (k : string) (v : JsValue) :
  k ≠ "lastUpdated"%string → config !! k = Some v →
  mergeConfig D config now !! k = Some v.
Proof.
  intros Hk Hc. rewrite mergeConfig_lookup_other by done.
  by apply spread2_lookup_present.
Qed.

Lemma mergeConfig_populated (k : string) :
  is_Some (D !! k) → is_Some (mergeConfig D config now !! k).
Proof.
  intros [v Hv]. destruct (decide (k = "lastUpdated"%string)) as [->|Hk].
  - rewrite mergeConfig_lastUpdated.
    destruct (truthy _) eqn:Ht; [|by eexists].
    destruct (config !! "lastUpdated"%string); [by eexists | done].
  - rewrite mergeConfig_lookup_other by done. unfold spread2.
    destruct (config !! k) eqn:Hc.
    + exists j. by apply lookup_union_Some_l.
    + exists v. by rewrite lookup_union_r.
Qed.

Lemma defaultsOnly_lookup (k : string) (v : JsValue) :
  D !! "lastUpdated"%string = None →
  D !! k = Some v → defaultsOnly D now !! k = Some v.
Proof.
  intros HD Hk. unfold defaultsOnly.
  rewrite lookup_insert_ne; [done | congruence].
Qed.

Lemma defaultsOnly_populated (k : string) :
  is_Some (D !! k) → is_Some (defaultsOnly D now !! k).
Proof.
  intros [v Hv]. unfold defaultsOnly.
  destruct (decide ("lastUpdated"%string = k)) as [<-|Hk].
  - rewrite lookup_insert_eq. by eexists.
  - rewrite lookup_insert_ne by done. by eexists.
Qed.

End MergeFacts.

Lemma Content_no_default_lastUpdated :
  Content.DEFAULT_CONFIG !! "lastUpdated"%string = None.
Proof. reflexivity. Qed.

Lemma Popup_no_default_lastUpdated :
  Popup.DEFAULT_CONFIG !! "lastUpdated"%string = None.
Proof. reflexivity. Qed.

Lemma Settings_no_default_lastUpdated :
  Settings.DEFAULT_CONFIG !! "lastUpdated"%string = None.
Proof. reflexivity. Qed.

(** C4. Whatever the storage area holds (nothing, the empty object, an
    object that lacks any set of keys), [loadTranslatorConfig] and
    [getStoredConfig] return a configuration in which every field that has a
    default and is absent from the stored object has its default value, and
    in which every field that has a default is present. *)
Theorem config_merge_missing_fields_default
    (get : StorageGet) (chrome_storage : bool) (now : spec_float)
    (k : string) (v : JsValue) :
  absent_from_stored get k →
  (Content.DEFAULT_CONFIG !! k = Some v →
     Content.loadTranslatorConfig chrome_storage get now !! k = Some v)
  ∧ (Popup.DEFAULT_CONFIG !! k = Some v →
       Popup.getStoredConfig get now !! k = Some v)
  ∧ (Settings.DEFAULT_CONFIG !! k = Some v →
       Settings.getStoredConfig get now !! k = Some v)
  ∧ (∀ f, is_Some (Content.DEFAULT_CONFIG !! f) →
       is_Some (Content.loadTranslatorConfig chrome_storage get now !! f))
  ∧ (∀ f, is_Some (Popup.DEFAULT_CONFIG !! f) →
       is_Some (Popup.getStoredConfig get now !! f))
  ∧ (∀ f, is_Some (Settings.DEFAULT_CONFIG !! f) →
       is_Some (Settings.getStoredConfig get now !! f)).
Proof.
  intros Habs.
  unfold Content.loadTranslatorConfig, Popup.getStoredConfig,
    Settings.getStoredConfig.
  repeat split.
  - intros Hd. destruct chrome_storage, get as [|[config|]]; simpl in *;
      first [ by apply defaultsOnly_lookup
            | by apply mergeConfig_absent ].
  - intros Hd. destruct get as [|[config|]]; simpl in *;
      first [ by apply defaultsOnly_lookup
            | by apply mergeConfig_absent ].
  - intros Hd. destruct get as [|[config|]]; simpl in *;
      first [ by apply defaultsOnly_lookup
            | by apply mergeConfig_absent ].
  - intros f Hf. destruct chrome_storage, get as [|[config|]]; simpl;
      first [ by apply defaultsOnly_populated
            | by apply mergeConfig_populated ].
  - intros f Hf. destruct get as [|[config|]]; simpl;
      first [ by apply defaultsOnly_populated
            | by apply mergeConfig_populated ].
  - intros f Hf. destruct get as [|[config|]]; simpl;
      first [ by apply defaultsOnly_populated
            | by apply mergeConfig_populated ].
Qed.

(** The merge at the empty stored object: the server address is the
    default one. *)
Lemma config_merge_missing_fields_default_witness :
  absent_from_stored (GetResolved (Some ∅)) "serverUrl"%string
  ∧ Content.loadTranslatorConfig true (GetResolved (Some ∅)) (Number.of_Z 0)
      !! "serverUrl"%string
    = Some (VStr (js "http://127.0.0.1:5000")).
Proof.
  split.
  - reflexivity.
  - apply (config_merge_missing_fields_default (GetResolved (Some ∅)) true
             (Number.of_Z 0) "serverUrl"%string
             (VStr (js "http://127.0.0.1:5000"))).
    + reflexivity.
    + reflexivity.
Defined.

(** C10. A key present in the stored object keeps its stored value, whatever
    that value is; [lastUpdated] keeps its stored value only when that value
    is truthy and is the current time otherwise. *)
Theorem config_merge_prefers_stored
    (config : gmap string JsValue) (now : spec_float) (k : string)
    (v : JsValue) :
  k ≠ "lastUpdated"%string →
  config !! k = Some v →
  Content.loadTranslatorConfig true (GetResolved (Some config)) now !! k
    = Some v
  ∧ Popup.getStoredConfig (GetResolved (Some config)) now !! k = Some v
  ∧ Settings.getStoredConfig (GetResolved (Some config)) now !! k = Some v
  ∧ Background.getConfig (Some config) now !! k = Some v
  ∧ (∀ stored : option (gmap string JsValue),
       let expected :=
         if truthy (stored_or_empty stored !! "lastUpdated"%string)
         then stored_or_empty stored !! "lastUpdated"%string
         else Some (VNum now) in
       Content.loadTranslatorConfig true (GetResolved stored) now
         !! "lastUpdated"%string = expected
       ∧ Popup.getStoredConfig (GetResolved stored) now
           !! "lastUpdated"%string = expected
       ∧ Settings.getStoredConfig (GetResolved stored) now
           !! "lastUpdated"%string = expected
       ∧ Background.getConfig stored now !! "lastUpdated"%string = expected).
Proof.
  intros Hk Hc.
  unfold Content.loadTranslatorConfig, Popup.getStoredConfig,
    Settings.getStoredConfig, Background.getConfig; simpl.
  repeat split; try (by apply mergeConfig_present);
    apply mergeConfig_lastUpdated.
Qed.

(** A stored empty [apiUrl] wins over the non-empty default of the settings
    page. *)
Lemma config_merge_prefers_stored_witness :
  Settings.DEFAULT_CONFIG !! "apiUrl"%string
    = Some (VStr (js "http://localhost:8080/v1/chat/completions"))
  ∧ Settings.getStoredConfig
      (GetResolved (Some (<["apiUrl"%string := VStr []]> ∅))) (Number.of_Z 7)
      !! "apiUrl"%string = Some (VStr []).
Proof.
  split.
  - reflexivity.
  - apply (config_merge_prefers_stored (<["apiUrl"%string := VStr []]> ∅)
             (Number.of_Z 7) "apiUrl"%string (VStr [])).
    + discriminate.
    + reflexivity.
Defined.

(** ** The sampler *)

Lemma slice_final_le (len : nat) (e : IntegralNumber) :
  (slice_final len e ≤ len)%nat.
Proof.
  destruct e as [| |z|]; simpl; try lia.
  destruct (z <? 0)%Z eqn:Hz; lia.
Qed.

Lemma Array_slice0_length {A : Type} (l : list A) (e : IntegralNumber) :
  length (Array_slice0 l e) = slice_final (length l) e.
Proof.
  unfold Array_slice0. rewrite length_take.
  pose proof (slice_final_le (length l) e). lia.
Qed.

Lemma slice_final_count (len : nat) (f : IntegralNumber) :
  slice_final len (Math_max (IInt 1) f) = clampedCount len f.
Proof.
  destruct f as [| |z|]; simpl; try reflexivity.
  - lia.
  - destruct (Z.max 1 z <? 0)%Z eqn:Hz; lia.
Qed.

Section SamplerFacts.

Context {A : Type}.
Variable sort_random : list A → list A.
Hypothesis sort_random_permutes : ∀ l, Permutation (sort_random l) l.

Lemma randomSelectTexts_length (texts : list A) (percentage : spec_float) :
  length (randomSelectTexts sort_random texts percentage)
  = clampedCount (length texts)
      (Math_floor (Number.mul (Number.of_nat (length texts)) percentage)).
Proof.
  unfold randomSelectTexts, selectCount.
  rewrite Array_slice0_length, (Permutation_length (sort_random_permutes texts)).
  apply slice_final_count.
Qed.

Lemma randomSelectTexts_sublist (texts : list A) (percentage : spec_float) :
  ∀ x, In x (randomSelectTexts sort_random texts percentage) → In x texts.
Proof.
  intros x Hx. unfold randomSelectTexts, Array_slice0 in Hx.
  apply (Permutation_in x (sort_random_permutes texts)).
  rewrite <- (firstn_skipn (slice_final (length (sort_random texts))
                              (selectCount (length texts) percentage))
                (sort_random texts)).
  apply in_or_app. by left.
Qed.

End SamplerFacts.

(** ** Rounding below an integer *)

Section RoundingBelow.

Local Open Scope Z_scope.

Lemma digits2_pos_lower (m : positive) :
  2 ^ (Z.pos (digits2_pos m) - 1) ≤ Z.pos m.
Proof.
  induction m as [m IH|m IH|]; cbn [digits2_pos]; [| |done].
  - rewrite Pos2Z.inj_succ.
    replace (Z.succ (Z.pos (digits2_pos m)) - 1)
      with (Z.succ (Z.pos (digits2_pos m) - 1)) by lia.
    rewrite Z.pow_succ_r by lia. lia.
  - rewrite Pos2Z.inj_succ.
    replace (Z.succ (Z.pos (digits2_pos m)) - 1)
      with (Z.succ (Z.pos (digits2_pos m) - 1)) by lia.
    rewrite Z.pow_succ_r by lia. lia.
Qed.

(** A positive mantissa below [2^n] has at most [n] digits. *)
Lemma Zdigits2_upper (m n : Z) :
  0 ≤ m → 0 ≤ n → m < 2 ^ n → Zdigits2 m ≤ n.
Proof.
  intros Hm Hn Hlt. destruct m as [|p|p]; [done| |lia]. cbn [Zdigits2].
  pose proof (digits2_pos_lower p) as Hlow.
  destruct (Z_le_gt_dec (Z.pos (digits2_pos p)) n) as [|Hgt]; [done|].
  assert (2 ^ n ≤ 2 ^ (Z.pos (digits2_pos p) - 1))
    by (apply Z.pow_le_mono_r; lia).
  lia.
Qed.

Lemma iter_pos_invariant {A : Type} (f : A → A) (P : Z → A → Prop) :
  (∀ i x, 0 ≤ i → P i x → P (i + 1) (f x)) →
  ∀ p i x, 0 ≤ i → P i x → P (i + Z.pos p) (SpecFloat.iter_pos f p x).
Proof.
  intros Hstep. induction p as [p IH|p IH|]; intros i x Hi HP; cbn [SpecFloat.iter_pos].
  - replace (i + Z.pos p~1) with ((i + 1 + Z.pos p) + Z.pos p) by lia.
    apply IH; [lia|]. apply IH; [lia|]. by apply Hstep.
  - replace (i + Z.pos p~0) with ((i + Z.pos p) + Z.pos p) by lia.
    apply IH; [lia|]. by apply IH.
  - by apply Hstep.
Qed.

Lemma shr_1_shifted (m i : Z) (mrs : shr_record) :
  0 ≤ i → shifted m i mrs → shifted m (i + 1) (shr_1 mrs).
Proof.
  intros Hi (Hpos & Hle & Hlt). unfold shifted.
  rewrite Z.pow_add_r by lia. change (2 ^ 1) with 2.
  assert (0 < 2 ^ i) by (apply Z.pow_pos_nonneg; lia).
  destruct mrs as [mm r s]. cbn [shr_m shr_r shr_s] in *.
  destruct mm as [|[p|p|]|p]; cbn [shr_1 shr_m shr_r shr_s]; [| | | |lia].
  all: split; [lia|]; split; [nia|]; intros Hrs.
  all: try (rewrite orb_false_l in Hrs; specialize (Hlt Hrs)); nia.
Qed.

(** [shr_fexp] on a mantissa that, with its exponent, lies below
    [2^53]. *)
Lemma shr_fexp_shifted (m e : Z) (l : location) :
  0 ≤ m → e ≤ 0 → m < 2 ^ (53 - e) →
  (l = loc_Exact) →
  ∃ mrs e' j,
    shr_fexp 53 1024 m e l = (mrs, e')
    ∧ 0 ≤ j ∧ e' = e + j ∧ e' ≤ 0
    ∧ shifted m j mrs.
Proof.
  intros Hm He Hlt ->. unfold shr_fexp, shr, shr_record_of_loc.
  assert (Hd : Zdigits2 m ≤ 53 - e) by (apply Zdigits2_upper; lia).
  assert (Hf : fexp 53 1024 (Zdigits2 m + e) ≤ 0)
    by (unfold fexp, emin; lia).
  destruct (fexp 53 1024 (Zdigits2 m + e) - e) as [|k|k] eqn:Hk.
  - exists {| shr_m := m; shr_r := false; shr_s := false |}, e, 0.
    split; [done|]. split; [lia|]. split; [lia|]. split; [lia|].
    unfold shifted. cbn. split; [lia|]. split; [lia | done].
  - exists (SpecFloat.iter_pos shr_1 k {| shr_m := m; shr_r := false; shr_s := false |}),
      (e + Z.pos k), (Z.pos k).
    split; [done|]. split; [lia|]. split; [lia|]. split; [lia|].
    apply (iter_pos_invariant shr_1 (shifted m) (shr_1_shifted m) k 0);
      [lia|].
    unfold shifted. cbn. split; [lia|]. split; [lia | done].
  - exists {| shr_m := m; shr_r := false; shr_s := false |}, e, 0.
    split; [done|]. split; [lia|]. split; [lia|]. split; [lia|].
    unfold shifted. cbn. split; [lia|]. split; [lia | done].
Qed.

Lemma round_nearest_even_shifted (mrs : shr_record) :
  0 ≤ shr_m mrs →
  let m2 := round_nearest_even (shr_m mrs) (loc_of_shr_record mrs) in
  m2 = shr_m mrs ∨ (m2 = shr_m mrs + 1 ∧ shr_r mrs || shr_s mrs = true).
Proof.
  intros _. destruct mrs as [mm [|] [|]]; cbn; try (by left); try (by right).
  destruct (Z.even mm); [by left | by right].
Qed.

(** Rounding to nearest does not pass an integer: a mantissa with
    exponent [e ≤ 0] that stands for a value of at most [B], an integer
    below [2^53], is rounded to zero or to a value of at most [B]. *)
Lemma binary_round_aux_below (m e B : Z) (s : bool) :
  0 ≤ m → e ≤ 0 → 0 ≤ B < 2 ^ 53 → m ≤ B * 2 ^ (- e) →
  (∃ s', binary_round_aux 53 1024 s m e loc_Exact = S754_zero s')
  ∨ ∃ m' e', binary_round_aux 53 1024 s m e loc_Exact = S754_finite s m' e'
             ∧ e' ≤ 0 ∧ Z.pos m' ≤ B * 2 ^ (- e').
Proof.
  intros Hm He HB Hle.
  assert (Hpow : ∀ x, x ≤ 0 → B * 2 ^ (- x) < 2 ^ (53 - x)).
  { intros x Hx. replace (53 - x) with (53 + - x) by lia.
    rewrite Z.pow_add_r by lia.
    assert (0 < 2 ^ (- x)) by (apply Z.pow_pos_nonneg; lia). nia. }
  destruct (shr_fexp_shifted m e loc_Exact Hm He) as
    (mrs & e1 & j & Hshr & Hj & He1 & He1' & Hpos & Hs & Hstrict);
    [specialize (Hpow e He); lia | done |].
  assert (Hsplit : 2 ^ (- e) = 2 ^ (- e1) * 2 ^ j).
  { rewrite <- Z.pow_add_r by lia. f_equal. lia. }
  assert (Hj0 : 0 < 2 ^ j) by (apply Z.pow_pos_nonneg; lia).
  assert (He10 : 0 < 2 ^ (- e1)) by (apply Z.pow_pos_nonneg; lia).
  set (m2 := round_nearest_even (shr_m mrs) (loc_of_shr_record mrs)).
  assert (Hm2 : 0 ≤ m2 ∧ m2 ≤ B * 2 ^ (- e1)).
  { destruct (round_nearest_even_shifted mrs Hpos) as [Heq|[Heq Hrs]];
      fold m2 in Heq; rewrite Heq.
    - split; [lia|]. rewrite Hsplit in Hle. nia.
    - specialize (Hstrict Hrs). split; [lia|]. rewrite Hsplit in Hle. nia. }
  destruct (shr_fexp_shifted m2 e1 loc_Exact (proj1 Hm2) He1') as
    (mrs2 & e2 & j2 & Hshr2 & Hj2 & He2 & He2' & Hpos2 & Hs2 & _);
    [specialize (Hpow e1 He1'); lia | done |].
  assert (Hsplit2 : 2 ^ (- e1) = 2 ^ (- e2) * 2 ^ j2).
  { rewrite <- Z.pow_add_r by lia. f_equal. lia. }
  assert (Hj20 : 0 < 2 ^ j2) by (apply Z.pow_pos_nonneg; lia).
  assert (He20 : 0 < 2 ^ (- e2)) by (apply Z.pow_pos_nonneg; lia).
  unfold binary_round_aux. rewrite Hshr. fold m2. rewrite Hshr2.
  destruct (shr_m mrs2) as [|m'|m'] eqn:Hm3; [left; by eexists| |lia].
  right. exists m', e2.
  replace (e2 <=? 1024 - 53) with true by (symmetry; apply Z.leb_le; lia).
  split; [done|]. split; [done|].
  destruct Hm2 as [_ Hm2]. rewrite Hsplit2 in Hm2. nia.
Qed.

Lemma Pos_iter_xO (d mx : positive) :
  Z.pos (Pos.iter xO mx d) = Z.pos mx * 2 ^ Z.pos d.
Proof.
  induction d as [|d IH] using Pos.peano_ind.
  - cbn. lia.
  - rewrite Pos.iter_succ, Pos2Z.inj_xO, IH, Pos2Z.inj_succ, Z.pow_succ_r by lia.
    lia.
Qed.

(** A length below [2^53] is a Number that is not above the length. *)
Lemma of_nat_below (n : nat) :
  Z.of_nat n < 2 ^ 53 →
  (∃ s, Number.of_nat n = S754_zero s)
  ∨ ∃ m e, Number.of_nat n = S754_finite false m e
           ∧ e ≤ 0 ∧ Z.pos m ≤ Z.of_nat n * 2 ^ (- e).
Proof.
  intros Hn. unfold Number.of_nat, Number.of_Z, binary_normalize.
  destruct (Z.of_nat n) as [|p|p] eqn:Hp; [left; by eexists| |lia].
  unfold binary_round, Number.prec, Number.emax.
  destruct (shl_align p 0 (fexp 53 1024 (Z.pos (digits2_pos p) + 0)))
    as [mz ez] eqn:Hal.
  assert (Hmz : ez ≤ 0 ∧ Z.pos mz ≤ Z.pos p * 2 ^ (- ez)).
  { unfold shl_align in Hal.
    destruct (fexp 53 1024 (Z.pos (digits2_pos p) + 0) - 0) as [|d|d] eqn:Hd;
      injection Hal as <- <-; try (cbn; lia).
    assert (Hez : fexp 53 1024 (Z.pos (digits2_pos p) + 0) = Z.neg d) by lia.
    rewrite Hez, Pos_iter_xO. change (- Z.neg d) with (Z.pos d). lia. }
  destruct Hmz as [Hez Hmz].
  apply (binary_round_aux_below (Z.pos mz) ez (Z.pos p) false); lia.
Qed.

(** The floor of the product of a length and a fraction of it is an
    integer between 0 and the length. *)
Lemma floor_of_share (n : nat) (p : spec_float) :
  Z.of_nat n < 2 ^ 53 → unitFraction p →
  ∃ z, Math_floor (Number.mul (Number.of_nat n) p) = IInt z
       ∧ 0 ≤ z ≤ Z.of_nat n.
Proof.
  intros Hn Hp. unfold Number.mul, Number.prec, Number.emax.
  assert (Hfin : ∀ m e,
            e ≤ 0 → Z.pos m ≤ Z.of_nat n * 2 ^ (- e) →
            ∃ z, Math_floor (S754_finite false m e) = IInt z
                 ∧ 0 ≤ z ≤ Z.of_nat n).
  { intros m e He Hm. eexists. split; [reflexivity|].
    assert (0 < 2 ^ (- e)) by (apply Z.pow_pos_nonneg; lia).
    cbn [cond_Zopp]. rewrite Z.shiftl_div_pow2 by done.
    split; [apply Z.div_pos; lia|].
    apply Z.div_le_upper_bound; lia. }
  destruct (of_nat_below n Hn) as [[s Hz]|(mn & en & Hfn & Hen & Hmn)].
  - rewrite Hz. destruct p as [s'| | |[|] m e]; try contradiction;
      exists 0; (split; [reflexivity | lia]).
  - rewrite Hfn. destruct p as [s'| | |[|] m e]; try contradiction.
    + exists 0. split; [reflexivity | lia].
    + destruct Hp as [He Hm]. cbn [SFmul xorb].
      assert (0 < 2 ^ (- en)) by (apply Z.pow_pos_nonneg; lia).
      assert (0 < 2 ^ (- e)) by (apply Z.pow_pos_nonneg; lia).
      destruct (binary_round_aux_below (Z.pos (mn * m)) (en + e)
                  (Z.of_nat n) false) as [[s Hr]|(m' & e' & Hr & He' & Hm')];
        try lia.
      * replace (- (en + e)) with (- en + - e) by lia.
        rewrite Z.pow_add_r, Pos2Z.inj_mul by lia. nia.
      * rewrite Hr. exists 0. split; [reflexivity | lia].
      * rewrite Hr.
        apply (Hfin m' e' He' Hm').
Qed.

End RoundingBelow.

(** C1. For every candidate list of length N >= 1 (an array: fewer than
    2^32 elements), every percentage p between 0 and 1 and every order the
    engine's sort leaves the copy in, the selection has exactly
    max(1, floor(N*p)) elements, N*p being the binary64 product the code
    computes; the floor lies between 0 and N, so the selection has at most N
    elements. The percentages the extension computes are of this kind:
    10/100 for the value of config.js and 40/100 for the default of the
    content script. With 10 candidates and a configured selectionPercentage
    of 10, exactly one candidate is selected. *)
Theorem sampler_selection_length
    {A : Type} (sort_random : list A → list A)
    (StringToNumber : list N → spec_float)
    (texts : list A) (percentage : spec_float) :
  (∀ l, Permutation (sort_random l) l) →
  (1 ≤ length texts)%nat →
  (Z.of_nat (length texts) < 2 ^ 32)%Z →
  unitFraction percentage →
  let product := Number.mul (Number.of_nat (length texts)) percentage in
  let selected := randomSelectTexts sort_random texts percentage in
  (∃ z, Math_floor product = IInt z
        ∧ (0 ≤ z ≤ Z.of_nat (length texts))%Z
        ∧ Z.of_nat (length selected) = Z.max 1 z)
  ∧ (length selected ≤ length texts)%nat
  ∧ (∀ config : gmap string JsValue,
       config !! "selectionPercentage"%string = Some (VNum (Number.of_Z 10))
       ∨ config !! "selectionPercentage"%string = None →
       unitFraction (selectionFraction StringToNumber (Some config)))
  ∧ (∀ config : gmap string JsValue,
       length texts = 10%nat →
       config !! "selectionPercentage"%string = Some (VNum (Number.of_Z 10)) →
       length (randomSelectTexts sort_random texts
                 (selectionFraction StringToNumber (Some config))) = 1%nat).
Proof.
  intros Hperm Hlen Harray Hp product selected.
  assert (Hsel : ∀ p, length (randomSelectTexts sort_random texts p)
                      = clampedCount (length texts)
                          (Math_floor (Number.mul (Number.of_nat (length texts)) p)))
    by (intros p; by apply randomSelectTexts_length).
  assert (Hbig : (Z.of_nat (length texts) < 2 ^ 53)%Z).
  { assert ((2 ^ 32 < 2 ^ 53)%Z) by (apply Z.pow_lt_mono_r; lia). lia. }
  destruct (floor_of_share (length texts) percentage Hbig Hp)
    as (z & Hz & Hlo & Hhi).
  assert (Hcount : Z.of_nat (length selected) = Z.max 1 z).
  { subst selected product. rewrite Hsel, Hz. cbn. lia. }
  split; [exists z; subst product; by repeat split|].
  split; [lia|]. split.
  - intros config [Hcfg|Hcfg]; unfold selectionFraction; rewrite Hcfg;
      vm_compute; split; discriminate.
  - intros config H10 Hcfg. rewrite Hsel, H10.
    unfold selectionFraction. rewrite Hcfg. reflexivity.
Qed.

(** Ten candidates, a configured percentage of 10, and a sort that
    reverses. *)
Lemma sampler_selection_length_witness :
  let share :=
    selectionFraction (fun _ => S754_nan)
      (Some (<["selectionPercentage"%string := VNum (Number.of_Z 10)]> ∅)) in
  unitFraction share
  ∧ length (randomSelectTexts (@rev nat) (seq 0 10) share) = 1%nat.
Proof.
  intros share.
  assert (Hshare : unitFraction share)
    by (vm_compute; split; discriminate).
  split; [exact Hshare|].
  pose proof (sampler_selection_length (@rev nat) (fun _ => S754_nan)
                (seq 0 10) share
                (fun l => Permutation_sym (Permutation_rev l))
                ltac:(simpl; lia) ltac:(simpl; lia) Hshare)
    as (_ & _ & _ & Hten).
  apply (Hten (<["selectionPercentage"%string := VNum (Number.of_Z 10)]> ∅)).
  - reflexivity.
  - reflexivity.
Defined.

(** ** The page scanner *)

(** Induction over a tree of nodes, with the hypothesis for every child. *)
Lemma Node_tree_ind (P : Node → Prop) :
  (∀ data, P (TextNode data)) →
  (∀ data, P (CommentNode data)) →
  (∀ tag cs, Forall P cs → P (ElementNode tag cs)) →
  (∀ cs, Forall P cs → P (DocumentNode cs)) →
  ∀ n, P n.
Proof.
  intros Ht Hc He Hd.
  fix IH 1. intros [data|data|tag cs|cs].
  - apply Ht.
  - apply Hc.
  - apply He. induction cs as [|c cs IHcs]; constructor; [apply IH | apply IHcs].
  - apply Hd. induction cs as [|c cs IHcs]; constructor; [apply IH | apply IHcs].
Qed.

Lemma walk_element (here : list nat) (tag : list N) (cs : list Node) :
  walk here (ElementNode tag cs) = walkEach here 0 cs.
Proof.
  simpl. generalize 0%nat. induction cs as [|c cs IH]; intros i; simpl;
    [reflexivity | by rewrite IH].
Qed.

Lemma walk_document (here : list nat) (cs : list Node) :
  walk here (DocumentNode cs) = walkEach here 0 cs.
Proof.
  simpl. generalize 0%nat. induction cs as [|c cs IH]; intros i; simpl;
    [reflexivity | by rewrite IH].
Qed.

Lemma walkEach_sound (cs : list Node) :
  Forall walk_sound_at cs →
  ∀ here i path data,
    In (path, data) (walkEach here i cs) →
    ∃ j c rel, nth_error cs j = Some c
               ∧ path = here ++ (i + j)%nat :: rel
               ∧ nodeAt c rel = Some (TextNode data)
               ∧ acceptNode data = FILTER_ACCEPT.
Proof.
  induction 1 as [|c cs Hc Hcs IH]; intros here i path data Hin; simpl in Hin.
  - contradiction.
  - apply in_app_or in Hin as [Hin|Hin].
    + destruct (Hc _ _ _ Hin) as (rel & -> & Hnode & Hacc).
      exists 0%nat, c, rel. rewrite Nat.add_0_r, <- app_assoc. by repeat split.
    + destruct (IH _ _ _ _ Hin) as (j & c' & rel & Hnth & -> & Hnode & Hacc).
      exists (S j), c', rel. rewrite Nat.add_succ_r. by repeat split.
Qed.

Lemma walk_sound (n : Node) : walk_sound_at n.
Proof.
  induction n as [data|data|tag cs IH|cs IH] using Node_tree_ind;
    intros here path data' Hin.
  - simpl in Hin. destruct (acceptNode data) eqn:Hacc; try contradiction.
    destruct Hin as [[= <- <-]|[]].
    exists []. rewrite app_nil_r. by repeat split.
  - contradiction.
  - rewrite walk_element in Hin.
    destruct (walkEach_sound cs IH _ _ _ _ Hin)
      as (j & c & rel & Hnth & -> & Hnode & Hacc).
    exists (j :: rel). simpl. rewrite Hnth. by repeat split.
  - rewrite walk_document in Hin.
    destruct (walkEach_sound cs IH _ _ _ _ Hin)
      as (j & c & rel & Hnth & -> & Hnode & Hacc).
    exists (j :: rel). simpl. rewrite Hnth. by repeat split.
Qed.

Lemma walkEach_complete (cs : list Node) :
  ∀ here k j c found,
    nth_error cs j = Some c →
    In found (walk (here ++ [(k + j)%nat]) c) →
    In found (walkEach here k cs).
Proof.
  induction cs as [|c0 cs IH]; intros here k j c found Hnth Hin.
  - destruct j; discriminate.
  - simpl. apply in_or_app. destruct j as [|j]; simpl in Hnth.
    + injection Hnth as ->. rewrite Nat.add_0_r in Hin. by left.
    + right. apply (IH here (S k) j c); [done|].
      by rewrite Nat.add_succ_comm.
Qed.

(** Every text node below [n] that the callback accepts is returned. *)
Lemma walk_complete (rel : list nat) :
  ∀ n here data,
    nodeAt n rel = Some (TextNode data) →
    acceptNode data = FILTER_ACCEPT →
    In (here ++ rel, data) (walk here n).
Proof.
  induction rel as [|i rest IH]; intros n here data Hnode Hacc.
  - injection Hnode as ->. simpl. rewrite Hacc, app_nil_r. by left.
  - simpl in Hnode.
    destruct (nth_error (childNodesOf n) i) as [c|] eqn:Hnth; [|discriminate].
    assert (Hc : In (here ++ i :: rest, data) (walk (here ++ [(0 + i)%nat]) c)).
    { replace (here ++ i :: rest) with ((here ++ [i]) ++ rest)
        by (by rewrite <- app_assoc).
      by apply IH. }
    destruct n as [d|d|tag cs|cs]; simpl in Hnth.
    + destruct i; discriminate.
    + destruct i; discriminate.
    + rewrite walk_element. by apply (walkEach_complete cs here 0 i c).
    + rewrite walk_document. by apply (walkEach_complete cs here 0 i c).
Qed.

Lemma acceptNode_accepts (data : list N) :
  acceptNode data = FILTER_ACCEPT →
  (2 ≤ length (trim data))%nat ∧ chineseRegex_test (trim data) = true.
Proof.
  unfold acceptNode.
  destruct (length (trim data) <? 2)%nat eqn:Hlen; [discriminate|].
  destruct (chineseRegex_test (trim data)) eqn:Hcjk; [|discriminate].
  intros _. apply Nat.ltb_ge in Hlen. by split.
Qed.

Lemma walker_nodes_sound (root : Node) (path : list nat) (data : list N) :
  In (path, data) (walker_nodes root) →
  nodeAt root path = Some (TextNode data)
  ∧ acceptNode data = FILTER_ACCEPT.
Proof.
  intros Hin.
  assert (Hw : In (path, data) (walk [] root))
    by (destruct root; simpl in Hin; try contradiction; exact Hin).
  destruct (walk_sound root _ _ _ Hw) as (rel & -> & Hnode & Hacc).
  by split.
Qed.

Lemma extractChineseTexts_sound (pg : Page) (c : TextCandidate) :
  In c (extractChineseTexts pg) →
  ∃ data, nodeAt (walker_root pg) (node c) = Some (TextNode data)
          ∧ text c = trim data
          ∧ parent c = removelast (node c)
          ∧ acceptNode data = FILTER_ACCEPT.
Proof.
  unfold extractChineseTexts. intros Hin.
  apply in_flat_map in Hin as ([path data] & Hfound & Hpush).
  apply walker_nodes_sound in Hfound as [Hnode Hacc].
  unfold pushCandidate in Hpush. cbn [fst snd] in Hpush.
  destruct (2 <=? length (trim data))%nat eqn:Hlen in Hpush;
    [|contradiction].
  destruct Hpush as [<-|[]]. cbn [node text parent]. by exists data.
Qed.

(** The scanner misses nothing: a text node below the root that the
    callback accepts is a candidate, with its trimmed content as text. *)
Lemma extractChineseTexts_complete (pg : Page) (path : list nat)
    (data : list N) :
  path ≠ [] →
  nodeAt (walker_root pg) path = Some (TextNode data) →
  acceptNode data = FILTER_ACCEPT →
  In {| node := path; text := trim data; parent := removelast path |}
    (extractChineseTexts pg).
Proof.
  intros Hpath Hnode Hacc. unfold extractChineseTexts.
  apply in_flat_map. exists (path, data). split.
  - pose proof (walk_complete path (walker_root pg) [] data Hnode Hacc) as Hin.
    unfold walker_nodes. destruct (walker_root pg); try exact Hin.
    destruct path as [|[|i] rest]; [contradiction | discriminate..].
  - unfold pushCandidate. cbn [fst snd].
    apply acceptNode_accepts in Hacc as [Hlen _].
    apply Nat.leb_le in Hlen. rewrite Hlen. by left.
Qed.

(** C2. Every candidate the scanner produces is a text node of the walked
    tree, its text is the trimmed content of that node, has at least two
    code units and contains a code unit in U+4E00..U+9FFF; so no text node
    whose trimmed content is shorter than two code units or has no such
    code unit is ever the node of a candidate. *)
Theorem scanner_selects_only_cjk_text (pg : Page) :
  (∀ c, In c (extractChineseTexts pg) →
     (2 ≤ length (text c))%nat
     ∧ (∃ ch, In ch (text c) ∧ (19968 ≤ ch)%N ∧ (ch ≤ 40959)%N)
     ∧ ∃ data, nodeAt (walker_root pg) (node c) = Some (TextNode data)
               ∧ text c = trim data)
  ∧ (∀ path data,
       nodeAt (walker_root pg) path = Some (TextNode data) →
       unqualified data →
       ∀ c, In c (extractChineseTexts pg) → node c ≠ path).
Proof.
  assert (Hall : ∀ c, In c (extractChineseTexts pg) →
     (2 ≤ length (text c))%nat
     ∧ (∃ ch, In ch (text c) ∧ (19968 ≤ ch)%N ∧ (ch ≤ 40959)%N)
     ∧ ∃ data, nodeAt (walker_root pg) (node c) = Some (TextNode data)
               ∧ text c = trim data).
  { intros c Hc.
    destruct (extractChineseTexts_sound pg c Hc) as (data & Hn & Ht & _ & Ha).
    apply acceptNode_accepts in Ha as [Hlen Hcjk].
    rewrite Ht. split; [exact Hlen|]. split; [|by exists data].
    apply existsb_exists in Hcjk as (ch & Hin & Hch).
    exists ch. unfold isCJK in Hch. apply andb_true_iff in Hch as [H1 H2].
    apply N.leb_le in H1, H2. by repeat split. }
  split; [exact Hall|].
  intros path data Hnode Hbad c Hc Hpath.
  destruct (Hall c Hc) as (Hlen & (ch & Hin & Hlo & Hhi) & data' & Hn & Ht).
  rewrite Hpath, Hnode in Hn. injection Hn as <-.
  rewrite Ht in Hlen, Hin.
  destruct Hbad as [Hshort|Hnone]; [lia|].
  specialize (Hnone ch Hin). unfold isCJK in Hnone.
  apply andb_false_iff in Hnone as [H|H]; apply N.leb_gt in H; lia.
Qed.

Example extractChineseTexts_samplePage :
  extractChineseTexts samplePage
  = [ {| node := [1; 0]%nat; text := [20013; 25991; 32; 120];
         parent := [1%nat] |};
      {| node := [3%nat]; text := [20013; 20013]; parent := [] |} ].
Proof. reflexivity. Qed.

(** On the sample page the last text node is a candidate, with two code
    units, and it is not the single character of the paragraph. *)
Lemma scanner_selects_only_cjk_text_witness :
  In sampleCandidate (extractChineseTexts samplePage)
  ∧ (2 ≤ length (text sampleCandidate))%nat
  ∧ node sampleCandidate ≠ [1; 2]%nat.
Proof.
  assert (Hin : In sampleCandidate (extractChineseTexts samplePage))
    by (right; left; reflexivity).
  split; [exact Hin|]. split.
  - exact (proj1 (proj1 (scanner_selects_only_cjk_text samplePage) _ Hin)).
  - apply (proj2 (scanner_selects_only_cjk_text samplePage) [1; 2]%nat [20013]
             eq_refl (or_introl (Nat.lt_succ_diag_r 1)) _ Hin).
Defined.

(** ** The URL validator and the settings form *)

(** C7. [isValidUrl] answers true exactly for the strings that the URL
    constructor parses into a URL whose protocol is [http:] or [https:];
    it answers false for a string that does not parse and for a URL of any
    other protocol. *)
Theorem isValidUrl_accepts_http_and_https_only
    (URL_parse : list N → option URL) (string : list N) :
  (isValidUrl URL_parse string = true
   ↔ ∃ url, URL_parse string = Some url
            ∧ (protocol url = js "http:" ∨ protocol url = js "https:"))
  ∧ (URL_parse string = None → isValidUrl URL_parse string = false)
  ∧ (∀ url, URL_parse string = Some url →
       protocol url ≠ js "http:" → protocol url ≠ js "https:" →
       isValidUrl URL_parse string = false).
Proof.
  unfold isValidUrl. repeat split.
  - destruct (URL_parse string) as [url|]; [|discriminate].
    intros Hp. exists url. split; [reflexivity|].
    apply orb_true_iff in Hp as [Hp|Hp]; apply bool_decide_eq_true in Hp; auto.
  - intros (url & -> & [Hp|Hp]); apply orb_true_iff; [left|right];
      by apply bool_decide_eq_true.
  - by intros ->.
  - intros url -> H1 H2. apply orb_false_iff.
    split; by apply bool_decide_eq_false.
Qed.

Lemma isValidUrl_accepts_http_and_https_only_witness :
  isValidUrl sampleParser (js "ftp://example.org") = false
  ∧ isValidUrl sampleParser (js "https://example.org") = true.
Proof.
  split.
  - apply (proj2 (proj2 (isValidUrl_accepts_http_and_https_only sampleParser
                           (js "ftp://example.org")))
             {| protocol := js "ftp:" |});
      [reflexivity | discriminate | discriminate].
  - apply (proj1 (isValidUrl_accepts_http_and_https_only sampleParser
                    (js "https://example.org"))).
    exists {| protocol := js "https:" |}. split; [reflexivity | by right].
Defined.

(** C9. When a check of [saveSettings] fails (the trimmed server address is
    empty or no valid http/https URL, the trimmed API address is non-empty
    and no valid http/https URL, or the trimmed user prompt template is
    non-empty and lacks [{target_word}] or [{context_sentence}]),
    [chrome.storage.sync.set] is not called and the persisted configuration
    is the one from before. *)
Theorem saveSettings_rejects_without_writing
    (URL_parse : list N → option URL) (form : Form) (now : spec_float)
    (set_resolves : bool) (st : PopupState) :
  validation_fails URL_parse form →
  persisted (saveSettings URL_parse form now set_resolves st) = persisted st
  ∧ set_calls (saveSettings URL_parse form now set_resolves st) = set_calls st
  ∧ notified (saveSettings URL_parse form now set_resolves st) = notified st
  ∧ ∃ m, status (saveSettings URL_parse form now set_resolves st)
         = Some (m, status_error).
Proof.
  intros Hfail.
  cut (∃ m, saveSettings URL_parse form now set_resolves st
            = showStatus m status_error st).
  { intros [m ->]. repeat split. by exists m. }
  unfold validation_fails in Hfail. unfold saveSettings.
  destruct (isEmpty (trim (serverUrlInput form))) eqn:Hs; [by eexists|].
  destruct (isValidUrl URL_parse (trim (serverUrlInput form))) eqn:Hv;
    cbn [negb]; [|by eexists].
  destruct (isEmpty (trim (apiUrlInput form))) eqn:Ha;
    destruct (isValidUrl URL_parse (trim (apiUrlInput form))) eqn:Hv';
    cbn [negb andb]; try (by eexists);
    destruct (isEmpty (trim (userPromptTemplateInput form))) eqn:Hu;
    destruct (includes (trim (userPromptTemplateInput form))
                (js "{target_word}")) eqn:Ht;
    cbn [negb andb]; try (by eexists);
    destruct (includes (trim (userPromptTemplateInput form))
                (js "{context_sentence}")) eqn:Hc;
    cbn [negb andb]; try (by eexists);
    exfalso;
    destruct (trim (serverUrlInput form)); try discriminate;
    destruct (trim (apiUrlInput form)); try discriminate;
    destruct (trim (userPromptTemplateInput form)); try discriminate;
    destruct Hfail as [H|[H|[[H1 H2]|[H1 [H2|H2]]]]]; congruence.
Qed.

Lemma saveSettings_rejects_without_writing_witness :
  validation_fails sampleParser emptyForm
  ∧ persisted (saveSettings sampleParser emptyForm (Number.of_Z 1) true
                 freshPopup) = None.
Proof.
  split.
  - left. reflexivity.
  - apply (saveSettings_rejects_without_writing sampleParser emptyForm
             (Number.of_Z 1) true freshPopup).
    left. reflexivity.
Defined.

(** A form that passes every check is written. *)
Example saveSettings_goodForm :
  ∃ config,
    persisted (saveSettings sampleParser goodForm (Number.of_Z 1) true
                 freshPopup) = Some config
    ∧ config !! "serverUrl"%string = Some (VStr (js "http://127.0.0.1:5000"))
    ∧ set_calls (saveSettings sampleParser goodForm (Number.of_Z 1) true
                   freshPopup) = [config].
Proof. eexists. repeat split. Qed.

(** ** Substrings *)

Lemma startsWith_prefix (p s : list N) :
  startsWith p s = true ↔ ∃ rest, s = p ++ rest.
Proof.
  revert s. induction p as [|a p IH]; intros s; simpl.
  - split; [intros _; by exists s | done].
  - destruct s as [|b s]; simpl.
    + split; [discriminate | intros [rest Hr]; discriminate].
    + rewrite andb_true_iff, N.eqb_eq, IH. split.
      * intros [-> [rest ->]]. by exists rest.
      * intros [rest [= -> ->]]. split; [done | by exists rest].
Qed.

Lemma includes_substring (s p : list N) :
  includes s p = true ↔ substring_of p s.
Proof.
  unfold substring_of. induction s as [|c s IH]; simpl.
  - rewrite orb_false_r, startsWith_prefix. split.
    + intros [rest Hr]. by exists [], rest.
    + intros (before & after & Hs). symmetry in Hs.
      apply app_eq_nil in Hs as [-> Hs]. apply app_eq_nil in Hs as [-> ->].
      by exists [].
  - rewrite orb_true_iff, startsWith_prefix, IH. split.
    + intros [[rest Hr]|(before & after & ->)].
      * by exists [], rest.
      * by exists (c :: before), after.
    + intros ([|b before] & after & Hs).
      * left. by exists after.
      * right. injection Hs as -> ->. by exists before, after.
Qed.

(** ** Statements: what they keep and how they complete *)

Section StatementFacts.

Context {Dom : Type} `{DomApi Dom}.

Lemma bind_normal {A B} (m : M Dom A) (k : A → M Dom B) (w : World Dom) (a : A) :
  completion m w = Normal a → bind m k w = k a (exec m w).
Proof.
  unfold completion, exec, bind. destruct (m w) as [w' c]. simpl. by intros ->.
Qed.

Lemma bind_throw {A B} (m : M Dom A) (k : A → M Dom B) (w : World Dom) (e : Error) :
  completion m w = Throw e → bind m k w = (exec m w, Throw e).
Proof.
  unfold completion, exec, bind. destruct (m w) as [w' c]. simpl. by intros ->.
Qed.

Lemma try_catch_normal {A} (m : M Dom A) (h : Error → M Dom A) (w : World Dom) (a : A) :
  completion m w = Normal a → try_catch m h w = (exec m w, Normal a).
Proof.
  unfold completion, exec, try_catch. destruct (m w) as [w' c]. simpl. by intros ->.
Qed.

Lemma try_catch_throw {A} (m : M Dom A) (h : Error → M Dom A) (w : World Dom) (e : Error) :
  completion m w = Throw e → try_catch m h w = h e (exec m w).
Proof.
  unfold completion, exec, try_catch. destruct (m w) as [w' c]. simpl. by intros ->.
Qed.

Section Preservation.

Variable R : relation (World Dom).
Context `{!Reflexive R} `{!Transitive R}.

Lemma preserves_ret {A} (a : A) : preserves R (ret a).
Proof. intros w. reflexivity. Qed.

Lemma preserves_throw {A} (e : Error) : preserves R (@throw Dom A e).
Proof. intros w. reflexivity. Qed.

Lemma preserves_lift {A} (c : Completion A) : preserves R (lift c).
Proof. intros w. reflexivity. Qed.

Lemma preserves_read : preserves R read.
Proof. intros w. reflexivity. Qed.

Lemma preserves_bind {A B} (m : M Dom A) (k : A → M Dom B) :
  preserves R m → (∀ a, preserves R (k a)) → preserves R (bind m k).
Proof.
  intros Hm Hk w. unfold exec, bind. specialize (Hm w). unfold exec in Hm.
  destruct (m w) as [w' [a|e]]; simpl in *; [|exact Hm].
  etransitivity; [exact Hm | apply Hk].
Qed.

Lemma preserves_try_catch {A} (m : M Dom A) (h : Error → M Dom A) :
  preserves R m → (∀ e, preserves R (h e)) → preserves R (try_catch m h).
Proof.
  intros Hm Hh w. unfold exec, try_catch. specialize (Hm w). unfold exec in Hm.
  destruct (m w) as [w' [a|e]]; simpl in *; [exact Hm|].
  etransitivity; [exact Hm | apply Hh].
Qed.

End Preservation.

#[export] Instance grows_refl (P : Event → Prop) : Reflexive (grows (Dom:=Dom) P).
Proof. intros w. exists []. by rewrite app_nil_r. Qed.

#[export] Instance grows_trans (P : Event → Prop) : Transitive (grows (Dom:=Dom) P).
Proof.
  intros w1 w2 w3 (d1 & H1 & F1) (d2 & H2 & F2). exists (d1 ++ d2).
  rewrite H2, H1, app_assoc. split; [done | by apply Forall_app].
Qed.

#[export] Instance same_dom_refl : Reflexive (same_dom (Dom:=Dom)).
Proof. by intros w. Qed.

#[export] Instance same_dom_trans : Transitive (same_dom (Dom:=Dom)).
Proof. intros w1 w2 w3 H1 H2. unfold same_dom in *. congruence. Qed.

#[export] Instance same_config_refl : Reflexive (same_config (Dom:=Dom)).
Proof. by intros w. Qed.

#[export] Instance same_config_trans : Transitive (same_config (Dom:=Dom)).
Proof. intros w1 w2 w3 H1 H2. unfold same_config in *. congruence. Qed.

Lemma grows_emit (P : Event → Prop) (ev : Event) :
  P ev → preserves (Dom:=Dom) (grows P) (emit ev).
Proof. intros HP w. exists [ev]. split; [done | by constructor]. Qed.

Lemma grows_set_dom (P : Event → Prop) (d : Dom) :
  preserves (grows P) (set_dom d).
Proof. intros w. exists []. by rewrite app_nil_r. Qed.

Lemma grows_set_config (P : Event → Prop) (c : gmap string JsValue) :
  preserves (Dom:=Dom) (grows P) (set_config c).
Proof. intros w. exists []. by rewrite app_nil_r. Qed.

Lemma same_dom_emit (ev : Event) :
  preserves (Dom:=Dom) same_dom (emit ev).
Proof. by intros w. Qed.

Lemma same_dom_set_config (c : gmap string JsValue) :
  preserves (Dom:=Dom) same_dom (set_config c).
Proof. by intros w. Qed.

Lemma same_config_emit (ev : Event) :
  preserves (Dom:=Dom) same_config (emit ev).
Proof. by intros w. Qed.

Lemma same_config_set_dom (d : Dom) : preserves same_config (set_dom d).
Proof. by intros w. Qed.

(** *** Normal completion *)

Lemma never_throws_ret {A} (a : A) : never_throws (Dom:=Dom) (ret a).
Proof. intros w. by exists a. Qed.

Lemma never_throws_emit (ev : Event) :
  never_throws (Dom:=Dom) (emit ev).
Proof. intros w. by exists tt. Qed.

Lemma never_throws_bind {A B} (m : M Dom A) (k : A → M Dom B) :
  never_throws m → (∀ a, never_throws (k a)) → never_throws (bind m k).
Proof.
  intros Hm Hk w. destruct (Hm w) as [a Ha].
  unfold completion. rewrite (bind_normal _ _ _ _ Ha). apply Hk.
Qed.

Lemma never_throws_try_catch {A} (m : M Dom A) (h : Error → M Dom A) :
  (∀ e, never_throws (h e)) → never_throws (try_catch m h).
Proof.
  intros Hh w. destruct (completion m w) as [a|e] eqn:Hm.
  - exists a. unfold completion. by rewrite (try_catch_normal _ _ _ _ Hm).
  - unfold completion. rewrite (try_catch_throw _ _ _ _ Hm). apply Hh.
Qed.

End StatementFacts.

Create HintDb statements.

#[local] Hint Resolve preserves_ret preserves_throw preserves_lift
  preserves_read grows_set_dom grows_set_config same_dom_emit
  same_dom_set_config same_config_emit same_config_set_dom
  never_throws_ret never_throws_emit : statements.

(** Goes through a statement along its binds, handlers and case
    distinctions; [side] closes what is asked of an emitted event. *)
Ltac walk_statement side :=
  repeat first
    [ apply preserves_bind; [tc_solve | | intros ?]
    | apply preserves_try_catch; [tc_solve | | intros ?]
    | apply grows_emit; side
    | solve [ eauto with statements typeclass_instances ]
    | match goal with
      | |- preserves _ (match ?x with _ => _ end) => destruct x
      | |- preserves _ (let '(_, _) := ?x in _) => destruct x
      end ].

(** ** The annotator *)

Section AnnotatorFacts.

Context {Dom : Type} `{DomApi Dom}.
Variable env : Env.

Lemma regexReplace_keeps (R : relation (World Dom)) `{!Reflexive R}
    (targetWord subject template : list N) :
  preserves R (regexReplace env targetWord subject template).
Proof. unfold regexReplace. walk_statement idtac. Qed.

Hint Resolve regexReplace_keeps : statements.

Lemma annotateAsText_grows (textData : TextCandidate)
    (targetWord translation : list N) :
  preserves (grows quiet) (annotateAsText env textData targetWord translation).
Proof. unfold annotateAsText. walk_statement ltac:(by split). Qed.

Lemma annotateAsText_same_config (textData : TextCandidate)
    (targetWord translation : list N) :
  preserves same_config (annotateAsText env textData targetWord translation).
Proof. unfold annotateAsText. walk_statement idtac. Qed.

Hint Resolve annotateAsText_grows annotateAsText_same_config : statements.

Lemma annotateWordInText_grows (id : list N) (textData : TextCandidate)
    (targetWord translation : list N) :
  preserves (grows quiet)
    (annotateWordInText env id textData targetWord translation).
Proof. unfold annotateWordInText. walk_statement ltac:(by split). Qed.

Lemma annotateWordInText_same_config (id : list N) (textData : TextCandidate)
    (targetWord translation : list N) :
  preserves same_config
    (annotateWordInText env id textData targetWord translation).
Proof. unfold annotateWordInText. walk_statement idtac. Qed.

(** C3. When the target word is no substring of the candidate's text,
    [annotateWordInText] completes normally and leaves the document as it
    was: no setter of the DOM is called, so neither the markup of the parent
    nor the content of the text node changes; the warning is the only
    effect. *)
Theorem annotate_absent_word_leaves_document
    (id : list N) (textData : TextCandidate) (targetWord translation : list N)
    (w : World Dom) :
  ¬ substring_of targetWord (text textData) →
  completion (annotateWordInText env id textData targetWord translation) w
    = Normal tt
  ∧ dom (exec (annotateWordInText env id textData targetWord translation) w)
    = dom w
  ∧ (∀ path,
       innerHTML
         (dom (exec (annotateWordInText env id textData targetWord
                       translation) w)) path
       = innerHTML (dom w) path)
  ∧ trace (exec (annotateWordInText env id textData targetWord translation) w)
    = trace w ++ [LogWordNotFound targetWord].
Proof.
  intros Habsent. unfold annotateWordInText, completion, exec.
  destruct (includes (text textData) targetWord) eqn:Hinc.
  - apply includes_substring in Hinc. contradiction.
  - by repeat split.
Qed.

End AnnotatorFacts.

Lemma annotate_absent_word_leaves_document_witness :
  let run :=
    annotateWordInText (sampleEnv None FetchRejected) (js "id")
      sampleTextData (js "2.5") (js "two and a half") in
  ¬ substring_of (js "2.5") (text sampleTextData)
  ∧ completion run sampleWorld = Normal tt
  ∧ dom (exec run sampleWorld) = sampleDom.
Proof.
  assert (Habsent : ¬ substring_of (js "2.5") (text sampleTextData)).
  { intros Hsub. apply includes_substring in Hsub. vm_compute in Hsub.
    discriminate. }
  split; [exact Habsent|].
  destruct (annotate_absent_word_leaves_document
              (sampleEnv None FetchRejected) (js "id") sampleTextData
              (js "2.5") (js "two and a half") sampleWorld Habsent)
    as (Hc & Hd & _ & _).
  split; [exact Hc | exact Hd].
Defined.

Lemma fragmentEngine_conforms : conforms fragmentEngine.
Proof.
  intros pattern r subject template Hp Hr. simpl. rewrite Hp.
  destruct r; [contradiction | reflexivity].
Qed.

(** C5, at the word [1.5] in the text 1.5米和125米. The word occurs in the
    text and the parent has markup, and any engine that conforms on the
    fragment replaces both [1.5] and [125], since the dot of the pattern
    matches every character: the number 125 is lost from the page. A literal
    replacement changes the first occurrence only. *)
Theorem annotate_treats_word_as_pattern (env : Env) :
  conforms (regexp env) →
  let translation := js "one and a half" in
  let run :=
    annotateWordInText env (js "w1") sampleTextData (js "1.5") translation in
  let span := annotationMarkup (js "w1") (js "1.5") translation in
  substring_of (js "1.5") (text sampleTextData)
  ∧ innerHTML sampleDom (parent sampleTextData) = Some sampleText
  ∧ completion run sampleWorld = Normal tt
  ∧ innerHTML (dom (exec run sampleWorld)) (parent sampleTextData)
    = Some (span ++ [31859; 21644] ++ span ++ [31859])
  ∧ replaceLiteral (js "1.5") span sampleText 0
    = span ++ [31859; 21644] ++ js "125" ++ [31859]
  ∧ innerHTML (dom (exec run sampleWorld)) (parent sampleTextData)
    ≠ Some (replaceLiteral (js "1.5") span sampleText 0).
Proof.
  intros Hconf translation run span.
  assert (Hr : replace_g (regexp env) (js "1.5") sampleText span
               = Some (span ++ [31859; 21644] ++ span ++ [31859])).
  { rewrite (Hconf (js "1.5") [AChar 49; ADot; AChar 53] sampleText span);
      [ | reflexivity | discriminate ].
    vm_compute. reflexivity. }
  assert (Hrun : run sampleWorld
                 = ({| dom := {| markup := {[ [0%nat] := span ++ [31859; 21644] ++ span ++ [31859] ]};
                                 chars := {[ [0; 0]%nat := sampleText ]} |};
                       translatorConfig := None;
                       trace := [LogBefore sampleText; LogHtmlAnnotated;
                                 LogAfter (js "1.5" ++ [12304] ++ translation ++ [12305]);
                                 EvHoverSetup (js "w1")] |}, Normal tt)).
  { subst run. unfold annotateWordInText.
    replace (includes (text sampleTextData) (js "1.5")) with true
      by (vm_compute; reflexivity).
    unfold bind, emit, read, regexReplace, set_dom; simpl dom; simpl trace;
      simpl translatorConfig.
    replace (innerHTML sampleDom (parent sampleTextData))
      with (Some sampleText) by reflexivity.
    unfold span, annotationMarkup in Hr. rewrite Hr. reflexivity. }
  split; [apply includes_substring; vm_compute; reflexivity|].
  split; [reflexivity|].
  split; [unfold completion; by rewrite Hrun|].
  split; [unfold exec; rewrite Hrun; reflexivity|].
  split; [vm_compute; reflexivity|].
  unfold exec. rewrite Hrun. vm_compute. discriminate.
Qed.

Lemma annotate_treats_word_as_pattern_witness :
  let env := sampleEnv None FetchRejected in
  let translation := js "one and a half" in
  let run :=
    annotateWordInText env (js "w1") sampleTextData (js "1.5") translation in
  let span := annotationMarkup (js "w1") (js "1.5") translation in
  conforms (regexp env)
  ∧ innerHTML (dom (exec run sampleWorld)) (parent sampleTextData)
    = Some (span ++ [31859; 21644] ++ span ++ [31859]).
Proof.
  split.
  - apply fragmentEngine_conforms.
  - apply (annotate_treats_word_as_pattern (sampleEnv None FetchRejected)
             fragmentEngine_conforms).
Defined.

(** ** Patterns without syntax characters *)

Lemma parseFragment_literal (word : list N) :
  forallb (λ c, negb (isSyntaxCharacter c)) word = true →
  parseFragment word = Some (map AChar word).
Proof.
  induction word as [|c word IH]; simpl; [done|].
  rewrite andb_true_iff, negb_true_iff. intros [Hc Hw].
  rewrite (IH Hw). unfold parseAtom. rewrite Hc.
  destruct (c =? 46) eqn:Hdot; [|done].
  apply N.eqb_eq in Hdot. subst c. discriminate.
Qed.

Lemma matchAt_literal (word s : list N) :
  matchAt (map AChar word) s = startsWith word s.
Proof.
  revert s. induction word as [|c word IH]; intros [|d s]; simpl; try done.
  by rewrite IH.
Qed.

Lemma GetSubstitution_other (matched before after : list N) (c : N)
    (t : list N) :
  c ≠ 36 →
  GetSubstitution matched before after (c :: t)
  = c :: GetSubstitution matched before after t.
Proof.
  intros Hc. destruct c as [|p]; [reflexivity|].
  do 6 (try destruct p as [p|p|]); try reflexivity; by contradict Hc.
Qed.

Lemma GetSubstitution_plain (matched before after template : list N) :
  ¬ In 36 template →
  GetSubstitution matched before after template = template.
Proof.
  induction template as [|c t IH]; intros Hno; [reflexivity|].
  rewrite GetSubstitution_other by (intros ->; apply Hno; by left).
  rewrite IH; [done|]. intros Hin. apply Hno. by right.
Qed.

Lemma replaceScan_literal (word template : list N) :
  ¬ In 36 template →
  ∀ s seen skip,
    replaceScan (map AChar word) template seen s skip
    = replaceLiteral word template s skip.
Proof.
  intros Hno. induction s as [|c s IH]; intros seen skip; [reflexivity|].
  simpl. destruct skip as [|k]; [|apply IH].
  rewrite (matchAt_literal word (c :: s)). simpl.
  destruct (startsWith word (c :: s)).
  - rewrite GetSubstitution_plain by done. rewrite IH.
    by rewrite length_map.
  - by rewrite IH.
Qed.

(** For a word without syntax characters and a replacement without a
    dollar sign, a conforming engine replaces exactly the plain-string
    occurrences of the word. *)
Lemma literal_word_replaced_literally (E : RegExpEngine)
    (word template subject : list N) :
  conforms E →
  word ≠ [] →
  forallb (λ c, negb (isSyntaxCharacter c)) word = true →
  ¬ In 36 template →
  replace_g E word subject template
  = Some (replaceLiteral word template subject 0).
Proof.
  intros Hconf Hne Hlit Hno.
  rewrite (Hconf word (map AChar word) subject template).
  - by rewrite replaceScan_literal.
  - by apply parseFragment_literal.
  - destruct word; [contradiction | discriminate].
Qed.

(** ** The translation client *)

#[local] Hint Resolve annotateWordInText_grows annotateWordInText_same_config
  : statements.

Section ClientFacts.

Context {Dom : Type} `{DomApi Dom}.
Variable env : Env.

Lemma net_app (a b : list Event) : net (a ++ b) = net a ++ net b.
Proof. unfold net. induction a as [|ev a IH]; simpl; [done|]. destruct (isNet ev); simpl; by rewrite IH. Qed.

Lemma turns_app (a b : list Event) : turns (a ++ b) = turns a ++ turns b.
Proof. unfold turns. apply flat_map_app. Qed.

Lemma quiet_net (q : list Event) : Forall quiet q → net q = [].
Proof.
  induction 1 as [|ev q [Hn _] _ IH]; [done|].
  unfold net in *. simpl. by rewrite Hn.
Qed.

Lemma quiet_turns (q : list Event) : Forall quiet q → turns q = [].
Proof.
  induction 1 as [|ev q [_ Ht] _ IH]; [done|].
  change (ev :: q) with ([ev] ++ q). by rewrite turns_app, Ht, IH.
Qed.

Lemma requestsOf_net (tr : list Event) : requestsOf (net tr) = requestsOf tr.
Proof.
  unfold requestsOf, net. induction tr as [|ev tr IH]; [done|].
  destruct ev; simpl; by rewrite IH.
Qed.

Lemma requests_trace (w : World Dom) : requests w = requestsOf (trace w).
Proof. reflexivity. Qed.

Lemma requests_same_net (w w' : World Dom) (d : list Event) :
  trace w' = trace w ++ d → net d = [] → requests w' = requests w.
Proof.
  intros Ht Hd. rewrite !requests_trace, <- (requestsOf_net (trace w')), Ht.
  by rewrite net_app, Hd, app_nil_r, requestsOf_net.
Qed.

Lemma string_or_falsy_preview (v : option JsValue) :
  string_or_falsy v ↔ ∃ a, promptPreview v = Normal a.
Proof.
  unfold string_or_falsy, promptPreview. split.
  - intros [->|[s ->]]; [by eexists|].
    destruct (truthy _); by eexists.
  - destruct (truthy v) eqn:Ht; [|by left].
    destruct v as [[| | |s]|]; intros [a Ha]; try discriminate.
    right. by exists s.
Qed.

Lemma not_string_preview (v : option JsValue) :
  ¬ string_or_falsy v → promptPreview v = Throw TypeError.
Proof.
  intros Hn. unfold promptPreview.
  destruct (truthy v) eqn:Ht; [|exfalso; apply Hn; by left].
  destruct v as [[| | |s]|]; try reflexivity.
  exfalso. apply Hn. right. by exists s.
Qed.

Lemma classic_prompts (config : gmap string JsValue) :
  prompts_are_strings config ∨ ¬ prompts_are_strings config.
Proof.
  assert (Hdec : ∀ v, string_or_falsy v ∨ ¬ string_or_falsy v).
  { intros v. destruct (promptPreview v) as [a|e] eqn:Hp.
    - left. apply string_or_falsy_preview. by exists a.
    - right. intros Hs. apply string_or_falsy_preview in Hs as [a Ha].
      congruence. }
  unfold prompts_are_strings.
  destruct (Hdec (config !! "systemPrompt"%string)),
    (Hdec (config !! "userPromptTemplate"%string)); tauto.
Qed.

Lemma failing_throws (o : FetchOutcome) :
  failing o = true → ∃ e, apiCompletion o = Throw e.
Proof.
  destruct o as [|r]; simpl; [by eexists|].
  destruct (ok r); simpl; [|by eexists].
  destruct (json r); [discriminate | by eexists].
Qed.

Lemma ensureConfig_run (w : World Dom) :
  ∃ pre,
    ensureConfig env w
    = ({| dom := dom w; translatorConfig := Some (effective_config env w);
          trace := trace w ++ pre |}, Normal tt)
    ∧ Forall quiet pre.
Proof.
  unfold ensureConfig, bind, read, effective_config.
  destruct w as [d [c|] tr]; simpl.
  - exists []. by rewrite app_nil_r.
  - eexists [_]. split; [reflexivity|]. constructor; [by split | constructor].
Qed.

Lemma postSentence_run (config : gmap string JsValue) (s : list N)
    (w : World Dom) :
  let r := requestFor env config s in
  let o := fetch_outcome env (length (requests w)) r in
  let call := postSentence env config s in
  dom (exec call w) = dom w
  ∧ translatorConfig (exec call w) = translatorConfig w
  ∧ ∃ pre post, Forall quiet pre ∧ Forall quiet post
    ∧ ((¬ prompts_are_strings config
        ∧ trace (exec call w) = trace w ++ pre
        ∧ completion call w = Throw TypeError)
       ∨ (prompts_are_strings config
          ∧ trace (exec call w)
            = trace w ++ pre ++ [EvFetch r; EvSettled o] ++ post
          ∧ completion call w = apiCompletion o)).
Proof.
  intros r o call. subst call. unfold postSentence, exec, completion.
  destruct (promptPreview (config !! "systemPrompt"%string)) as [a|e] eqn:Hsp.
  2: { assert (Hn : ¬ string_or_falsy (config !! "systemPrompt"%string)).
       { intros Hs. apply string_or_falsy_preview in Hs as [a Ha]. congruence. }
       rewrite (not_string_preview _ Hn) in Hsp. injection Hsp as <-.
       unfold bind, emit, lift. simpl.
       split; [reflexivity|]. split; [reflexivity|].
       exists [LogApiCall (url r)], []. split; [repeat constructor|]. split; [constructor|].
       left. split; [|by split]. intros [Hs _]. contradiction. }
  destruct (promptPreview (config !! "userPromptTemplate"%string)) as [b|e] eqn:Hup.
  2: { assert (Hn : ¬ string_or_falsy (config !! "userPromptTemplate"%string)).
       { intros Hs. apply string_or_falsy_preview in Hs as [b Hb]. congruence. }
       rewrite (not_string_preview _ Hn) in Hup. injection Hup as <-.
       unfold bind, emit, lift. simpl.
       split; [reflexivity|]. split; [reflexivity|].
       exists [LogApiCall (url r)], []. split; [repeat constructor|]. split; [constructor|].
       left. split; [|by split]. intros [_ Hs]. contradiction. }
  assert (Hok : prompts_are_strings config).
  { split; apply string_or_falsy_preview; by eexists. }
  assert (Hreq : length (requests
                   {| dom := dom w; translatorConfig := translatorConfig w;
                      trace := (trace w ++ [LogApiCall (url r)])
                               ++ [LogApiConfig a b] |})
                 = length (requests w)).
  { f_equal.
    apply (requests_same_net w _ [LogApiCall (url r); LogApiConfig a b]);
      [|reflexivity].
    simpl. by rewrite <- app_assoc. }
  unfold fetch. unfold bind, emit, lift, try_catch, read, throw, ret. simpl.
  unfold r in Hreq. simpl in Hreq. rewrite Hreq.
  assert (Ho : o = fetch_outcome env (length (requests w))
                     (requestFor env config s)) by reflexivity.
  unfold requestFor in Ho. rewrite <- Ho. clearbody o. clear Hreq.
  destruct o as [|resp]; simpl.
  - split; [reflexivity|]. split; [reflexivity|].
    exists [LogApiCall (url r); LogApiConfig a b], [LogApiFailed FetchFailed].
    split; [repeat constructor|]. split; [repeat constructor|].
    right. split; [done|]. split; [|reflexivity]. by rewrite <- !app_assoc.
  - destruct (ok resp); simpl.
    + destruct (json resp); simpl.
      * split; [reflexivity|]. split; [reflexivity|].
        exists [LogApiCall (url r); LogApiConfig a b], [].
        split; [repeat constructor|]. split; [repeat constructor|].
        right. split; [done|]. split; [|reflexivity]. by rewrite <- !app_assoc.
      * split; [reflexivity|]. split; [reflexivity|].
        exists [LogApiCall (url r); LogApiConfig a b],
          [LogApiFailed JsonParseError].
        split; [repeat constructor|]. split; [repeat constructor|].
        right. split; [done|]. split; [|reflexivity]. by rewrite <- !app_assoc.
    + split; [reflexivity|]. split; [reflexivity|].
      exists [LogApiCall (url r); LogApiConfig a b],
        [LogApiFailed (HttpError (status_code resp))].
      split; [repeat constructor|]. split; [repeat constructor|].
      right. split; [done|]. split; [|reflexivity]. by rewrite <- !app_assoc.
Qed.

Lemma callTranslateAPI_unfold (s : list N) (w : World Dom) :
  ∃ pre, Forall quiet pre
    ∧ callTranslateAPI env s w
      = postSentence env (effective_config env w) s
          {| dom := dom w; translatorConfig := Some (effective_config env w);
             trace := trace w ++ pre |}.
Proof.
  destruct (ensureConfig_run w) as (pre & Hrun & Hq).
  exists pre. split; [exact Hq|].
  unfold callTranslateAPI, bind at 1. rewrite Hrun. reflexivity.
Qed.

(** One call of [callTranslateAPI]: it leaves the document alone, leaves
    the effective configuration in [translatorConfig], and either throws a
    TypeError before any request (a prompt is neither falsy nor a string),
    or sends exactly one request and completes as the outcome of that
    request says. *)
Lemma callTranslateAPI_run (s : list N) (w : World Dom) :
  let config := effective_config env w in
  let r := requestFor env config s in
  let o := fetch_outcome env (length (requests w)) r in
  let call := callTranslateAPI env s in
  dom (exec call w) = dom w
  ∧ translatorConfig (exec call w) = Some config
  ∧ ∃ pre post, Forall quiet pre ∧ Forall quiet post
    ∧ ((¬ prompts_are_strings config
        ∧ trace (exec call w) = trace w ++ pre
        ∧ completion call w = Throw TypeError)
       ∨ (prompts_are_strings config
          ∧ trace (exec call w)
            = trace w ++ pre ++ [EvFetch r; EvSettled o] ++ post
          ∧ completion call w = apiCompletion o)).
Proof.
  intros config r o call.
  destruct (callTranslateAPI_unfold s w) as (pre0 & Hq0 & Hcall).
  set (w1 := {| dom := dom w; translatorConfig := Some config;
                trace := trace w ++ pre0 |}).
  assert (Hreq : requests w1 = requests w).
  { apply (requests_same_net w w1 pre0); [reflexivity | by apply quiet_net]. }
  destruct (postSentence_run config s w1) as (Hd & Hc & pre & post & Hq & Hq' & Hcases).
  rewrite Hreq in Hcases. fold r o in Hcases.
  subst call. unfold exec, completion in *. fold config w1 in Hcall.
  rewrite Hcall.
  split; [exact Hd|]. split; [exact Hc|].
  exists (pre0 ++ pre), post.
  split; [by apply Forall_app|]. split; [exact Hq'|].
  destruct Hcases as [(Hn & Ht & Hthrow)|(Hok & Ht & Hdone)]; [left|right];
    (split; [done|]); (split; [|done]); rewrite Ht; simpl;
    by rewrite <- !app_assoc.
Qed.

(** What the loop does with the result of a call. *)
Lemma handleResult_grows (i : nat) (textData : TextCandidate)
    (result : JsonValue) :
  preserves (grows quiet)
    (match validResult result with
     | Some (target_word, translation) =>
         bind (emit (LogFound target_word translation))
           (λ _, annotateWordInText env (word_id env i) textData target_word
                   translation)
     | None => emit LogNoValidResult
     end).
Proof. walk_statement ltac:(by split). Qed.

Lemma handleResult_same_config (i : nat) (textData : TextCandidate)
    (result : JsonValue) :
  preserves same_config
    (match validResult result with
     | Some (target_word, translation) =>
         bind (emit (LogFound target_word translation))
           (λ _, annotateWordInText env (word_id env i) textData target_word
                   translation)
     | None => emit LogNoValidResult
     end).
Proof. walk_statement idtac. Qed.

(** One turn of the loop, after its call: quiet events and the wait are
    added, the turn completes normally, and a call that throws leaves the
    document to the handler, which only logs. *)
Lemma translateOne_shape (i : nat) (textData : TextCandidate) (w : World Dom) :
  let w0 := exec (emit (LogTranslating i (text textData))) w in
  let call := callTranslateAPI env (text textData) in
  ∃ q wf, Forall quiet q
    ∧ translateOne env i textData w = (wf, Normal tt)
    ∧ trace wf = trace (exec call w0) ++ q ++ [EvDelay 500]
    ∧ translatorConfig wf = translatorConfig (exec call w0)
    ∧ ((∃ e, completion call w0 = Throw e) → dom wf = dom (exec call w0)).
Proof.
  intros w0 call. unfold translateOne, exec, completion.
  unfold bind at 1. unfold emit at 1.
  change {| dom := dom w; translatorConfig := translatorConfig w;
            trace := trace w ++ [LogTranslating i (text textData)] |} with w0.
  unfold bind at 1, try_catch, bind at 1. fold call.
  destruct (call w0) as [w2 [result|e]] eqn:Hcall; cbn [fst snd].
  - pose proof (handleResult_grows i textData result w2) as (q & Hq & HF).
    pose proof (handleResult_same_config i textData result w2) as Hsame.
    unfold exec, same_config in *.
    destruct (match validResult result with _ => _ end w2) as [w3 [[]|e]];
      cbn [fst snd] in *.
    + exists q. eexists. split; [done|]. split; [reflexivity|]. cbn.
      rewrite Hq, <- app_assoc.
      split; [done|]. split; [done|]. intros [e He]. discriminate.
    + exists (q ++ [LogTranslateFailed e]). eexists.
      split; [apply Forall_app; split; [done | repeat constructor]|].
      split; [reflexivity|]. cbn. rewrite Hq, <- !app_assoc.
      split; [done|]. split; [done|]. intros [e' He]. discriminate.
  - exists [LogTranslateFailed e]. eexists.
    split; [repeat constructor|]. split; [reflexivity|]. cbn.
    rewrite <- !app_assoc. by repeat split.
Qed.

Lemma requestsOf_app (a b : list Event) :
  requestsOf (a ++ b) = requestsOf a ++ requestsOf b.
Proof. unfold requestsOf. apply flat_map_app. Qed.

Lemma requests_from_net (w w' : World Dom) (d : list Event) :
  net (trace w') = net (trace w) ++ d →
  requests w' = requests w ++ requestsOf d.
Proof.
  intros Hn.
  rewrite !requests_trace, <- (requestsOf_net (trace w')), Hn, requestsOf_app.
  by rewrite requestsOf_net.
Qed.

(** One turn of the loop. *)
Lemma translateOne_run (i : nat) (textData : TextCandidate) (w : World Dom) :
  let config := effective_config env w in
  let r := requestFor env config (text textData) in
  let o := fetch_outcome env (length (requests w)) r in
  ∃ wf, translateOne env i textData w = (wf, Normal tt)
    ∧ translatorConfig wf = Some config
    ∧ turns (trace wf) = turns (trace w) ++ [(i, text textData)]
    ∧ (prompts_are_strings config →
       net (trace wf) = net (trace w) ++ [EvFetch r; EvSettled o; EvDelay 500])
    ∧ (¬ prompts_are_strings config →
       net (trace wf) = net (trace w) ++ [EvDelay 500])
    ∧ (failing o = true ∨ ¬ prompts_are_strings config → dom wf = dom w).
Proof.
  intros config r o.
  destruct (translateOne_shape i textData w)
    as (q & wf & Hq & Hrun & Htrace & Hconf & Hdom).
  set (w0 := exec (emit (LogTranslating i (text textData))) w) in *.
  destruct (callTranslateAPI_run (text textData) w0)
    as (Hd & Hc & pre & post & Hpre & Hpost & Hcases).
  change (effective_config env w0) with config in *.
  assert (Hreq0 : requests w0 = requests w)
    by (apply (requests_same_net w w0 [LogTranslating i (text textData)]);
        reflexivity).
  rewrite Hreq0 in Hcases. cbv zeta in Hcases. fold r o in Hcases.
  exists wf. split; [exact Hrun|]. split; [congruence|].
  assert (Ht0 : trace w0 = trace w ++ [LogTranslating i (text textData)])
    by reflexivity.
  destruct Hcases as [(Hn & Ht & Hthrow)|(Hok & Ht & Hdone)].
  - rewrite Htrace, Ht, Ht0.
    split; [|split; [|split]].
    + rewrite !turns_app, (quiet_turns pre), (quiet_turns q) by done.
      simpl. by rewrite !app_nil_r.
    + intros Hok. contradiction.
    + intros _. rewrite !net_app, (quiet_net pre), (quiet_net q) by done.
      simpl. by rewrite !app_nil_r.
    + intros _. rewrite Hdom by (by exists TypeError). exact Hd.
  - rewrite Htrace, Ht, Ht0.
    split; [|split; [|split]].
    + rewrite !turns_app, (quiet_turns pre), (quiet_turns post),
        (quiet_turns q) by done.
      simpl. by rewrite !app_nil_r.
    + intros _. rewrite !net_app, (quiet_net pre), (quiet_net post),
        (quiet_net q) by done.
      simpl. by rewrite !app_nil_r, <- !app_assoc.
    + intros Hn. contradiction.
    + intros [Hfail|Hn]; [|contradiction].
      destruct (failing_throws o Hfail) as [e He].
      rewrite Hdom; [exact Hd|]. exists e. congruence.
Qed.

Lemma translateFrom_run (selectedTexts : list TextCandidate) :
  ∀ (i : nat) (w : World Dom),
    let config := effective_config env w in
    ∃ wf, translateFrom env i selectedTexts w = (wf, Normal tt)
      ∧ effective_config env wf = config
      ∧ turns (trace wf) = turns (trace w) ++ turnsOf i selectedTexts
      ∧ (prompts_are_strings config →
         net (trace wf)
         = net (trace w) ++ netOf env config (length (requests w)) selectedTexts).
Proof.
  induction selectedTexts as [|textData rest IH]; intros i w config.
  - exists w. simpl. rewrite !app_nil_r. by repeat split.
  - destruct (translateOne_run i textData w)
      as (w1 & Hrun & Hc1 & Ht1 & Hn1 & _ & _).
    fold config in Hc1, Hn1.
    assert (Heff : effective_config env w1 = config)
      by (unfold effective_config; by rewrite Hc1).
    destruct (IH (S i) w1) as (wf & Hrest & Hcf & Htf & Hnf).
    rewrite Heff in Hcf, Hnf.
    exists wf. simpl. unfold bind. rewrite Hrun.
    split; [exact Hrest|]. split; [exact Hcf|]. split.
    + rewrite Htf, Ht1, <- app_assoc. reflexivity.
    + intros Hok. rewrite (Hnf Hok), (Hn1 Hok), <- app_assoc.
      rewrite (requests_from_net w w1 _ (Hn1 Hok)), length_app. simpl.
      by rewrite Nat.add_1_r.
Qed.

Lemma translateFrom_app (before after : list TextCandidate) :
  ∀ (i : nat) (w : World Dom),
    translateFrom env i (before ++ after) w
    = translateFrom env (i + length before) after
        (exec (translateFrom env i before) w).
Proof.
  induction before as [|textData before IH]; intros i w.
  - simpl. by rewrite Nat.add_0_r.
  - destruct (translateOne_run i textData w) as (w1 & Hrun & _).
    simpl. unfold exec, bind. rewrite Hrun. cbn [fst snd].
    rewrite IH. unfold exec. by rewrite Nat.add_succ_r.
Qed.

(** The loop by its structure: a turn is a [try] whose handler only logs,
    between two statements that only log or wait, so no turn throws. *)
Lemma translateOne_never_throws (i : nat) (textData : TextCandidate) :
  never_throws (translateOne env i textData).
Proof.
  unfold translateOne.
  apply never_throws_bind; [apply never_throws_emit | intros _].
  apply never_throws_bind; [| intros _; apply never_throws_emit].
  apply never_throws_try_catch. intros e. apply never_throws_emit.
Qed.

Lemma translateFrom_never_throws (selectedTexts : list TextCandidate) :
  ∀ i, never_throws (translateFrom env i selectedTexts).
Proof.
  induction selectedTexts as [|textData rest IH]; intros i; simpl.
  - apply never_throws_ret.
  - apply never_throws_bind; [apply translateOne_never_throws | intros _].
    apply IH.
Qed.

Lemma translateSelectedTexts_never_throws (selectedTexts : list TextCandidate) :
  never_throws (translateSelectedTexts env selectedTexts).
Proof.
  unfold translateSelectedTexts.
  apply never_throws_bind; [apply never_throws_emit | intros _].
  apply never_throws_bind; [apply translateFrom_never_throws | intros _].
  apply never_throws_emit.
Qed.

Lemma requestsOf_netOf (config : gmap string JsValue) (k : nat)
    (selectedTexts : list TextCandidate) :
  requestsOf (netOf env config k selectedTexts)
  = map (λ textData, requestFor env config (text textData)) selectedTexts.
Proof.
  revert k. induction selectedTexts as [|textData rest IH]; intros k;
    [reflexivity|].
  simpl. f_equal. apply IH.
Qed.

Lemma translateFrom_without_prompts (selectedTexts : list TextCandidate) :
  ∀ (i : nat) (w : World Dom),
    ¬ prompts_are_strings (effective_config env w) →
    requests (exec (translateFrom env i selectedTexts) w) = requests w.
Proof.
  induction selectedTexts as [|textData rest IH]; intros i w Hbad;
    [reflexivity|].
  destruct (translateOne_run i textData w)
    as (w1 & Hrun & Hc1 & _ & _ & Hn1 & _).
  assert (Heff : effective_config env w1 = effective_config env w)
    by (unfold effective_config at 1; by rewrite Hc1).
  cbn [translateFrom]. unfold exec, bind. rewrite Hrun.
  fold (exec (translateFrom env (S i) rest) w1).
  rewrite IH by (by rewrite Heff).
  rewrite (requests_from_net w w1 _ (Hn1 Hbad)). cbn. by rewrite app_nil_r.
Qed.

(** A pass: it completes normally, and it sends the requests of the
    selection when the prompts are strings, and none otherwise. *)
Lemma translateSelectedTexts_requests (selectedTexts : list TextCandidate)
    (w : World Dom) :
  let config := effective_config env w in
  ∃ wf, translateSelectedTexts env selectedTexts w = (wf, Normal tt)
    ∧ ((prompts_are_strings config
        ∧ requests wf
          = requests w
            ++ map (λ textData, requestFor env config (text textData))
                 selectedTexts)
       ∨ (¬ prompts_are_strings config ∧ requests wf = requests w)).
Proof.
  intros config.
  set (w0 := exec (emit LogStart) w).
  assert (Hreq0 : requests w0 = requests w)
    by (apply (requests_same_net w w0 [LogStart]); reflexivity).
  destruct (translateFrom_run selectedTexts 0 w0)
    as (wf & Hrun & _ & _ & Hnet).
  change (effective_config env w0) with config in Hnet.
  exists (exec (emit LogDone) wf). split.
  { unfold translateSelectedTexts. unfold bind at 1.
    change (emit LogStart w) with (w0, @Normal unit tt). cbv iota beta.
    unfold bind. by rewrite Hrun. }
  assert (Hdone : requests (exec (emit LogDone) wf) = requests wf)
    by (apply (requests_same_net wf _ [LogDone]); reflexivity).
  rewrite Hdone.
  destruct (classic_prompts config) as [Hok|Hbad]; [left | right];
    (split; [done|]).
  - rewrite (requests_from_net w0 wf _ (Hnet Hok)), Hreq0.
    by rewrite requestsOf_netOf.
  - pose proof (translateFrom_without_prompts selectedTexts 0 w0 Hbad) as Hq.
    unfold exec in Hq at 1. rewrite Hrun in Hq. cbn [fst] in Hq.
    by rewrite Hq.
Qed.


(** What [annotateWordInText] does to the document depends on the document
    only. *)
Lemma annotateWordInText_dom_only (id : list N) (textData : TextCandidate)
    (targetWord translation : list N) (w w' : World Dom) :
  dom w = dom w' →
  dom (exec (annotateWordInText env id textData targetWord translation) w)
  = dom (exec (annotateWordInText env id textData targetWord translation) w').
Proof.
  intros Hd. destruct w as [d c tr], w' as [d' c' tr']. cbn in Hd. subst d'.
  unfold exec, annotateWordInText.
  destruct (includes (text textData) targetWord); [|reflexivity].
  unfold annotateAsText, regexReplace, bind, emit, read, set_dom, ret, throw.
  cbn [dom trace translatorConfig].
  destruct (innerHTML d (parent textData)) as [html|].
  - destruct (replace_g (regexp env) targetWord html _) as [newHTML|];
      [|reflexivity].
    destruct (set_innerHTML d (parent textData) newHTML) as [d2|];
      [reflexivity|].
    cbn [dom trace translatorConfig].
    destruct (replace_g (regexp env) targetWord (text textData) _)
      as [newText|]; [|reflexivity].
    cbn [dom trace translatorConfig].
    destruct (set_textContent d (node textData) newText); reflexivity.
  - destruct (replace_g (regexp env) targetWord (text textData) _)
      as [newText|]; [|reflexivity].
    cbn [dom trace translatorConfig].
    destruct (set_textContent d (node textData) newText); reflexivity.
Qed.

(** A turn whose request is answered with a valid result: the document
    after the turn is the one [annotateWordInText] makes of the document
    from before the turn. *)
Lemma translateOne_answered (i : nat) (textData : TextCandidate)
    (w : World Dom) (r : Response) (result : JsonValue)
    (target_word translation : list N) :
  let config := effective_config env w in
  let request := requestFor env config (text textData) in
  prompts_are_strings config →
  fetch_outcome env (length (requests w)) request = FetchResponse r →
  ok r = true → json r = Some result →
  validResult result = Some (target_word, translation) →
  dom (exec (translateOne env i textData) w)
  = dom (exec (annotateWordInText env (word_id env i) textData target_word
                 translation) w).
Proof.
  intros config request Hok Hout Hr Hjson Hvalid.
  set (w0 := exec (emit (LogTranslating i (text textData))) w).
  destruct (callTranslateAPI_run (text textData) w0)
    as (Hd & _ & pre & post & _ & _ & Hcases).
  change (effective_config env w0) with config in Hcases.
  assert (Hreq0 : requests w0 = requests w)
    by (apply (requests_same_net w w0 [LogTranslating i (text textData)]);
        reflexivity).
  rewrite Hreq0 in Hcases. cbv zeta in Hcases. fold request in Hcases.
  rewrite Hout in Hcases.
  destruct Hcases as [(Hn & _)|(_ & _ & Hdone)]; [contradiction|].
  cbn [apiCompletion] in Hdone. rewrite Hr, Hjson in Hdone.
  cbn [negb] in Hdone.
  unfold completion, exec in Hd, Hdone.
  destruct (callTranslateAPI env (text textData) w0) as [w1 c] eqn:Hrun.
  cbn [fst snd] in Hd, Hdone. subst c.
  set (w2 := exec (emit (LogFound target_word translation)) w1).
  assert (Hone : dom (exec (translateOne env i textData) w)
                 = dom (exec (annotateWordInText env (word_id env i) textData
                                target_word translation) w2)).
  { unfold exec at 1. unfold translateOne. unfold bind at 1. unfold emit at 1.
    change {| dom := dom w; translatorConfig := translatorConfig w;
              trace := trace w ++ [LogTranslating i (text textData)] |}
      with w0.
    unfold bind at 1, try_catch, bind at 1. rewrite Hrun, Hvalid.
    unfold bind at 1. change (emit (LogFound target_word translation) w1)
      with (w2, @Normal unit tt). cbv iota beta.
    unfold exec.
    destruct (annotateWordInText env (word_id env i) textData target_word
                translation w2) as [w3 [[]|e]]; reflexivity. }
  rewrite Hone. apply annotateWordInText_dom_only.
  subst w2 w0. cbn. exact Hd.
Qed.

(** C6. A translation pass always completes normally: whatever the
    requests come to, no exception leaves [translateSelectedTexts]. Every
    selected item gets its turn, once and in the order of the list, and
    (the prompts being strings) exactly one request is sent for every item,
    whether earlier items failed or not. For every item of the list, with
    the items before it processed: its turn completes normally and the pass
    goes on with the items after it; its request is sent once; when its call
    fails (the request is rejected, the response is not 2xx, or its body is
    not JSON), the turn leaves the document as it was and nothing is tried
    again; and when its request is answered with a target word and a
    translation, the document after the turn is the one
    [annotateWordInText] makes for that item, so an item that follows a
    failed one is translated and annotated as if nothing had failed. *)
Theorem translation_failure_skips_one_item
    (selectedTexts : list TextCandidate) (w : World Dom) :
  let pass := translateSelectedTexts env selectedTexts in
  let config := effective_config env w in
  completion pass w = Normal tt
  ∧ turns (trace (exec pass w)) = turns (trace w) ++ turnsOf 0 selectedTexts
  ∧ (prompts_are_strings config →
     requests (exec pass w)
     = requests w
       ++ map (λ textData, requestFor env config (text textData))
            selectedTexts)
  ∧ ∀ before textData after,
      selectedTexts = before ++ textData :: after →
      let w1 := exec (translateFrom env 0 before) (exec (emit LogStart) w) in
      let turn := translateOne env (length before) textData in
      let request := requestFor env config (text textData) in
      let outcome := fetch_outcome env (length (requests w1)) request in
      completion turn w1 = Normal tt
      ∧ exec pass w
        = exec (emit LogDone)
            (exec (translateFrom env (S (length before)) after) (exec turn w1))
      ∧ (prompts_are_strings config →
         requests w1
         = requests w
           ++ map (λ textData, requestFor env config (text textData)) before
         ∧ requests (exec turn w1) = requests w1 ++ [request])
      ∧ (failing outcome = true →
         dom (exec turn w1) = dom w1
         ∧ (length (requests (exec turn w1)) ≤ S (length (requests w1)))%nat)
      ∧ (∀ r result target_word translation,
           prompts_are_strings config →
           outcome = FetchResponse r → ok r = true → json r = Some result →
           validResult result = Some (target_word, translation) →
           dom (exec turn w1)
           = dom (exec (annotateWordInText env (word_id env (length before))
                          textData target_word translation) w1)).
Proof.
  intros pass config.
  set (w0 := exec (emit LogStart) w).
  destruct (translateFrom_run selectedTexts 0 w0)
    as (wf & Hrun & _ & Hturns & _).
  assert (Hpass : pass w = (exec (emit LogDone) wf, Normal tt)).
  { subst pass. unfold translateSelectedTexts. unfold bind at 1.
    change (emit LogStart w) with (w0, @Normal unit tt). cbv iota beta.
    unfold bind. by rewrite Hrun. }
  split; [unfold completion; by rewrite Hpass|]. split.
  { unfold exec at 1. rewrite Hpass. unfold exec, emit. cbn.
    rewrite turns_app, Hturns. subst w0. unfold exec, emit. cbn.
    rewrite turns_app. simpl. by rewrite !app_nil_r. }
  split.
  { intros Hok.
    destruct (translateSelectedTexts_requests selectedTexts w)
      as (wf' & Hrun' & [[_ Hsent]|[Hbad _]]); [|contradiction].
    unfold exec. fold pass in Hrun'. by rewrite Hrun'. }
  intros before textData after Hsel w1 turn request outcome.
  assert (Hreq0 : requests w0 = requests w)
    by (apply (requests_same_net w w0 [LogStart]); reflexivity).
  destruct (translateFrom_run before 0 w0) as (wb & Hrunb & Hcb & _ & Hnetb).
  change (effective_config env w0) with config in Hcb, Hnetb.
  assert (Hw1 : w1 = wb) by (subst w1; unfold exec; by rewrite Hrunb).
  assert (Heff : effective_config env w1 = config) by (by rewrite Hw1).
  destruct (translateOne_run (length before) textData w1)
    as (w2 & Hturn & _ & _ & Hok & Hbad & Hdom).
  rewrite Heff in Hok, Hbad, Hdom. fold request outcome in Hok, Hdom.
  fold turn in Hturn.
  assert (Hw2 : exec turn w1 = w2) by (unfold exec; by rewrite Hturn).
  rewrite Hw2.
  split; [unfold completion; by rewrite Hturn|]. split.
  { rewrite Hsel, translateFrom_app in Hrun. simpl in Hrun.
    unfold bind in Hrun. fold w1 turn in Hrun. rewrite Hturn in Hrun.
    unfold exec at 1. rewrite Hpass. cbn [fst]. f_equal.
    unfold exec at 1. by rewrite Hrun. }
  split.
  { intros Hp. split.
    - rewrite Hw1, (requests_from_net w0 wb _ (Hnetb Hp)), Hreq0.
      by rewrite requestsOf_netOf.
    - by rewrite (requests_from_net w1 w2 _ (Hok Hp)). }
  split.
  { intros Hfail. split; [apply Hdom; by left|].
    destruct (classic_prompts config) as [Hp|Hp].
    + rewrite (requests_from_net w1 w2 _ (Hok Hp)), length_app. simpl. lia.
    + rewrite (requests_from_net w1 w2 _ (Hbad Hp)), length_app. simpl. lia. }
  intros r result target_word translation Hp Hout Hr Hjson Hvalid.
  rewrite <- Hw2. subst turn.
  apply (translateOne_answered (length before) textData w1 r result);
    rewrite ?Heff; done.
Qed.

(** The prompts of a configuration that [loadTranslatorConfig] reads are
    strings or falsy when the stored ones are: a prompt that is not stored
    is the default of the script, which is a string. *)
Lemma stored_prompts_load_as_strings (w : World Dom) :
  translatorConfig w = None →
  (∀ stored, storage_get env = GetResolved (Some stored) →
     (stored !! "systemPrompt"%string = None
      ∨ string_or_falsy (stored !! "systemPrompt"%string))
     ∧ (stored !! "userPromptTemplate"%string = None
        ∨ string_or_falsy (stored !! "userPromptTemplate"%string))) →
  prompts_are_strings (effective_config env w).
Proof.
  intros Hnone Hstored. unfold effective_config. rewrite Hnone.
  assert (Hdefault : ∀ k s, Content.DEFAULT_CONFIG !! k = Some (VStr s) →
            string_or_falsy (defaultsOnly Content.DEFAULT_CONFIG (date_now env)
                               !! k)).
  { intros k s Hk. right. exists s. by apply defaultsOnly_lookup. }
  assert (Hmerged : ∀ stored k s,
            k ≠ "lastUpdated"%string →
            Content.DEFAULT_CONFIG !! k = Some (VStr s) →
            stored !! k = None ∨ string_or_falsy (stored !! k) →
            string_or_falsy
              (mergeConfig Content.DEFAULT_CONFIG stored (date_now env) !! k)).
  { intros stored k s Hk Hd [Habsent|Hs].
    - right. exists s. by apply mergeConfig_absent.
    - destruct (stored !! k) as [v|] eqn:Hv.
      + by rewrite (mergeConfig_present _ _ _ k v Hk Hv).
      + right. exists s. by apply mergeConfig_absent. }
  unfold prompts_are_strings, Content.loadTranslatorConfig.
  destruct (chrome_storage env);
    [|split; eapply Hdefault; reflexivity].
  destruct (storage_get env) as [|[stored|]] eqn:Hget.
  - split; eapply Hdefault; reflexivity.
  - destruct (Hstored stored eq_refl) as [Hsp Hup]. cbn [stored_or_empty].
    split; eapply Hmerged; try reflexivity; done.
  - cbn [stored_or_empty].
    split; eapply Hmerged; try reflexivity; try done; by left.
Qed.

(** C8. A pass sends one POST request to [{serverUrl}/translate] for every
    selected candidate, in the order of the list and one at a time: each
    request settles and the wait of 500 ms passes before the next one is
    sent, and the sentences of the requests are the texts of the
    candidates. The prompts of the configuration in effect are strings or
    falsy, as they are in every configuration the extension writes (the
    settings form, the reset and the installation store strings) or reads
    ([stored_prompts_load_as_strings]). *)
Theorem requests_follow_selection
    (selectedTexts : list TextCandidate) (w : World Dom) :
  prompts_are_strings (effective_config env w) →
  let config := effective_config env w in
  let pass := translateSelectedTexts env selectedTexts in
  let sent := map (λ textData, requestFor env config (text textData))
                selectedTexts in
  net (trace (exec pass w))
  = net (trace w) ++ netOf env config (length (requests w)) selectedTexts
  ∧ requests (exec pass w) = requests w ++ sent
  ∧ map sentence sent = map text selectedTexts
  ∧ Forall (λ r, url r = ToString (Number_toString env)
                          (config !! "serverUrl"%string) ++ js "/translate"
                 ∧ method r = js "POST") sent.
Proof.
  intros Hok config pass sent.
  assert (Hnet : net (trace (exec pass w))
                 = net (trace w)
                   ++ netOf env config (length (requests w)) selectedTexts).
  { subst pass. unfold translateSelectedTexts, exec.
    unfold bind at 1. unfold emit at 1.
    set (w0 := {| dom := dom w; translatorConfig := translatorConfig w;
                  trace := trace w ++ [LogStart] |}).
    destruct (translateFrom_run selectedTexts 0 w0)
      as (wf & Hrun & _ & _ & Hnet).
    unfold bind. rewrite Hrun. unfold emit. cbn.
    rewrite net_app, (Hnet Hok). subst w0. cbn.
    rewrite net_app. simpl. rewrite !app_nil_r.
    do 2 f_equal.
    change (length (requestsOf (trace w ++ [LogStart]))
            = length (requestsOf (trace w))).
    rewrite requestsOf_app. simpl. by rewrite app_nil_r. }
  split; [exact Hnet|]. split.
  { rewrite (requests_from_net w _ _ Hnet). f_equal. apply requestsOf_netOf. }
  split.
  { subst sent. rewrite map_map. reflexivity. }
  subst sent. clear Hnet.
  induction selectedTexts as [|textData rest IH]; constructor;
    [by split | exact IH].
Qed.

End ClientFacts.

Lemma sample_prompts_are_strings :
  prompts_are_strings
    (effective_config (sampleEnv None FetchRejected) sampleWorld).
Proof.
  apply stored_prompts_load_as_strings; [reflexivity|]. intros stored [=].
Qed.

Lemma failFirst_prompts_are_strings :
  prompts_are_strings (effective_config failFirstEnv twoParagraphWorld).
Proof. split; right; eexists; reflexivity. Qed.

(** A pass over two candidates, the server answering the first request
    with status 500 and the second with the word 125: the pass completes
    normally, both requests are sent in the order of the list, the first
    paragraph is as before, and the second is annotated. *)
Lemma translation_failure_skips_one_item_witness :
  let pass :=
    translateSelectedTexts failFirstEnv [sampleTextData; secondTextData] in
  let after := exec pass twoParagraphWorld in
  completion pass twoParagraphWorld = Normal tt
  ∧ map sentence (requests after) = [sampleText; secondText]
  ∧ innerHTML (dom after) [0%nat] = Some sampleText
  ∧ innerHTML (dom after) [1%nat]
    = Some ([20849] ++ annotationMarkup (js "w1") (js "125") (js "x")
            ++ [39029]).
Proof.
  intros pass after.
  destruct (translation_failure_skips_one_item failFirstEnv
              [sampleTextData; secondTextData] twoParagraphWorld)
    as (Hnormal & _ & Hreq & _).
  split; [exact Hnormal|].
  split.
  { subst after pass. rewrite (Hreq failFirst_prompts_are_strings).
    reflexivity. }
  split; vm_compute; reflexivity.
Defined.

(** A pass over two candidates under the default configuration: two
    requests, whose sentences are the texts of the candidates in the order
    of the list. *)
Lemma requests_follow_selection_witness :
  let env := sampleEnv None FetchRejected in
  prompts_are_strings (effective_config env sampleWorld)
  ∧ map sentence
      (requests (exec (translateSelectedTexts env
                         [sampleTextData; secondTextData]) sampleWorld))
    = [sampleText; secondText].
Proof.
  intros env. split; [exact sample_prompts_are_strings|].
  destruct (requests_follow_selection env [sampleTextData; secondTextData]
              sampleWorld sample_prompts_are_strings)
    as (_ & Hreq & Hsent & _).
  rewrite Hreq. exact Hsent.
Defined.
(** * Properties of the rest of the extension *)

(** ** Trimming *)

Lemma trimStart_keeps (c : N) (s : list N) :
  isWhiteSpace c = false → trimStart (c :: s) = c :: s.
Proof. intros Hc. simpl. by rewrite Hc. Qed.

Lemma trimStart_head (s r : list N) (c : N) :
  trimStart s = c :: r → isWhiteSpace c = false.
Proof.
  induction s as [|d s IH]; simpl; [discriminate|].
  destruct (isWhiteSpace d) eqn:Hd; [exact IH|].
  intros [= <- <-]. exact Hd.
Qed.

Lemma trimStart_idem (s : list N) : trimStart (trimStart s) = trimStart s.
Proof.
  destruct (trimStart s) as [|c r] eqn:Hs; [reflexivity|].
  apply trimStart_keeps. by apply (trimStart_head s r).
Qed.

Lemma trimStart_suffix (s : list N) : ∃ p, s = p ++ trimStart s.
Proof.
  induction s as [|c s [p Hp]]; [by exists []|]. simpl.
  destruct (isWhiteSpace c); [|by exists []].
  exists (c :: p). simpl. by rewrite <- Hp.
Qed.

Lemma trimEnd_prefix (s : list N) : ∃ t, s = trimEnd s ++ t.
Proof.
  unfold trimEnd. destruct (trimStart_suffix (rev s)) as [p Hp].
  exists (rev p). rewrite <- rev_app_distr, <- Hp. by rewrite rev_involutive.
Qed.

Lemma trimEnd_idem (s : list N) : trimEnd (trimEnd s) = trimEnd s.
Proof. unfold trimEnd. by rewrite rev_involutive, trimStart_idem. Qed.

(** A trimmed string is left alone by [trim]. *)
Lemma trim_idem (s : list N) : trim (trim s) = trim s.
Proof.
  unfold trim.
  assert (Hb : trimStart (trimEnd (trimStart s)) = trimEnd (trimStart s)).
  { destruct (trimEnd (trimStart s)) as [|c r] eqn:Hb; [reflexivity|].
    apply trimStart_keeps.
    destruct (trimEnd_prefix (trimStart s)) as [t Ht]. rewrite Hb in Ht.
    by apply (trimStart_head s (r ++ t)). }
  by rewrite Hb, trimEnd_idem.
Qed.

Lemma orUnset_isEmpty (s : list N) : isEmpty (orUnset s) = false.
Proof. unfold orUnset. by destruct s. Qed.

(** ** Saving and loading the settings *)

Section SettingsFacts.

Variable URL_parse : list N → option URL.

Lemma classic_validation (form : Form) :
  validation_fails URL_parse form ∨ ¬ validation_fails URL_parse form.
Proof.
  unfold validation_fails.
  destruct (trim (serverUrlInput form)) as [|c s]; [left; by left|].
  destruct (isValidUrl URL_parse (c :: s)); [|left; right; by left].
  assert (Ha : (trim (apiUrlInput form) ≠ []
                ∧ isValidUrl URL_parse (trim (apiUrlInput form)) = false)
               ∨ ¬ (trim (apiUrlInput form) ≠ []
                    ∧ isValidUrl URL_parse (trim (apiUrlInput form)) = false)).
  { destruct (trim (apiUrlInput form)) as [|c' a]; [right; by intros [? _]|].
    destruct (isValidUrl URL_parse (c' :: a)); [right; by intros [_ ?]|].
    left. by split. }
  destruct Ha as [Ha|Ha]; [left; right; right; by left|].
  destruct (trim (userPromptTemplateInput form)) as [|c2 u].
  { right. intros [H|[H|[H|[H _]]]]; try done. }
  destruct (includes (c2 :: u) (js "{target_word}")) eqn:Ht.
  2: { left. do 3 right. split; [done | by left]. }
  destruct (includes (c2 :: u) (js "{context_sentence}")) eqn:Hc.
  2: { left. do 3 right. split; [done | by right]. }
  right. intros [H|[H|[H|[_ [H|H]]]]]; try done.
Qed.

(** A form that fails a check only changes the status. *)
Lemma saveSettings_rejects (form : Form) (now : spec_float)
    (set_resolves : bool) (st : PopupState) :
  validation_fails URL_parse form →
  ∃ m, saveSettings URL_parse form now set_resolves st
       = showStatus m status_error st.
Proof.
  intros Hfail. unfold validation_fails in Hfail. unfold saveSettings.
  destruct (isEmpty (trim (serverUrlInput form))) eqn:Hs; [by eexists|].
  destruct (isValidUrl URL_parse (trim (serverUrlInput form))) eqn:Hv;
    cbn [negb]; [|by eexists].
  destruct (isEmpty (trim (apiUrlInput form))) eqn:Ha;
    destruct (isValidUrl URL_parse (trim (apiUrlInput form))) eqn:Hv';
    cbn [negb andb]; try (by eexists);
    destruct (isEmpty (trim (userPromptTemplateInput form))) eqn:Hu;
    destruct (includes (trim (userPromptTemplateInput form))
                (js "{target_word}")) eqn:Ht;
    cbn [negb andb]; try (by eexists);
    destruct (includes (trim (userPromptTemplateInput form))
                (js "{context_sentence}")) eqn:Hc;
    cbn [negb andb]; try (by eexists);
    exfalso;
    destruct (trim (serverUrlInput form)); try discriminate;
    destruct (trim (apiUrlInput form)); try discriminate;
    destruct (trim (userPromptTemplateInput form)); try discriminate;
    destruct Hfail as [H|[H|[[H1 H2]|[H1 [H2|H2]]]]]; congruence.
Qed.

(** A form that passes every check is written as [savedConfig]. *)
Lemma saveSettings_accepts (form : Form) (now : spec_float) (st : PopupState) :
  ¬ validation_fails URL_parse form →
  saveSettings URL_parse form now true st
  = {| persisted := Some (savedConfig form now);
       set_calls := set_calls st ++ [savedConfig form now];
       status := Some (MsgSaved, status_success);
       notified := S (notified st) |}
  ∧ saveSettings URL_parse form now false st
    = {| persisted := persisted st;
         set_calls := set_calls st ++ [savedConfig form now];
         status := Some (MsgSaveFailed, status_error);
         notified := notified st |}.
Proof.
  intros Hok. unfold validation_fails in Hok. unfold saveSettings.
  destruct (isEmpty (trim (serverUrlInput form))) eqn:Hs.
  { exfalso. apply Hok. left. by destruct (trim (serverUrlInput form)). }
  destruct (isValidUrl URL_parse (trim (serverUrlInput form))) eqn:Hv;
    cbn [negb]; [|exfalso; apply Hok; right; by left].
  assert (Ha : negb (isEmpty (trim (apiUrlInput form)))
               && negb (isValidUrl URL_parse (trim (apiUrlInput form)))
               = false).
  { destruct (isEmpty (trim (apiUrlInput form))) eqn:He; [done|].
    destruct (isValidUrl URL_parse (trim (apiUrlInput form))) eqn:Hv'; [done|].
    exfalso. apply Hok. right. right. left. split; [|done].
    intros Hnil. by rewrite Hnil in He. }
  rewrite Ha.
  assert (Ht : negb (isEmpty (trim (userPromptTemplateInput form)))
               && negb (includes (trim (userPromptTemplateInput form))
                          (js "{target_word}")) = false).
  { destruct (isEmpty (trim (userPromptTemplateInput form))) eqn:He; [done|].
    destruct (includes (trim (userPromptTemplateInput form))
                (js "{target_word}")) eqn:Hi; [done|].
    exfalso. apply Hok. do 3 right. split; [|by left].
    intros Hnil. by rewrite Hnil in He. }
  rewrite Ht.
  assert (Hc : negb (isEmpty (trim (userPromptTemplateInput form)))
               && negb (includes (trim (userPromptTemplateInput form))
                          (js "{context_sentence}")) = false).
  { destruct (isEmpty (trim (userPromptTemplateInput form))) eqn:He; [done|].
    destruct (includes (trim (userPromptTemplateInput form))
                (js "{context_sentence}")) eqn:Hi; [done|].
    exfalso. apply Hok. do 3 right. split; [|by right].
    intros Hnil. by rewrite Hnil in He. }
  rewrite Hc. by split.
Qed.

Lemma savedConfig_fields (form : Form) (now : spec_float) :
  savedConfig form now !! "serverUrl"%string
    = Some (VStr (trim (serverUrlInput form)))
  ∧ savedConfig form now !! "apiUrl"%string
    = Some (VStr (trim (apiUrlInput form)))
  ∧ savedConfig form now !! "apiKey"%string
    = Some (VStr (trim (apiKeyInput form)))
  ∧ savedConfig form now !! "modelName"%string
    = Some (VStr (trim (modelNameInput form)))
  ∧ savedConfig form now !! "systemPrompt"%string
    = Some (VStr (trim (systemPromptInput form)))
  ∧ savedConfig form now !! "userPromptTemplate"%string
    = Some (VStr (trim (userPromptTemplateInput form)))
  ∧ savedConfig form now !! "lastUpdated"%string = Some (VNum now)
  ∧ savedConfig form now !! "selectionPercentage"%string = None.
Proof. repeat split. Qed.

Lemma valueOr_string (num : spec_float → list N) (s fallback : list N) :
  valueOr num (Some (VStr s)) fallback = if isEmpty s then fallback else s.
Proof. unfold valueOr, js_or. by destruct s. Qed.

Lemma isEmpty_or_self (s : list N) : (if isEmpty s then [] else s) = s.
Proof. by destruct s. Qed.

Lemma truthy_string (s : list N) :
  truthy (Some (VStr s)) = negb (isEmpty s).
Proof. by destruct s. Qed.

Lemma shortPreview_string (s : list N) :
  shortPreview (Some (VStr s)) = Normal (firstn 20 (orUnset s) ++ js "...").
Proof. unfold shortPreview, js_or, orUnset. by destruct s. Qed.

(** X1. Save, then load: when the form passes the checks and the write
    resolves, what [getStoredConfig] and [loadCurrentSettings] bring back
    (in the popup and on the settings page) is the form with every input
    trimmed, without an error, and the previews are the ones the update
    functions show for those inputs. *)
Theorem saved_settings_load_back
    (num : spec_float → list N) (form : Form) (now later : spec_float)
    (st : PopupState) (pv : Previews) :
  ¬ validation_fails URL_parse form →
  let saved := persisted (saveSettings URL_parse form now true st) in
  loadCurrentSettings num (Popup.getStoredConfig (GetResolved saved) later) pv
  = (trimmedForm form, previewsOf (trimmedForm form) pv, false)
  ∧ loadCurrentSettings num
      (Settings.getStoredConfig (GetResolved saved) later) pv
    = (trimmedForm form, previewsOf (trimmedForm form) pv, false).
Proof.
  intros Hok saved. subst saved.
  rewrite (proj1 (saveSettings_accepts form now st Hok)). cbn [persisted].
  destruct (savedConfig_fields form now)
    as (Hs & Ha & Hk & Hm & Hp & Hu & _ & _).
  assert (Hload : ∀ D, loadCurrentSettings num
                         (mergeConfig D (savedConfig form now) later) pv
                  = (trimmedForm form, previewsOf (trimmedForm form) pv, false)).
  { intros D. unfold loadCurrentSettings.
    rewrite !(mergeConfig_present D (savedConfig form now) later
          "serverUrl"%string _ ltac:(done) Hs),
      !(mergeConfig_present D (savedConfig form now) later
          "apiUrl"%string _ ltac:(done) Ha),
      !(mergeConfig_present D (savedConfig form now) later
          "apiKey"%string _ ltac:(done) Hk),
      !(mergeConfig_present D (savedConfig form now) later
          "modelName"%string _ ltac:(done) Hm),
      !(mergeConfig_present D (savedConfig form now) later
          "systemPrompt"%string _ ltac:(done) Hp),
      !(mergeConfig_present D (savedConfig form now) later
          "userPromptTemplate"%string _ ltac:(done) Hu).
    rewrite !shortPreview_string, !valueOr_string.
    unfold previewsOf, updatePromptPreview, updateApiPreview, updatePreview,
      trimmedForm. cbn [serverUrlInput apiUrlInput apiKeyInput modelNameInput
                        systemPromptInput userPromptTemplateInput
                        currentServerUrl currentApiUrl currentModel
                        currentApiKey currentSystemPrompt
                        currentUserPromptTemplate].
    rewrite !trim_idem, truthy_string, !isEmpty_or_self. unfold orUnset.
    by destruct (isEmpty (trim (apiKeyInput form))). }
  split; apply Hload.
Qed.

(** X2. Whatever the form and whatever the write does, [saveSettings]
    either leaves the persisted configuration as it was, or replaces it by
    an object that holds a non-empty valid server address, an API address
    that is empty or valid, a user prompt template that is empty or has both
    placeholders, only trimmed strings, the time of the write, and no
    selection percentage; and it calls [set] at most once. *)
Theorem saveSettings_writes_checked_values
    (form : Form) (now : spec_float) (set_resolves : bool) (st : PopupState) :
  let st' := saveSettings URL_parse form now set_resolves st in
  (set_calls st' = set_calls st
   ∨ set_calls st' = set_calls st ++ [savedConfig form now])
  ∧ (persisted st' = persisted st
     ∨ ∃ serverUrl apiUrl apiKey modelName systemPrompt userPromptTemplate,
         persisted st'
         = Some (<["serverUrl"%string := VStr serverUrl]>
                 (<["apiUrl"%string := VStr apiUrl]>
                 (<["apiKey"%string := VStr apiKey]>
                 (<["modelName"%string := VStr modelName]>
                 (<["systemPrompt"%string := VStr systemPrompt]>
                 (<["userPromptTemplate"%string := VStr userPromptTemplate]>
                 (<["lastUpdated"%string := VNum now]> ∅)))))))
         ∧ serverUrl ≠ [] ∧ isValidUrl URL_parse serverUrl = true
         ∧ (apiUrl = [] ∨ isValidUrl URL_parse apiUrl = true)
         ∧ (userPromptTemplate = []
            ∨ (substring_of (js "{target_word}") userPromptTemplate
               ∧ substring_of (js "{context_sentence}") userPromptTemplate))
         ∧ Forall (λ s, trim s = s)
             [serverUrl; apiUrl; apiKey; modelName; systemPrompt;
              userPromptTemplate]).
Proof.
  intros st'. subst st'.
  destruct (classic_validation form) as [Hfail|Hok].
  - destruct (saveSettings_rejects form now set_resolves st Hfail) as [m ->].
    split; by left.
  - destruct (saveSettings_accepts form now st Hok) as [Hyes Hno].
    destruct set_resolves; [rewrite Hyes | rewrite Hno]; cbn [persisted set_calls].
    2: { split; [by right | by left]. }
    split; [by right|]. right.
    exists (trim (serverUrlInput form)), (trim (apiUrlInput form)),
      (trim (apiKeyInput form)), (trim (modelNameInput form)),
      (trim (systemPromptInput form)), (trim (userPromptTemplateInput form)).
    split; [reflexivity|].
    unfold validation_fails in Hok.
    split; [intros Hnil; apply Hok; by left|].
    split.
    { destruct (isValidUrl URL_parse (trim (serverUrlInput form))) eqn:Hv;
        [done | exfalso; apply Hok; right; by left]. }
    split.
    { destruct (trim (apiUrlInput form)) as [|c a] eqn:Ha; [by left|]. right.
      destruct (isValidUrl URL_parse (c :: a)) eqn:Hv; [done|].
      exfalso. apply Hok. right. right. left. by split. }
    split.
    { destruct (trim (userPromptTemplateInput form)) as [|c u] eqn:Hu;
        [by left|]. right.
      split; apply includes_substring.
      - destruct (includes (c :: u) (js "{target_word}")) eqn:Hi; [done|].
        exfalso. apply Hok. do 3 right. split; [done | by left].
      - destruct (includes (c :: u) (js "{context_sentence}")) eqn:Hi; [done|].
        exfalso. apply Hok. do 3 right. split; [done | by right]. }
    repeat constructor; apply trim_idem.
Qed.

End SettingsFacts.

Lemma goodForm_passes : ¬ validation_fails sampleParser goodForm.
Proof.
  intros [H|[H|[[H _]|[_ [H|H]]]]]; try (vm_compute in H; discriminate).
  apply H. reflexivity.
Qed.

Lemma saved_settings_load_back_witness :
  ¬ validation_fails sampleParser goodForm
  ∧ fst (fst (loadCurrentSettings (λ _, [])
                (Popup.getStoredConfig
                   (GetResolved
                      (persisted (saveSettings sampleParser goodForm
                                    (Number.of_Z 1) true freshPopup)))
                   (Number.of_Z 2)) noPreviews))
    = trimmedForm goodForm.
Proof.
  split; [exact goodForm_passes|].
  by rewrite (proj1 (saved_settings_load_back sampleParser (λ _, []) goodForm
                       (Number.of_Z 1) (Number.of_Z 2) freshPopup noPreviews
                       goodForm_passes)).
Defined.

(** ** Installing, saving, and the share of sentences *)

(** X3. The share of candidates that the content script selects follows
    from what was written last. After the installation on an empty storage
    area it is 10/100, the value of config.js that [onInstalled] stores;
    after any accepted [saveSettings] it is 40/100, the default of the
    content script, since [saveSettings] writes an object without
    [selectionPercentage] over whatever was stored. *)
Theorem selection_share_after_install_and_save
    (URL_parse : list N → option URL) (StringToNumber : list N → spec_float)
    (reason : list N) (form : Form) (t0 t1 t2 : spec_float) (st : PopupState) :
  ¬ validation_fails URL_parse form →
  selectionFraction StringToNumber
    (Some (Content.loadTranslatorConfig true
             (GetResolved (stored (onInstalled reason true true t0
                                     freshInstallation))) t2))
  = Number.div (Number.of_Z 10) (Number.of_Z 100)
  ∧ selectionFraction StringToNumber
      (Some (Content.loadTranslatorConfig true
               (GetResolved (persisted (saveSettings URL_parse form t1 true st)))
               t2))
    = Number.div (Number.of_Z 40) (Number.of_Z 100).
Proof.
  intros Hok. split.
  - unfold selectionFraction, onInstalled. cbn [stored freshInstallation].
    unfold Content.loadTranslatorConfig. cbn [stored_or_empty].
    set (installed := <["firstInstall"%string := VBool true]> _).
    assert (Hten : installed !! "selectionPercentage"%string
                   = Some (VNum (Number.of_Z 10))) by reflexivity.
    rewrite (mergeConfig_present Content.DEFAULT_CONFIG installed t2
               "selectionPercentage"%string _ ltac:(done) Hten).
    reflexivity.
  - rewrite (proj1 (saveSettings_accepts URL_parse form t1 st Hok)).
    cbn [persisted]. unfold selectionFraction, Content.loadTranslatorConfig.
    cbn [stored_or_empty].
    rewrite (mergeConfig_absent Content.DEFAULT_CONFIG (savedConfig form t1)
               t2 "selectionPercentage"%string (VNum (Number.of_Z 40))
               eq_refl eq_refl eq_refl).
    reflexivity.
Qed.

Lemma selection_share_after_install_and_save_witness :
  ¬ validation_fails sampleParser goodForm
  ∧ selectionFraction (λ _, S754_nan)
      (Some (Content.loadTranslatorConfig true
               (GetResolved (persisted (saveSettings sampleParser goodForm
                                          (Number.of_Z 1) true freshPopup)))
               (Number.of_Z 2)))
    = Number.div (Number.of_Z 40) (Number.of_Z 100).
Proof.
  split; [exact goodForm_passes|].
  exact (proj2 (selection_share_after_install_and_save sampleParser
                  (λ _, S754_nan) (js "install") goodForm (Number.of_Z 0)
                  (Number.of_Z 1) (Number.of_Z 2) freshPopup goodForm_passes)).
Defined.

(** X4. [onInstalled] never touches a configuration that is already
    stored (an update keeps the user's settings: no write, no tab), and does
    nothing when the read fails. On an empty storage area it writes the
    defaults of config.js, and from then on the content script and the popup
    read those stored values for every key of config.js, whatever their own
    defaults are; the settings tab is opened only when the reason is
    [install]. *)
Theorem onInstalled_keeps_stored_configuration
    (reason : list N) (get_resolves set_resolves : bool) (now : spec_float)
    (st : Installation) :
  let st' := onInstalled reason get_resolves set_resolves now st in
  (is_Some (stored st) → st' = st)
  ∧ (get_resolves = false → st' = st)
  ∧ (set_resolves = false → stored st' = stored st
                           ∧ tabs_created st' = tabs_created st)
  ∧ (stored st = None → get_resolves = true → set_resolves = true →
     (∀ k v later,
        Background.DEFAULT_CONFIG !! k = Some v →
        Content.loadTranslatorConfig true (GetResolved (stored st')) later !! k
          = Some v
        ∧ Popup.getStoredConfig (GetResolved (stored st')) later !! k = Some v)
     ∧ (∀ later,
          Content.loadTranslatorConfig true (GetResolved (stored st')) later
            !! "firstInstall"%string = Some (VBool true))
     ∧ tabs_created st'
       = if bool_decide (reason = js "install")
         then S (tabs_created st) else tabs_created st).
Proof.
  intros st'. subst st'. unfold onInstalled.
  split; [intros [c Hc]; rewrite Hc; by destruct get_resolves|].
  split; [by intros ->|].
  split.
  { intros ->. destruct get_resolves; [|done].
    destruct (stored st) eqn:Hst; [by rewrite Hst|done]. }
  intros -> -> ->. cbn [stored tabs_created].
  set (installed := <["firstInstall"%string := VBool true]> _).
  assert (Hkeep : ∀ k v, Background.DEFAULT_CONFIG !! k = Some v →
                         k ≠ "lastUpdated"%string ∧ installed !! k = Some v).
  { intros k v Hk.
    assert (k ≠ "lastUpdated"%string) by (intros ->; discriminate).
    assert (k ≠ "firstInstall"%string) by (intros ->; discriminate).
    split; [done|]. subst installed.
    by rewrite lookup_insert_ne, lookup_insert_ne. }
  split; [|split; [|reflexivity]].
  - intros k v later Hk. destruct (Hkeep k v Hk) as [Hne Hin].
    unfold Content.loadTranslatorConfig, Popup.getStoredConfig.
    cbn [stored_or_empty]. split; by apply mergeConfig_present.
  - intros later. unfold Content.loadTranslatorConfig. cbn [stored_or_empty].
    by apply mergeConfig_present.
Qed.

(** X5. [resetSettings] of the popup puts the defaults into the inputs
    whether or not the write resolves. When it resolves, the storage area
    holds the defaults with the time of the reset, and loading them back
    shows the same form without an error; when it does not, the storage area
    and the previews are as before although the inputs already show the
    defaults. Saving the form that a reset leaves is refused only when the
    URL constructor refuses the default server address. *)
Theorem resetSettings_restores_defaults
    (URL_parse : list N → option URL) (num : spec_float → list N)
    (now later : spec_float) (set_resolves : bool) (pg : SettingsPage)
    (pv : Previews) :
  let after := resetSettings Popup.DEFAULT_CONFIG num now set_resolves pg in
  inputs after = popupDefaultsForm
  ∧ writes after = writes pg ++ [defaultsOnly Popup.DEFAULT_CONFIG now]
  ∧ (set_resolves = true →
     store after = Some (defaultsOnly Popup.DEFAULT_CONFIG now)
     ∧ loadCurrentSettings num
         (Popup.getStoredConfig (GetResolved (store after)) later) pv
       = (popupDefaultsForm, previewsOf popupDefaultsForm pv, false)
     ∧ previews after = previewsOf popupDefaultsForm (previews pg)
     ∧ broadcasts after = S (broadcasts pg))
  ∧ (set_resolves = false →
     store after = store pg ∧ previews after = previews pg
     ∧ broadcasts after = broadcasts pg)
  ∧ (validation_fails URL_parse (inputs after)
     ↔ isValidUrl URL_parse (js "http://127.0.0.1:5000") = false).
Proof.
  intros after.
  assert (Hin : inputs after = popupDefaultsForm)
    by (subst after; unfold resetSettings; by destruct set_resolves).
  split; [exact Hin|].
  split; [subst after; unfold resetSettings; by destruct set_resolves|].
  split; [|split].
  - intros ->. subst after. unfold resetSettings.
    cbn [store previews broadcasts inputs].
    split; [reflexivity|]. split; [|by split].
    unfold Popup.getStoredConfig. cbn [stored_or_empty].
    unfold loadCurrentSettings.
    set (D := Popup.DEFAULT_CONFIG).
    set (c := defaultsOnly D now).
    rewrite !(mergeConfig_present D c later "serverUrl"%string
                (VStr (js "http://127.0.0.1:5000")) ltac:(done) eq_refl),
      !(mergeConfig_present D c later "apiUrl"%string (VStr [])
                ltac:(done) eq_refl),
      !(mergeConfig_present D c later "apiKey"%string (VStr [])
                ltac:(done) eq_refl),
      !(mergeConfig_present D c later "modelName"%string (VStr [])
                ltac:(done) eq_refl),
      !(mergeConfig_present D c later "systemPrompt"%string
                (VStr systemPrompt_short) ltac:(done) eq_refl),
      !(mergeConfig_present D c later "userPromptTemplate"%string
                (VStr userPromptTemplate_default) ltac:(done) eq_refl).
    reflexivity.
  - intros ->. subst after. by unfold resetSettings.
  - rewrite Hin. unfold validation_fails.
    change (trim (serverUrlInput popupDefaultsForm))
      with (trim (js "http://127.0.0.1:5000")).
    replace (trim (js "http://127.0.0.1:5000"))
      with (js "http://127.0.0.1:5000") by (vm_compute; reflexivity).
    replace (trim (apiUrlInput popupDefaultsForm)) with (@nil N)
      by reflexivity.
    replace (includes (trim (userPromptTemplateInput popupDefaultsForm))
               (js "{target_word}")) with true by (vm_compute; reflexivity).
    replace (includes (trim (userPromptTemplateInput popupDefaultsForm))
               (js "{context_sentence}")) with true
      by (vm_compute; reflexivity).
    split.
    + intros [H|[H|[[H _]|[_ [H|H]]]]]; done.
    + intros H. right. by left.
Qed.

(** ** The annotator on plain words and on invalid patterns *)

Lemma hasDollar_In (s : list N) : hasDollar s = false → ¬ In 36 s.
Proof.
  unfold hasDollar. intros Hs Hin.
  assert (existsb (N.eqb 36) s = true)
    by (apply existsb_exists; exists 36; by rewrite N.eqb_refl).
  congruence.
Qed.

Lemma hasDollar_app (a b : list N) :
  hasDollar (a ++ b) = hasDollar a || hasDollar b.
Proof. apply existsb_app. Qed.

Lemma hasDollar_quoted (s : list N) : hasDollar (quoted s) = hasDollar s.
Proof.
  unfold quoted. change (34 :: s ++ [34]) with ([34] ++ s ++ [34]).
  rewrite !hasDollar_app. cbn. by rewrite orb_false_r.
Qed.

Lemma plainWord_no_dollar (word : list N) :
  plainWord word = true → hasDollar word = false.
Proof.
  unfold plainWord, hasDollar.
  induction word as [|c word IH]; [done|]. cbn [forallb existsb].
  rewrite andb_true_iff, negb_true_iff. intros [Hc Hw].
  rewrite (IH Hw), orb_false_r.
  destruct (36 =? c) eqn:Hd; [|done].
  apply N.eqb_eq in Hd. subst c. discriminate.
Qed.

Lemma annotationMarkup_no_dollar (id word translation : list N) :
  hasDollar id = false → plainWord word = true →
  hasDollar translation = false →
  ¬ In 36 (hoverableWord id word translation ++ styledAnnotation translation).
Proof.
  intros Hid Hw Ht. apply plainWord_no_dollar in Hw.
  apply hasDollar_In. unfold hoverableWord, styledAnnotation.
  rewrite !hasDollar_app, !hasDollar_quoted, Hid, Hw, Ht.
  vm_compute. reflexivity.
Qed.

Lemma textAnnotation_no_dollar (word translation : list N) :
  plainWord word = true → hasDollar translation = false →
  ¬ In 36 (word ++ annotation translation).
Proof.
  intros Hw Ht. apply plainWord_no_dollar in Hw.
  apply hasDollar_In. unfold annotation.
  change (32 :: 12304 :: translation ++ [12305])
    with ([32; 12304] ++ translation ++ [12305]).
  by rewrite !hasDollar_app, Hw, Ht.
Qed.

Lemma replaceLiteral_absent (word by_ s : list N) :
  includes s word = false → replaceLiteral word by_ s 0 = s.
Proof.
  induction s as [|c s IH]; [done|]. cbn [includes replaceLiteral].
  rewrite orb_false_iff. intros [Hhere Hrest].
  rewrite Hhere. f_equal. by apply IH.
Qed.

Section AnnotatorOnWords.

Context {Dom : Type} `{DomApi Dom}.
Variable env : Env.

(** X6. For a non-empty word without syntax characters, with an engine that
    conforms, [annotateWordInText] on a parent with markup replaces every
    plain occurrence of the word in the whole markup of the parent (not in
    the candidate's text node only) by the hoverable span and the badge, all
    spans carrying the one identifier; it completes normally and schedules
    the hover setup. When the word occurs in the text but not in the markup
    (an escaped character, say), the parent is assigned the markup it had
    and success is logged all the same. *)
Theorem annotate_plain_word_rewrites_parent_markup
    (id : list N) (textData : TextCandidate)
    (targetWord translation currentHTML : list N) (w : World Dom) (d' : Dom) :
  conforms (regexp env) →
  targetWord ≠ [] → plainWord targetWord = true →
  hasDollar id = false → hasDollar translation = false →
  substring_of targetWord (text textData) →
  innerHTML (dom w) (parent textData) = Some currentHTML →
  let newHTML :=
    replaceLiteral targetWord (annotationMarkup id targetWord translation)
      currentHTML 0 in
  set_innerHTML (dom w) (parent textData) newHTML = Some d' →
  annotateWordInText env id textData targetWord translation w
  = ({| dom := d'; translatorConfig := translatorConfig w;
        trace := trace w
                 ++ [LogBefore (text textData); LogHtmlAnnotated;
                     LogAfter (targetWord ++ [12304] ++ translation ++ [12305]);
                     EvHoverSetup id] |}, Normal tt)
  ∧ (¬ substring_of targetWord currentHTML → newHTML = currentHTML).
Proof.
  intros Hconf Hne Hplain Hid Htr Hsub Hhtml newHTML Hset.
  split.
  - unfold annotateWordInText.
    apply includes_substring in Hsub. rewrite Hsub.
    unfold bind, emit, read, regexReplace. cbn [dom trace translatorConfig].
    rewrite Hhtml.
    rewrite (literal_word_replaced_literally (regexp env) targetWord _
               currentHTML Hconf Hne Hplain
               (annotationMarkup_no_dollar id targetWord translation
                  Hid Hplain Htr)).
    unfold ret. fold (annotationMarkup id targetWord translation).
    fold newHTML. rewrite Hset. unfold set_dom. cbn.
    by rewrite <- !app_assoc.
  - intros Habsent. apply replaceLiteral_absent.
    destruct (includes currentHTML targetWord) eqn:Hinc; [|done].
    apply includes_substring in Hinc. contradiction.
Qed.

Lemma plain_word_replaced (word subject template : list N) :
  conforms (regexp env) → word ≠ [] → plainWord word = true →
  replace_g (regexp env) word subject template
  = Some (replaceScan (map AChar word) template [] subject 0).
Proof.
  intros Hconf Hne Hplain. apply Hconf.
  - by apply parseFragment_literal.
  - destruct word; [contradiction | discriminate].
Qed.

(** X7. The plain-text fallback. For a non-empty word without syntax
    characters and an engine that conforms: when the parent has no
    [innerHTML], or assigning it throws, [annotateWordInText] writes to the
    text node the candidate's (trimmed) text in which every plain occurrence
    of the word is followed by the bracket badge. It completes normally
    either way: when the assignment of [textContent] throws as well, the
    error is logged and the document stays as it was. *)
Theorem annotate_falls_back_to_plain_text
    (id : list N) (textData : TextCandidate)
    (targetWord translation : list N) (w : World Dom) :
  conforms (regexp env) →
  targetWord ≠ [] → plainWord targetWord = true →
  hasDollar translation = false →
  substring_of targetWord (text textData) →
  innerHTML (dom w) (parent textData) = None
  ∨ (∀ s, set_innerHTML (dom w) (parent textData) s = None) →
  let run := annotateWordInText env id textData targetWord translation in
  let newText :=
    replaceLiteral targetWord (targetWord ++ annotation translation)
      (text textData) 0 in
  completion run w = Normal tt
  ∧ translatorConfig (exec run w) = translatorConfig w
  ∧ (∀ d', set_textContent (dom w) (node textData) newText = Some d' →
           dom (exec run w) = d'
           ∧ ∃ pre, trace (exec run w)
                    = trace w ++ pre ++ [LogAfter newText; LogTextAnnotated])
  ∧ (set_textContent (dom w) (node textData) newText = None →
     dom (exec run w) = dom w
     ∧ ∃ pre, trace (exec run w)
              = trace w ++ pre ++ [LogAfter newText; LogTextFailed]).
Proof.
  intros Hconf Hne Hplain Htr Hsub Hpath run newText.
  assert (Htext : ∀ w1 : World Dom,
    dom w1 = dom w →
    annotateAsText env textData targetWord translation w1
    = match set_textContent (dom w) (node textData) newText with
      | Some d =>
          ({| dom := d; translatorConfig := translatorConfig w1;
              trace := trace w1 ++ [LogAfter newText; LogTextAnnotated] |},
           Normal tt)
      | None =>
          ({| dom := dom w; translatorConfig := translatorConfig w1;
              trace := trace w1 ++ [LogAfter newText; LogTextFailed] |},
           Normal tt)
      end).
  { intros w1 Hd. unfold annotateAsText, regexReplace.
    rewrite (literal_word_replaced_literally (regexp env) targetWord _
               (text textData) Hconf Hne Hplain
               (textAnnotation_no_dollar targetWord translation Hplain Htr)).
    fold newText. unfold bind, ret, emit, read, set_dom.
    cbn [dom trace translatorConfig]. rewrite Hd.
    destruct (set_textContent (dom w) (node textData) newText);
      cbn; by rewrite <- ?app_assoc, <- ?Hd. }
  assert (Hrun : ∃ pre,
    run w
    = match set_textContent (dom w) (node textData) newText with
      | Some d =>
          ({| dom := d; translatorConfig := translatorConfig w;
              trace := trace w ++ pre ++ [LogAfter newText; LogTextAnnotated] |},
           Normal tt)
      | None =>
          ({| dom := dom w; translatorConfig := translatorConfig w;
              trace := trace w ++ pre ++ [LogAfter newText; LogTextFailed] |},
           Normal tt)
      end).
  { subst run. unfold annotateWordInText.
    apply includes_substring in Hsub. rewrite Hsub.
    unfold bind at 1, emit at 1. unfold bind at 1, read at 1.
    cbn [dom trace translatorConfig].
    destruct (innerHTML (dom w) (parent textData)) as [html|] eqn:Hhtml.
    - destruct Hpath as [?|Hset]; [done|].
      unfold regexReplace.
      rewrite (plain_word_replaced targetWord html _ Hconf Hne Hplain).
      unfold bind at 1, ret. rewrite Hset.
      unfold bind at 1, emit at 1. cbn [dom trace translatorConfig].
      rewrite Htext by done. cbn [trace translatorConfig].
      exists [LogBefore (text textData); LogHtmlFailed].
      destruct (set_textContent (dom w) (node textData) newText);
        by rewrite <- !app_assoc.
    - rewrite Htext by done. cbn [trace translatorConfig].
      exists [LogBefore (text textData)].
      destruct (set_textContent (dom w) (node textData) newText);
        by rewrite <- !app_assoc. }
  destruct Hrun as [pre Hrun]. unfold completion, exec. rewrite Hrun.
  destruct (set_textContent (dom w) (node textData) newText) as [d|];
    cbn [fst snd dom trace translatorConfig].
  - split; [done|]. split; [done|]. split; [|done].
    intros d' [= <-]. split; [done|]. by exists pre.
  - split; [done|]. split; [done|]. split; [done|].
    intros _. split; [done|]. by exists pre.
Qed.

(** X8. A target word that the RegExp constructor refuses (a lone
    parenthesis, say) and that occurs in the candidate's text makes
    [annotateWordInText] throw a SyntaxError before any assignment: the
    document is as before. In the loop the error is caught: the turn of the
    item completes normally with the document unchanged, the failure is
    logged, and the wait of 500 ms follows as after any other turn. *)
Theorem invalid_pattern_skips_item
    (i : nat) (textData : TextCandidate) (result : JsonValue)
    (targetWord translation : list N) (w : World Dom) :
  (∀ subject template,
     replace_g (regexp env) targetWord subject template = None) →
  substring_of targetWord (text textData) →
  validResult result = Some (targetWord, translation) →
  completion (callTranslateAPI env (text textData))
    (exec (emit (LogTranslating i (text textData))) w) = Normal result →
  (∀ id w',
     completion (annotateWordInText env id textData targetWord translation) w'
       = Throw SyntaxError
     ∧ dom (exec (annotateWordInText env id textData targetWord translation) w')
       = dom w')
  ∧ completion (translateOne env i textData) w = Normal tt
  ∧ dom (exec (translateOne env i textData) w) = dom w
  ∧ ∃ pre, trace (exec (translateOne env i textData) w)
           = trace w ++ pre
             ++ [LogBefore (text textData); LogTranslateFailed SyntaxError;
                 EvDelay 500].
Proof.
  intros Hrefuse Hsub Hvalid Hcall.
  apply includes_substring in Hsub.
  assert (Hann : ∀ id w',
    annotateWordInText env id textData targetWord translation w'
    = ({| dom := dom w'; translatorConfig := translatorConfig w';
          trace := trace w' ++ [LogBefore (text textData)] |},
       Throw SyntaxError)).
  { intros id w'. unfold annotateWordInText. rewrite Hsub.
    unfold bind, emit, read, regexReplace, annotateAsText, bind, regexReplace.
    cbn [dom trace translatorConfig].
    destruct (innerHTML (dom w') (parent textData));
      by rewrite ?Hrefuse. }
  split.
  { intros id w'. unfold completion, exec. by rewrite Hann. }
  set (w0 := exec (emit (LogTranslating i (text textData))) w) in *.
  destruct (callTranslateAPI_run env (text textData) w0)
    as (Hd & _ & pre & post & _ & _ & Hcases).
  assert (Htrace : ∃ q, trace (exec (callTranslateAPI env (text textData)) w0)
                        = trace w0 ++ q).
  { destruct Hcases as [(_ & Ht & _)|(_ & Ht & _)]; rewrite Ht;
      eexists; reflexivity. }
  destruct Htrace as [q Hq].
  unfold completion, exec in *.
  destruct (callTranslateAPI env (text textData) w0) as [w1 c] eqn:Hrun.
  cbn [fst snd] in Hcall, Hd, Hq. subst c.
  assert (Hone : translateOne env i textData w
                 = ({| dom := dom w1; translatorConfig := translatorConfig w1;
                       trace := (((trace w1 ++ [LogFound targetWord translation])
                                  ++ [LogBefore (text textData)])
                                 ++ [LogTranslateFailed SyntaxError])
                                ++ [EvDelay 500] |}, Normal tt)).
  { unfold translateOne. unfold bind at 1. unfold emit at 1.
    change {| dom := dom w; translatorConfig := translatorConfig w;
              trace := trace w ++ [LogTranslating i (text textData)] |}
      with w0.
    unfold bind at 1, try_catch, bind at 1. rewrite Hrun, Hvalid.
    unfold bind at 1, emit at 1. rewrite Hann. reflexivity. }
  rewrite Hone. cbn [fst snd dom trace].
  split; [done|]. split; [by rewrite Hd|].
  exists ([LogTranslating i (text textData)] ++ q
          ++ [LogFound targetWord translation]).
  rewrite Hq. subst w0. cbn [trace emit fst]. by rewrite <- !app_assoc.
Qed.

End AnnotatorOnWords.

Lemma sampleText_has_125 : substring_of (js "125") (text sampleTextData).
Proof. apply includes_substring. vm_compute. reflexivity. Qed.

(** The word 125 in 1.5米和125米, with markup on the paragraph: the second
    number is wrapped, the first is left alone. *)
Lemma annotate_plain_word_rewrites_parent_markup_witness :
  let env := sampleEnv None FetchRejected in
  let span := annotationMarkup (js "w1") (js "125") (js "x") in
  conforms (regexp env)
  ∧ substring_of (js "125") (text sampleTextData)
  ∧ innerHTML
      (dom (exec (annotateWordInText env (js "w1") sampleTextData (js "125")
                    (js "x")) sampleWorld)) [0%nat]
    = Some (js "1.5" ++ [31859; 21644] ++ span ++ [31859]).
Proof.
  intros env span.
  split; [apply fragmentEngine_conforms|].
  split; [exact sampleText_has_125|].
  destruct (annotate_plain_word_rewrites_parent_markup env (js "w1")
              sampleTextData (js "125") (js "x") sampleText sampleWorld
              {| markup := {[ [0%nat] := js "1.5" ++ [31859; 21644] ++ span
                                         ++ [31859] ]};
                 chars := {[ [0; 0]%nat := sampleText ]} |}
              fragmentEngine_conforms ltac:(discriminate) eq_refl eq_refl
              eq_refl sampleText_has_125 eq_refl)
    as [Hrun _]; [vm_compute; reflexivity|].
  unfold exec. rewrite Hrun. reflexivity.
Defined.

(** The same word where the paragraph has no [innerHTML]: the text node
    gets the badge after the second number. *)
Lemma annotate_falls_back_to_plain_text_witness :
  let env := sampleEnv None FetchRejected in
  let run :=
    annotateWordInText env (js "w1") sampleTextData (js "125") (js "x") in
  innerHTML textOnlyDom (parent sampleTextData) = None
  ∧ completion run textOnlyWorld = Normal tt
  ∧ chars (dom (exec run textOnlyWorld)) !! [0; 0]%nat
    = Some (js "1.5" ++ [31859; 21644] ++ js "125" ++ annotation (js "x")
            ++ [31859]).
Proof.
  intros env run.
  split; [reflexivity|].
  destruct (annotate_falls_back_to_plain_text env (js "w1") sampleTextData
              (js "125") (js "x") textOnlyWorld fragmentEngine_conforms
              ltac:(discriminate) eq_refl eq_refl sampleText_has_125
              (or_introl eq_refl))
    as (Hnormal & _ & Hset & _).
  split; [exact Hnormal|].
  destruct (Hset {| markup := ∅;
                    chars := {[ [0; 0]%nat :=
                                js "1.5" ++ [31859; 21644] ++ js "125"
                                ++ annotation (js "x") ++ [31859] ]} |})
    as [Hdom _]; [vm_compute; reflexivity|].
  fold run in Hdom. rewrite Hdom. reflexivity.
Defined.

(** The server answers with the word [(] for the text f(x)中文: the turn
    completes normally and the document is the one from before. *)
Lemma invalid_pattern_skips_item_witness :
  let env := sampleEnv None (wordResponse (js "(") (js "x")) in
  substring_of (js "(") (text parenTextData)
  ∧ completion (translateOne env 0 parenTextData) parenWorld = Normal tt
  ∧ dom (exec (translateOne env 0 parenTextData) parenWorld) = dom parenWorld.
Proof.
  intros env.
  assert (Hsub : substring_of (js "(") (text parenTextData))
    by (apply includes_substring; vm_compute; reflexivity).
  split; [exact Hsub|].
  destruct (invalid_pattern_skips_item env 0 parenTextData
              (JObject (Some (js "(")) (Some (js "x"))) (js "(") (js "x")
              parenWorld)
    as (_ & Hnormal & Hdom & _).
  - intros subject template. reflexivity.
  - exact Hsub.
  - reflexivity.
  - vm_compute. reflexivity.
  - split; [exact Hnormal | exact Hdom].
Defined.

(** ** From the page to the requests *)

Section PagePassFacts.

Context {Dom : Type} `{DomApi Dom}.
Variable env : Env.

(** X9. One pass over a page, from the scan to the requests. It always
    completes normally; on a page without candidates it does nothing at all;
    otherwise it sends at most one request per candidate, and every request
    it sends goes to [{serverUrl}/translate] and carries as its sentence the
    trimmed content of a text node of the walked tree that has at least two
    code units and a code unit in U+4E00..U+9FFF. *)
Theorem page_pass_sends_scanned_texts
    (sort_random : list TextCandidate → list TextCandidate)
    (StringToNumber : list N → spec_float) (pg : Page) (w : World Dom) :
  (∀ l, Permutation (sort_random l) l) →
  let pass := extractAndTranslateChinese env sort_random StringToNumber pg in
  completion pass w = Normal tt
  ∧ (extractChineseTexts pg = [] → exec pass w = w)
  ∧ ∃ sent,
      requests (exec pass w) = requests w ++ sent
      ∧ (length sent ≤ length (extractChineseTexts pg))%nat
      ∧ ∀ r, In r sent →
          url r = ToString (Number_toString env)
                    (effective_config env w !! "serverUrl"%string)
                  ++ js "/translate"
          ∧ ∃ path data,
              nodeAt (walker_root pg) path = Some (TextNode data)
              ∧ sentence r = trim data
              ∧ (2 ≤ length (trim data))%nat
              ∧ chineseRegex_test (trim data) = true.
Proof.
  intros Hperm pass. subst pass. unfold extractAndTranslateChinese.
  destruct (length (extractChineseTexts pg) =? 0)%nat eqn:Hlen.
  { split; [done|]. split; [done|]. exists []. rewrite app_nil_r.
    split; [done|]. split; [cbn; lia|]. intros r []. }
  apply Nat.eqb_neq in Hlen.
  unfold completion, exec, bind, read.
  set (selectedTexts :=
         randomSelectTexts sort_random (extractChineseTexts pg)
           (selectionFraction StringToNumber (translatorConfig w))).
  destruct (translateSelectedTexts_requests env selectedTexts w)
    as (wf & Hrun & Hcases).
  rewrite Hrun. cbn [fst snd].
  split; [done|]. split.
  { intros Hnil. rewrite Hnil in Hlen. by contradict Hlen. }
  assert (Hle : (length selectedTexts ≤ length (extractChineseTexts pg))%nat).
  { subst selectedTexts. unfold randomSelectTexts.
    rewrite Array_slice0_length, (Permutation_length (Hperm _)).
    apply slice_final_le. }
  destruct Hcases as [[_ Hsent]|[_ Hnone]].
  - eexists. split; [exact Hsent|]. split; [by rewrite length_map|].
    intros r Hr. apply in_map_iff in Hr as (c & <- & Hc).
    split; [reflexivity|].
    apply (randomSelectTexts_sublist sort_random Hperm) in Hc.
    apply extractChineseTexts_sound in Hc as (data & Hnode & Htext & _ & Hacc).
    apply acceptNode_accepts in Hacc as [Hlen2 Hcjk].
    exists (node c), data. cbn [sentence requestFor]. by rewrite Htext.
  - exists []. rewrite app_nil_r. split; [done|]. split; [cbn; lia|].
    intros r [].
Qed.

(** X10. However many of the triggers of [waitForPageLoad] fire, and in
    whatever order, the page is processed once: the first one loads the
    configuration and sets the timer of the pass, and every later one finds
    [hasExecuted] set and changes nothing. *)
Theorem page_is_processed_once (ts : list Trigger) (w : World Dom) :
  ts ≠ [] →
  fireAll env ts freshScript w
  = ({| dom := dom w;
        translatorConfig :=
          Some (Content.loadTranslatorConfig (chrome_storage env)
                  (storage_get env) (date_now env));
        trace := trace w
                 ++ [LogConfigLoaded
                       (negb (chrome_storage env)
                        || match storage_get env with
                           | GetRejected => true
                           | _ => false
                           end)] |},
     Normal {| hasExecuted := true; scheduled_passes := 1 |})
  ∧ ∀ (s : Script) (w' : World Dom),
      hasExecuted s = true → fireAll env ts s w' = (w', Normal s).
Proof.
  intros Hne.
  assert (Hdone : ∀ ts' s (w' : World Dom),
                    hasExecuted s = true →
                    fireAll env ts' s w' = (w', Normal s)).
  { induction ts' as [|t ts' IH]; intros s w' Hs; [reflexivity|].
    cbn [fireAll]. unfold bind.
    assert (Hfire : fire env t s w' = (w', Normal s))
      by (destruct t; unfold fire, executeMain; by rewrite Hs).
    rewrite Hfire. by apply IH. }
  split; [|intros s w'; apply Hdone].
  destruct ts as [|t ts]; [contradiction|].
  cbn [fireAll]. unfold bind at 1.
  assert (Hfirst : fire env t freshScript w = executeMain env freshScript w)
    by (by destruct t).
  rewrite Hfirst. unfold executeMain, loadTranslatorConfig.
  cbn [hasExecuted freshScript]. unfold bind, set_config, emit, ret.
  cbn [dom trace translatorConfig scheduled_passes].
  by rewrite Hdone.
Qed.

(** X11. Settings saved through the form reach the requests. After an
    accepted save whose write resolves, the message [configUpdated] makes
    the content script read the storage area again, whatever configuration
    it held before; from then on a pass sends exactly one request for every
    selected candidate, in the order of the selection, to the trimmed server
    address followed by [/translate] and with the trimmed inputs as
    [api_url], [api_key], [model_name] and the prompts. The message
    [configUpdate] (without the final d), which background.js sends, is not
    acted upon. *)
Theorem saved_settings_reach_requests
    (URL_parse : list N → option URL) (form : Form) (now : spec_float)
    (st : PopupState) (selectedTexts : list TextCandidate) (w : World Dom) :
  ¬ validation_fails URL_parse form →
  chrome_storage env = true →
  storage_get env
  = GetResolved (persisted (saveSettings URL_parse form now true st)) →
  let w1 := exec (onMessage env (js "configUpdated")) w in
  dom w1 = dom w
  ∧ requests w1 = requests w
  ∧ completion (translateSelectedTexts env selectedTexts) w1 = Normal tt
  ∧ requests (exec (translateSelectedTexts env selectedTexts) w1)
    = requests w
      ++ map (λ textData, requestOfForm form (text textData)) selectedTexts
  ∧ onMessage env (js "configUpdate") w = (w, Normal tt).
Proof.
  intros Hok Hchrome Hget w1.
  destruct (saveSettings_accepts URL_parse form now st Hok) as [Hsaved _].
  rewrite Hsaved in Hget. cbn [persisted] in Hget.
  set (config := Content.loadTranslatorConfig true
                   (GetResolved (Some (savedConfig form now)))
                   (date_now env)).
  assert (Hw1 : w1 = {| dom := dom w; translatorConfig := Some config;
                        trace := trace w ++ [LogConfigLoaded false] |}).
  { subst w1. unfold onMessage, exec, loadTranslatorConfig.
    rewrite bool_decide_eq_true_2 by done.
    unfold bind, set_config, emit. cbn [fst dom trace translatorConfig].
    by rewrite Hchrome, Hget. }
  assert (Hreq1 : requests w1 = requests w).
  { apply (requests_same_net w w1 [LogConfigLoaded false]);
      [by rewrite Hw1 | reflexivity]. }
  assert (Heff : effective_config env w1 = config) by (by rewrite Hw1).
  destruct (savedConfig_fields form now)
    as (Hs & Ha & Hk & Hm & Hsp & Hup & _ & _).
  assert (Hlook : ∀ k v, k ≠ "lastUpdated"%string →
                         savedConfig form now !! k = Some v →
                         config !! k = Some v).
  { intros k v Hk' Hv. subst config. unfold Content.loadTranslatorConfig.
    cbn [stored_or_empty]. by apply mergeConfig_present. }
  assert (Hprompts : prompts_are_strings config).
  { split; right; eexists; by apply Hlook. }
  split; [by rewrite Hw1|]. split; [exact Hreq1|].
  destruct (translateSelectedTexts_requests env selectedTexts w1)
    as (wf & Hrun & Hcases).
  rewrite Heff in Hcases.
  unfold completion, exec at 1. rewrite Hrun. cbn [fst snd].
  split; [done|]. split.
  - destruct Hcases as [[_ Hsent]|[Hbad _]]; [|contradiction].
    rewrite Hsent, Hreq1. f_equal. apply map_ext. intros textData.
    unfold requestFor, requestOfForm.
    by rewrite (Hlook "serverUrl"%string _ ltac:(done) Hs),
      (Hlook "apiUrl"%string _ ltac:(done) Ha),
      (Hlook "apiKey"%string _ ltac:(done) Hk),
      (Hlook "modelName"%string _ ltac:(done) Hm),
      (Hlook "systemPrompt"%string _ ltac:(done) Hsp),
      (Hlook "userPromptTemplate"%string _ ltac:(done) Hup).
  - unfold onMessage. by rewrite bool_decide_eq_false_2.
Qed.

End PagePassFacts.

(** The sample page under the default configuration, the sort leaving the
    copy as it is: the pass completes and sends at most two requests, the
    page having two candidates. *)
Lemma page_pass_sends_scanned_texts_witness :
  let env := sampleEnv None FetchRejected in
  let pass :=
    extractAndTranslateChinese env (λ l, l) (λ _, S754_nan) samplePage in
  (∀ l : list TextCandidate, Permutation l l)
  ∧ completion pass sampleWorld = Normal tt
  ∧ (length (requests (exec pass sampleWorld)) ≤ 2)%nat.
Proof.
  intros env pass.
  assert (Hperm : ∀ l : list TextCandidate, Permutation l l)
    by (intros l; reflexivity).
  split; [exact Hperm|].
  destruct (page_pass_sends_scanned_texts env (λ l, l) (λ _, S754_nan)
              samplePage sampleWorld Hperm)
    as (Hnormal & _ & sent & Hreq & Hlen & _).
  split; [exact Hnormal|].
  fold pass in Hreq. rewrite Hreq. exact Hlen.
Defined.

(** Three triggers in a row on a page that was still loading: one load of
    the configuration, one pass. *)
Lemma page_is_processed_once_witness :
  completion
    (fireAll (sampleEnv None FetchRejected)
       [DomContentLoaded; WindowLoad; BackupTimer] freshScript) sampleWorld
  = Normal {| hasExecuted := true; scheduled_passes := 1 |}.
Proof.
  destruct (page_is_processed_once (sampleEnv None FetchRejected)
              [DomContentLoaded; WindowLoad; BackupTimer] sampleWorld
              ltac:(discriminate)) as [Hrun _].
  unfold completion. rewrite Hrun. reflexivity.
Defined.

(** The form with the padded address [ http://127.0.0.1:5000 ]: after the
    save and the message, the request for the sample text goes to the
    trimmed address. *)
Lemma saved_settings_reach_requests_witness :
  let saved :=
    persisted (saveSettings sampleParser goodForm (Number.of_Z 7) true
                 freshPopup) in
  let env := sampleEnv saved FetchRejected in
  let w1 := exec (onMessage env (js "configUpdated")) sampleWorld in
  ¬ validation_fails sampleParser goodForm
  ∧ map url (requests (exec (translateSelectedTexts env [sampleTextData]) w1))
    = [js "http://127.0.0.1:5000/translate"].
Proof.
  intros saved env w1.
  split; [exact goodForm_passes|].
  destruct (saved_settings_reach_requests env sampleParser goodForm
              (Number.of_Z 7) freshPopup [sampleTextData] sampleWorld
              goodForm_passes eq_refl eq_refl)
    as (_ & _ & _ & Hreq & _).
  fold w1 in Hreq. rewrite Hreq. vm_compute. reflexivity.
Defined.

(** ** No node twice *)

Lemma walkEach_paths (cs : list Node) (here : list nat) (i : nat)
    (path : list nat) (data : list N) :
  In (path, data) (walkEach here i cs) →
  ∃ j rel, path = here ++ (i + j)%nat :: rel.
Proof.
  intros Hin.
  assert (Hall : Forall walk_sound_at cs)
    by (apply List.Forall_forall; intros c _; apply walk_sound).
  destruct (walkEach_sound cs Hall _ _ _ _ Hin) as (j & c & rel & _ & -> & _).
  by exists j, rel.
Qed.

Lemma walkEach_NoDup (cs : list Node) :
  Forall (λ c, ∀ here, NoDup (map fst (walk here c))) cs →
  ∀ here i, NoDup (map fst (walkEach here i cs)).
Proof.
  induction 1 as [|c cs Hc Hcs IH]; intros here i; cbn [walkEach].
  - constructor.
  - rewrite map_app. apply NoDup_app. split; [apply Hc|].
    split; [|apply IH].
    intros path Hfirst Hrest.
    apply list_elem_of_In, in_map_iff in Hfirst as ([p d] & <- & Hin1).
    apply list_elem_of_In, in_map_iff in Hrest as ([p' d'] & Hp & Hin2).
    cbn [fst] in Hp. subst p'.
    destruct (walk_sound c _ _ _ Hin1) as (rel & -> & _).
    destruct (walkEach_paths cs here (S i) _ _ Hin2) as (j & rel' & Heq).
    rewrite <- app_assoc in Heq. apply app_inv_head in Heq.
    cbn in Heq. injection Heq as Hi _. lia.
Qed.

Lemma walk_NoDup (n : Node) : ∀ here, NoDup (map fst (walk here n)).
Proof.
  induction n as [data|data|tag cs IH|cs IH] using Node_tree_ind; intros here.
  - cbn. destruct (acceptNode data); cbn;
      [apply NoDup_singleton | apply NoDup_nil_2..].
  - constructor.
  - rewrite walk_element. by apply walkEach_NoDup.
  - rewrite walk_document. by apply walkEach_NoDup.
Qed.

Lemma pushCandidate_nodes (found : list (list nat * list N)) :
  sublist (map node (flat_map pushCandidate found)) (map fst found).
Proof.
  induction found as [|[path data] found IH]; [constructor|].
  cbn [flat_map map fst]. unfold pushCandidate at 1. cbn [fst snd].
  destruct (2 <=? length (trim data))%nat; cbn [app map node].
  - by apply sublist_skip.
  - by apply sublist_cons.
Qed.

(** The turns of a pass are those of its list, one for every item. *)
Lemma translateSelectedTexts_turns {Dom : Type} `{!DomApi Dom} (env : Env)
    (selectedTexts : list TextCandidate) (w : World Dom) :
  turns (trace (exec (translateSelectedTexts env selectedTexts) w))
  = turns (trace w) ++ turnsOf 0 selectedTexts.
Proof.
  set (w0 := exec (emit LogStart) w).
  destruct (translateFrom_run env selectedTexts 0 w0)
    as (wf & Hrun & _ & Hturns & _).
  unfold exec, translateSelectedTexts. unfold bind at 1.
  change (emit LogStart w) with (w0, @Normal unit tt). cbv iota beta.
  unfold bind. rewrite Hrun. unfold emit. cbn [fst trace].
  rewrite turns_app, Hturns. subst w0. unfold exec, emit. cbn [fst trace].
  rewrite turns_app. cbn. by rewrite !app_nil_r.
Qed.

Lemma turnsOf_nodes (selectedTexts : list TextCandidate) :
  ∀ i, map snd (turnsOf i selectedTexts) = map text selectedTexts.
Proof.
  induction selectedTexts as [|textData rest IH]; intros i; [done|].
  cbn. by rewrite IH.
Qed.

(** X12. The scanner returns every text node at most once, and the
    sampler, whose sort only reorders the copy, selects no candidate twice;
    the loop then makes exactly one turn for every selected candidate, in
    the order of the selection. So within a pass every selected text node
    has one turn of the loop and no text node has two. (What a turn writes
    is another matter: [annotateWordInText] assigns the markup of the whole
    parent, so it can change the text around other nodes as well.) *)
Theorem pass_visits_no_node_twice
    {Dom : Type} `{!DomApi Dom} (env : Env)
    (sort_random : list TextCandidate → list TextCandidate) (pg : Page)
    (percentage : spec_float) (w : World Dom) :
  (∀ l, Permutation (sort_random l) l) →
  let selected :=
    randomSelectTexts sort_random (extractChineseTexts pg) percentage in
  let pass := translateSelectedTexts env selected in
  NoDup (map node (extractChineseTexts pg))
  ∧ NoDup (map node selected)
  ∧ turns (trace (exec pass w)) = turns (trace w) ++ turnsOf 0 selected
  ∧ length (turnsOf 0 selected) = length selected
  ∧ map snd (turnsOf 0 selected) = map text selected.
Proof.
  intros Hperm selected pass.
  assert (Hscan : NoDup (map node (extractChineseTexts pg))).
  { unfold extractChineseTexts.
    apply (sublist_NoDup _ (map fst (walker_nodes (walker_root pg))));
      [|apply pushCandidate_nodes].
    unfold walker_nodes. destruct (walker_root pg);
      try apply walk_NoDup; apply NoDup_nil_2. }
  split; [exact Hscan|]. split.
  { subst selected. unfold randomSelectTexts, Array_slice0.
    apply (sublist_NoDup _ (map node (sort_random (extractChineseTexts pg)))).
    - by rewrite (Hperm (extractChineseTexts pg)).
    - apply (fmap_sublist node), sublist_take. }
  split; [apply translateSelectedTexts_turns|].
  split; [|apply turnsOf_nodes].
  rewrite <- (length_map snd), turnsOf_nodes. apply length_map.
Qed.

(** The sample page with a sort that reverses the copy: both candidates
    are selected, each has one turn. *)
Lemma pass_visits_no_node_twice_witness :
  let selected :=
    randomSelectTexts (@rev TextCandidate) (extractChineseTexts samplePage)
      (Number.of_Z 1) in
  (∀ l : list TextCandidate, Permutation (rev l) l)
  ∧ NoDup (map node selected)
  ∧ length (turns (trace (exec (translateSelectedTexts
                                  (sampleEnv None FetchRejected) selected)
                            sampleWorld))) = 2%nat.
Proof.
  intros selected.
  assert (Hperm : ∀ l : list TextCandidate, Permutation (rev l) l)
    by (intros l; symmetry; apply Permutation_rev).
  split; [exact Hperm|].
  destruct (pass_visits_no_node_twice (sampleEnv None FetchRejected)
              (@rev TextCandidate) samplePage (Number.of_Z 1) sampleWorld
              Hperm) as (_ & Hsel & Hturns & Hlen & _).
  split; [exact Hsel|].
  fold selected in Hturns, Hlen. rewrite Hturns, length_app, Hlen.
  vm_compute. reflexivity.
Defined.

(** ** Removing an annotation *)

Lemma descendantText_children (n : Node) :
  descendantText n
  = match n with
    | TextNode data => data
    | CommentNode _ => []
    | ElementNode _ cs | DocumentNode cs => flat_map descendantText cs
    end.
Proof.
  destruct n as [d|d|tag cs|cs]; try reflexivity;
    cbn [descendantText]; induction cs as [|c cs IH]; cbn [flat_map];
    by rewrite ?IH.
Qed.

Lemma nth_error_split_at {A : Type} (l : list A) (i : nat) (x : A) :
  nth_error l i = Some x → l = firstn i l ++ x :: skipn (S i) l.
Proof.
  revert i. induction l as [|y l IH]; intros [|i] Hn; try discriminate.
  - by injection Hn as ->.
  - cbn. f_equal. by apply IH.
Qed.

Lemma nth_error_middle {A : Type} (l : list A) (i : nat) (x y : A)
    (rest : list A) :
  nth_error l i = Some x → nth_error (firstn i l ++ y :: rest) i = Some y.
Proof.
  intros Hn.
  assert (Hlen : length (firstn i l) = i).
  { rewrite length_take. apply Nat.min_l.
    apply Nat.lt_le_incl, nth_error_Some. congruence. }
  rewrite nth_error_app2 by lia. by rewrite Hlen, Nat.sub_diag.
Qed.

Lemma withChildren_text (n : Node) (f : list Node → list Node) :
  descendantText (withChildren n f)
  = match n with
    | TextNode data => data
    | CommentNode _ => []
    | ElementNode _ cs | DocumentNode cs => flat_map descendantText (f cs)
    end.
Proof. destruct n; by rewrite descendantText_children. Qed.

Lemma skipn_nth_error {A : Type} (l : list A) (n : nat) :
  skipn n l
  = match nth_error l n with
    | Some x => x :: skipn (S n) l
    | None => []
    end.
Proof.
  revert n. induction l as [|y l IH]; intros [|n]; try reflexivity.
  cbn [skipn nth_error]. rewrite IH. by destruct (nth_error l n).
Qed.

(** [unwrapAt] makes the children that the property describes. *)
Lemma unwrapAt_children (i : nat) (cs : list Node) (tag : list N)
    (inner : list Node) :
  nth_error cs i = Some (ElementNode tag inner) →
  unwrapAt i cs
  = unwrappedChildren cs i (descendantText (ElementNode tag inner)).
Proof.
  intros Hn. unfold unwrapAt, unwrappedChildren, hasBadgeAfter. rewrite Hn.
  pose proof (skipn_nth_error cs (S i)) as Hskip.
  destruct (nth_error cs (S i)) as [next|]; rewrite Hskip; [|done].
  destruct (isBadge next); [done|]. by rewrite Hskip.
Qed.

(** What [unwrapAt] does to the text of the children: the text of the
    badge is cut out, the rest stays. *)
Lemma unwrapAt_text (i : nat) (cs : list Node) (tag : list N)
    (inner : list Node) :
  nth_error cs i = Some (ElementNode tag inner) →
  ∃ before rest,
    flat_map descendantText cs = before ++ badgeTextAfter cs i ++ rest
    ∧ flat_map descendantText (unwrapAt i cs) = before ++ rest.
Proof.
  intros Hn. rewrite (unwrapAt_children i cs tag inner Hn).
  unfold unwrappedChildren, hasBadgeAfter, badgeTextAfter.
  set (word := descendantText (ElementNode tag inner)).
  assert (Hcs : flat_map descendantText cs
                = flat_map descendantText (firstn i cs) ++ word
                  ++ flat_map descendantText (skipn (S i) cs)).
  { rewrite (nth_error_split_at cs i _ Hn) at 1.
    by rewrite flat_map_app. }
  pose proof (skipn_nth_error cs (S i)) as Hskip.
  exists (flat_map descendantText (firstn i cs) ++ word).
  destruct (nth_error cs (S i)) as [next|].
  - destruct (isBadge next).
    + exists (flat_map descendantText (skipn (S (S i)) cs)).
      rewrite Hcs, Hskip, flat_map_app. cbn [flat_map].
      by rewrite <- !app_assoc.
    + exists (flat_map descendantText (skipn (S i) cs)).
      rewrite Hcs, flat_map_app. cbn [flat_map app].
      by rewrite <- !app_assoc.
  - exists (flat_map descendantText (skipn (S i) cs)).
    rewrite Hcs, flat_map_app. cbn [flat_map app].
    by rewrite <- !app_assoc.
Qed.

(** [unwrapElement] for the child [i] of the node at [parentPath]: that
    node gets the children [unwrapAt] makes, and a change of the text of its
    children is the change of the text of the tree. *)
Lemma unwrapElement_parent (parentPath : list nat) (i : nat) :
  ∀ root parentNode,
    nodeAt root parentPath = Some parentNode →
    nodeAt (unwrapElement root (parentPath ++ [i])) parentPath
    = Some (withChildren parentNode (unwrapAt i))
    ∧ ∀ x before rest,
        flat_map descendantText (childNodesOf parentNode)
        = before ++ x ++ rest →
        flat_map descendantText (unwrapAt i (childNodesOf parentNode))
        = before ++ rest →
        ∃ before' rest',
          descendantText root = before' ++ x ++ rest'
          ∧ descendantText (unwrapElement root (parentPath ++ [i]))
            = before' ++ rest'.
Proof.
  induction parentPath as [|j pp IH]; intros root parentNode Hnode.
  - injection Hnode as <-. cbn [app unwrapElement nodeAt].
    split; [done|]. intros x before rest Hcs Hcs'.
    rewrite withChildren_text, (descendantText_children root).
    destruct root as [d|d|tag cs|cs]; cbn [childNodesOf] in Hcs, Hcs'.
    + destruct before, x, rest; try discriminate. by exists [], d.
    + destruct before, x, rest; try discriminate. by exists [], [].
    + by exists before, rest.
    + by exists before, rest.
  - cbn [nodeAt] in Hnode.
    destruct (nth_error (childNodesOf root) j) as [c|] eqn:Hn; [|discriminate].
    destruct (IH c parentNode Hnode) as [Hparent Htext].
    assert (Hstep : unwrapElement root ((j :: pp) ++ [i])
                    = withChildren root (λ cs,
                        match nth_error cs j with
                        | Some c' =>
                            firstn j cs ++ unwrapElement c' (pp ++ [i])
                            :: skipn (S j) cs
                        | None => cs
                        end)).
    { cbn [app unwrapElement]. by destruct (pp ++ [i]) eqn:Hpp;
        [destruct pp; discriminate|]. }
    rewrite Hstep.
    destruct root as [d|d|tag cs|cs]; cbn [childNodesOf] in Hn;
      try (by destruct j).
    all: cbn [withChildren]; rewrite Hn.
    all: split;
      [cbn [nodeAt childNodesOf];
       by rewrite (nth_error_middle cs j _ _ _ Hn)|].
    all: intros x before rest Hcs Hcs'.
    all: destruct (Htext x before rest Hcs Hcs') as (b & a & Hc & Hc').
    all: exists (flat_map descendantText (firstn j cs) ++ b),
           (a ++ flat_map descendantText (skipn (S j) cs)).
    all: rewrite !descendantText_children.
    all: rewrite (nth_error_split_at cs j c Hn) at 1.
    all: rewrite !flat_map_app; cbn [flat_map]; rewrite Hc, Hc'.
    all: by rewrite <- !app_assoc.
Qed.

Lemma nodeAt_app (p q : list nat) :
  ∀ root,
    nodeAt root (p ++ q)
    = match nodeAt root p with
      | Some n => nodeAt n q
      | None => None
      end.
Proof.
  induction p as [|j p IH]; intros root; [done|]. cbn [app nodeAt].
  destruct (nth_error (childNodesOf root) j); [apply IH | done].
Qed.

(** X13. Marking a word as familiar from the tooltip never throws. When
    the request to [/familiar-words] fails (it is rejected, the status is
    not 2xx, or the body is not JSON), the tree keeps the annotation, the
    tooltip stays, and the error notice is shown. When it succeeds, the
    tooltip is hidden and the parent of the word element has these
    children: the ones before the element, a text node holding the text of
    the element, and the ones after it, without the next sibling when that
    is an element whose text contains both brackets (the badge). The text
    of the document is what it was with the text of that badge cut out and
    nothing else changed; without a badge it is unchanged. *)
Theorem familiar_word_unwraps_annotation
    (outcome : FetchOutcome) (word : list N) (pg : FamiliarPage)
    (parentPath : list nat) (i : nat) (parentNode : Node)
    (tag : list N) (inner : list Node) :
  nodeAt (page_tree pg) parentPath = Some parentNode →
  nth_error (childNodesOf parentNode) i = Some (ElementNode tag inner) →
  let path := parentPath ++ [i] in
  let children := childNodesOf parentNode in
  let wordText := descendantText (ElementNode tag inner) in
  let run := markWordAsFamiliarFromTooltip outcome word (Some path) pg in
  snd run = Normal tt
  ∧ (failing outcome = true →
     page_tree (fst run) = page_tree pg
     ∧ tooltip_shown (fst run) = tooltip_shown pg
     ∧ notices (fst run) = notices pg ++ [(failedNotice, true)])
  ∧ (failing outcome = false →
     tooltip_shown (fst run) = false
     ∧ notices (fst run) = notices pg ++ [(familiarNotice word, false)]
     ∧ nodeAt (page_tree (fst run)) path = Some (TextNode wordText)
     ∧ (∃ parentAfter,
          nodeAt (page_tree (fst run)) parentPath = Some parentAfter
          ∧ childNodesOf parentAfter
            = unwrappedChildren children i wordText)
     ∧ (∃ before rest,
          descendantText (page_tree pg)
          = before ++ badgeTextAfter children i ++ rest
          ∧ descendantText (page_tree (fst run)) = before ++ rest)
     ∧ (hasBadgeAfter children i = true →
        S (length (unwrappedChildren children i wordText)) = length children
        ∧ includes (badgeTextAfter children i) [12304] = true
        ∧ includes (badgeTextAfter children i) [12305] = true)
     ∧ (hasBadgeAfter children i = false →
        length (unwrappedChildren children i wordText) = length children
        ∧ descendantText (page_tree (fst run))
          = descendantText (page_tree pg))).
Proof.
  intros Hparent Hword path children wordText run. subst run.
  change (nth_error children i = Some (ElementNode tag inner)) in Hword.
  unfold markWordAsFamiliarFromTooltip, markWordAsFamiliar, failing.
  destruct outcome as [|response]; cbn [fst snd]; [by repeat split|].
  destruct (ok response); cbn [negb orb fst snd]; [|by repeat split].
  destruct (json response) as [result|]; cbn [fst snd]; [|by repeat split].
  split; [done|]. split; [done|]. intros _.
  cbn [page_tree notices tooltip_shown removeWordAnnotation].
  destruct (unwrapElement_parent parentPath i (page_tree pg) parentNode
              Hparent) as [Hafter Htext].
  destruct (unwrapAt_text i children tag inner Hword)
    as (b & r & Hcs & Hcs').
  destruct (Htext _ b r Hcs Hcs') as (before & rest & Hdoc & Hdoc').
  assert (Hlen : (i < length children)%nat)
    by (apply nth_error_Some; by rewrite Hword).
  assert (Hchildren : childNodesOf (withChildren parentNode (unwrapAt i))
                      = unwrappedChildren children i wordText).
  { subst wordText.
    rewrite <- (unwrapAt_children i children tag inner Hword).
    subst children. destruct parentNode as [d|d|t cs|cs]; try reflexivity;
      cbn [childNodesOf] in Hword; by destruct i. }
  assert (Hnode : nodeAt (unwrapElement (page_tree pg) path) path
                  = Some (TextNode wordText)).
  { subst path. rewrite nodeAt_app, Hafter. cbn [nodeAt].
    rewrite Hchildren. unfold unwrappedChildren.
    by rewrite (nth_error_middle children i _ _ _ Hword). }
  split; [done|]. split; [done|]. split; [exact Hnode|].
  split.
  { by exists (withChildren parentNode (unwrapAt i)). }
  split; [by exists before, rest|].
  unfold unwrappedChildren, hasBadgeAfter, badgeTextAfter.
  destruct (nth_error children (S i)) as [next|] eqn:Hnext.
  - assert (Hlen' : (S i < length children)%nat)
      by (apply nth_error_Some; by rewrite Hnext).
    split.
    + intros Hb. rewrite Hb. split.
      * rewrite length_app, length_take. cbn [length].
        rewrite length_skipn. lia.
      * unfold isBadge in Hb. destruct next; try discriminate.
        by apply andb_true_iff in Hb.
    + intros Hb. rewrite Hb. split.
      * rewrite length_app, length_take. cbn [length].
        rewrite length_skipn. lia.
      * unfold badgeTextAfter in Hdoc. rewrite Hnext, Hb in Hdoc.
        unfold path. by rewrite Hdoc, Hdoc'.
  - split; [discriminate|]. intros _. split.
    + rewrite length_app, length_take. cbn [length].
      rewrite length_skipn. lia.
    + unfold badgeTextAfter in Hdoc. rewrite Hnext in Hdoc.
      unfold path. by rewrite Hdoc, Hdoc'.
Qed.

(** The paragraph 学[中文]【Chinese】好 after a confirmed request: the word is
    text again, the badge is gone, and the page reads 学中文好. *)
Lemma familiar_word_unwraps_annotation_witness :
  let outcome := wordResponse (js "ok") (js "ok") in
  let run :=
    markWordAsFamiliarFromTooltip outcome [20013; 25991] (Some [0; 1]%nat)
      annotatedPage in
  nodeAt annotatedParagraph [0%nat]
  = Some (ElementNode (js "P")
            [ TextNode [23398];
              ElementNode (js "SPAN") [TextNode [20013; 25991]];
              ElementNode (js "SPAN")
                [TextNode (12304 :: js "Chinese" ++ [12305])];
              TextNode [22909] ])
  ∧ nodeAt (page_tree (fst run)) [0%nat]
    = Some (ElementNode (js "P")
              [ TextNode [23398]; TextNode [20013; 25991];
                TextNode [22909] ])
  ∧ descendantText (page_tree (fst run)) = [23398; 20013; 25991; 22909].
Proof.
  intros outcome run. split; [reflexivity|].
  destruct (familiar_word_unwraps_annotation outcome [20013; 25991]
              annotatedPage [0%nat] 1%nat
              (ElementNode (js "P")
                 [ TextNode [23398];
                   ElementNode (js "SPAN") [TextNode [20013; 25991]];
                   ElementNode (js "SPAN")
                     [TextNode (12304 :: js "Chinese" ++ [12305])];
                   TextNode [22909] ])
              (js "SPAN") [TextNode [20013; 25991]] eq_refl eq_refl)
    as (_ & _ & Hdone).
  destruct (Hdone eq_refl) as (_ & _ & _ & _ & _ & Hbadge & _).
  destruct (Hbadge eq_refl) as (_ & _ & _).
  split; reflexivity.
Defined.

(** ** Testing the service *)

Lemma orString_nonempty (a b : list N) : b ≠ [] → orString a b ≠ [].
Proof. unfold orString. by destruct a. Qed.

Lemma isEmpty_nil (s : list N) : isEmpty s = true ↔ s = [].
Proof. by destruct s. Qed.

(** X14. [testConnection] sends nothing and leaves the button alone when
    the trimmed server address is empty or no valid URL. Otherwise it sends
    exactly one request, to the trimmed address followed by [/translate],
    shows the testing status followed by a result for every way the request
    can end, and leaves the button enabled. The request has no [api_config]
    exactly when the five other inputs are blank, and an [api_config] it
    has never holds an empty prompt, the built-in prompts standing in; so
    the test carries the [api_config] that the content script will send once
    the form is saved exactly when both prompts are filled in. *)
Theorem testConnection_request
    (URL_parse : list N → option URL) (form : Form) (outcome : TestOutcome)
    (pg : TestPage) :
  let after := testConnection URL_parse form outcome pg in
  let serverUrl := trim (serverUrlInput form) in
  let request := testRequestOf form in
  (serverUrl = [] ∨ isValidUrl URL_parse serverUrl = false →
   test_requests after = test_requests pg
   ∧ testBtn_disabled after = testBtn_disabled pg
   ∧ (statuses after = statuses pg ++ [TsServerUrlMissing]
      ∨ statuses after = statuses pg ++ [TsServerUrlInvalid]))
  ∧ (serverUrl ≠ [] → isValidUrl URL_parse serverUrl = true →
     test_requests after = test_requests pg ++ [request]
     ∧ testBtn_disabled after = false
     ∧ ∃ result, statuses after = statuses pg ++ [TsTesting; result]
                 ∧ result ≠ TsTesting)
  ∧ test_url request = serverUrl ++ js "/translate"
  ∧ (test_api_config request = None
     ↔ trim (apiUrlInput form) = [] ∧ trim (apiKeyInput form) = []
       ∧ trim (modelNameInput form) = []
       ∧ trim (systemPromptInput form) = []
       ∧ trim (userPromptTemplateInput form) = [])
  ∧ (∀ ac, test_api_config request = Some ac →
           ac_system_prompt ac ≠ [] ∧ ac_user_prompt_template ac ≠ [])
  ∧ ∀ sentence_,
      (∃ ac, test_api_config request = Some ac
             ∧ sameApiConfig ac (requestOfForm form sentence_))
      ↔ trim (systemPromptInput form) ≠ []
        ∧ trim (userPromptTemplateInput form) ≠ [].
Proof.
  intros after serverUrl request. subst after request.
  unfold testConnection. fold serverUrl.
  split.
  { intros [Hnil|Hbad].
    - rewrite Hnil. cbn. by repeat split; try left.
    - destruct (isEmpty serverUrl); [by repeat split; try left|].
      rewrite Hbad. cbn. by repeat split; try right. }
  split.
  { intros Hne Hok. destruct serverUrl as [|c s] eqn:Hs; [done|].
    cbn [isEmpty]. rewrite Hok. cbn [negb].
    split; [done|]. split; [done|].
    eexists. split; [reflexivity|].
    destruct outcome as [|m|[] st [m|[t|[[|? ?]|] [[|? ?]|] [[|? ?]|]]] [m'|x]];
      discriminate. }
  split; [reflexivity|].
  unfold testRequestOf. cbn [test_api_config].
  set (a := trim (apiUrlInput form)).
  set (k := trim (apiKeyInput form)).
  set (m := trim (modelNameInput form)).
  set (sp := trim (systemPromptInput form)).
  set (up := trim (userPromptTemplateInput form)).
  split.
  { destruct a, k, m, sp, up; cbn; split; try done;
      intros (? & ? & ? & ? & ?); done. }
  split.
  { intros ac.
    destruct (negb (isEmpty a) || negb (isEmpty k) || negb (isEmpty m)
              || negb (isEmpty sp) || negb (isEmpty up)); [|done].
    intros [= <-]. cbn.
    split; apply orString_nonempty; discriminate. }
  intros sentence_. unfold sameApiConfig, requestOfForm.
  cbn [api_url api_key model_name system_prompt user_prompt_template].
  fold a k m sp up. split.
  - intros (ac & Hac & _ & _ & _ & Hsp & Hup).
    destruct (negb (isEmpty a) || negb (isEmpty k) || negb (isEmpty m)
              || negb (isEmpty sp) || negb (isEmpty up)); [|done].
    injection Hac as <-. cbn in Hsp, Hup.
    injection Hsp as Hsp. injection Hup as Hup.
    split; intros Hnil; rewrite Hnil in *; discriminate.
  - intros [Hsp Hup].
    assert (Hany : negb (isEmpty a) || negb (isEmpty k) || negb (isEmpty m)
                   || negb (isEmpty sp) || negb (isEmpty up) = true).
    { destruct sp; [done|]. cbn. by rewrite !orb_true_r. }
    rewrite Hany. eexists. split; [reflexivity|]. cbn.
    unfold orString. by destruct sp, up.
Qed.

(** ** The tooltip *)

Lemma clearTimeout_shown (handle : option nat) (st : Tooltips) :
  shown (clearTimeout handle st) = shown st
  ∧ arrow_styles (clearTimeout handle st) = arrow_styles st.
Proof. by destruct handle. Qed.

Lemma clearTimeout_noShow (handle : option nat) (st : Tooltips) :
  noShowPending st → noShowPending (clearTimeout handle st).
Proof.
  unfold noShowPending. destruct handle as [id|]; [|done]. cbn [pending clearTimeout].
  intros Hall. induction Hall as [|t ts Ht Hts IH]; cbn [List.filter];
    [constructor|].
  destruct (negb (fst t =? id)%nat); [by constructor | done].
Qed.

Lemma hideWordTooltip_invariant (st : Tooltips) :
  tooltipInvariant st →
  shown (hideWordTooltip st) = [] ∧ arrow_styles (hideWordTooltip st) = 0%nat.
Proof.
  intros [Hlen _]. unfold hideWordTooltip.
  rewrite !(proj1 (clearTimeout_shown _ _)), !(proj2 (clearTimeout_shown _ _)).
  cbn [shown arrow_styles]. split; [|done].
  destruct (shown st) as [|x [|y rest]]; [done | done | cbn in Hlen; lia].
Qed.

Lemma runTask_invariant (task : TimerTask) (hovered : bool) (st : Tooltips) :
  tooltipInvariant st → tooltipInvariant (runTask task hovered st).
Proof.
  intros Hinv. destruct task as [w t| |]; cbn [runTask].
  - destruct (hideWordTooltip_invariant st Hinv) as [Hs Ha].
    unfold showWordTooltip, tooltipInvariant. cbn [shown arrow_styles].
    rewrite Hs, Ha. by split.
  - destruct (shown st) eqn:Hsh; [done|]. destruct hovered; cbn [negb]; [done|].
    destruct (hideWordTooltip_invariant st Hinv) as [Hs Ha].
    unfold tooltipInvariant. rewrite Hs, Ha. split; [cbn; lia | done].
  - destruct (hideWordTooltip_invariant st Hinv) as [Hs Ha].
    unfold tooltipInvariant. rewrite Hs, Ha. split; [cbn; lia | done].
Qed.

Lemma clearTimeout_invariant (handle : option nat) (st : Tooltips) :
  tooltipInvariant st → tooltipInvariant (clearTimeout handle st).
Proof.
  unfold tooltipInvariant.
  by rewrite (proj1 (clearTimeout_shown _ _)), (proj2 (clearTimeout_shown _ _)).
Qed.

Lemma hoverStep_invariant (st : Tooltips) (ev : HoverEvent) :
  tooltipInvariant st → tooltipInvariant (hoverStep st ev).
Proof.
  intros Hinv. destruct ev as [w t| | | |id hovered]; cbn [hoverStep].
  - pose proof (clearTimeout_invariant (hide_handle st) st Hinv) as H1.
    destruct (shown (clearTimeout (hide_handle st) st)) eqn:Hsh; [|done].
    unfold tooltipInvariant in *. cbn [setTimeout set_show_handle shown
      arrow_styles]. by rewrite Hsh in H1 |- *.
  - pose proof (clearTimeout_invariant (show_handle st) st Hinv) as H1.
    exact H1.
  - destruct (shown st); [done|]. by apply clearTimeout_invariant.
  - destruct (shown st) eqn:Hsh; [done|]. exact Hinv.
  - destruct (taskOf id st); [|done].
    by apply runTask_invariant, clearTimeout_invariant.
Qed.

(** X15. Whatever the mouse does and whenever the timers fire, the
    document never holds more than one tooltip, and it holds one arrow style
    exactly when it holds a tooltip: [showWordTooltip] removes the old
    tooltip before it adds the new one. *)
Theorem tooltip_at_most_one (evs : list HoverEvent) :
  (length (shown (hoverRun noTooltips evs)) ≤ 1)%nat
  ∧ arrow_styles (hoverRun noTooltips evs)
    = length (shown (hoverRun noTooltips evs)).
Proof.
  assert (Hrun : ∀ evs st, tooltipInvariant st →
                           tooltipInvariant (hoverRun st evs)).
  { clear evs. induction evs as [|ev evs IH]; intros st Hinv; [done|].
    cbn [hoverRun fold_left]. apply IH. by apply hoverStep_invariant. }
  apply (Hrun evs noTooltips). split; [cbn; lia | done].
Qed.

Lemma timers_keep_hidden (fires : list HoverEvent) :
  Forall isTimerFires fires →
  ∀ st, shown st = [] → noShowPending st →
        shown (hoverRun st fires) = [].
Proof.
  induction 1 as [|ev fires Hev Hfires IH]; intros st Hsh Hno; [done|].
  cbn [hoverRun fold_left]. apply IH.
  - destruct ev as [| | | |id hovered]; try contradiction. cbn [hoverStep].
    destruct (taskOf id st) as [task|] eqn:Htask; [|done].
    assert (Htask' : match task with ShowTooltip _ _ => False | _ => True end).
    { unfold taskOf in Htask. unfold noShowPending in Hno.
      destruct (List.filter _ (pending st)) as [|t ts] eqn:Hf; [done|].
      injection Htask as <-.
      assert (Hin : In t (List.filter (λ t, (fst t =? id)%nat) (pending st)))
        by (rewrite Hf; by left).
      apply filter_In in Hin as [Hin _].
      rewrite List.Forall_forall in Hno. by apply Hno. }
    destruct task as [w t| |]; [done| |]; cbn [runTask].
    + by rewrite (proj1 (clearTimeout_shown _ _)), Hsh.
    + unfold hideWordTooltip.
      rewrite !(proj1 (clearTimeout_shown _ _)). cbn [shown].
      by rewrite ?(proj1 (clearTimeout_shown _ _)), Hsh.
  - destruct ev as [| | | |id hovered]; try contradiction. cbn [hoverStep].
    destruct (taskOf id st) as [task|] eqn:Htask; [|done].
    pose proof (clearTimeout_noShow (Some id) st Hno) as Hno'.
    destruct task as [w t| |]; cbn [runTask].
    + unfold taskOf in Htask. unfold noShowPending in Hno.
      destruct (List.filter _ (pending st)) as [|x ts] eqn:Hf; [done|].
      injection Htask as Hx.
      assert (Hin : In x (List.filter (λ t, (fst t =? id)%nat) (pending st)))
        by (rewrite Hf; by left).
      apply filter_In in Hin as [Hin _].
      rewrite List.Forall_forall in Hno. specialize (Hno x Hin).
      by rewrite Hx in Hno.
    + by rewrite (proj1 (clearTimeout_shown _ _)), Hsh.
    + unfold hideWordTooltip. by do 2 apply clearTimeout_noShow.
Qed.

(** X16. Passing over a word quickly shows nothing. When no tooltip is
    in the document and no timer is waiting to show one, a [mouseenter] on a
    word that is followed by the [mouseleave] before the timer of 200 ms is
    due leaves no tooltip, whichever timers fire afterwards: the
    [mouseleave] clears the timer that the [mouseenter] set. *)
Theorem quick_pass_shows_no_tooltip
    (st : Tooltips) (word translation : list N) (fires : list HoverEvent) :
  shown st = [] → noShowPending st → Forall isTimerFires fires →
  shown (hoverRun st (WordEnter word translation :: WordLeave :: fires)) = [].
Proof.
  intros Hsh Hno Hfires. cbn [hoverRun fold_left].
  apply (timers_keep_hidden fires Hfires); cbn [hoverStep].
  all: set (st1 := clearTimeout (hide_handle st) st).
  all: assert (Hsh1 : shown st1 = [])
         by (subst st1; by rewrite (proj1 (clearTimeout_shown _ _))).
  all: assert (Hno1 : noShowPending st1) by (by apply clearTimeout_noShow).
  all: clearbody st1; rewrite Hsh1.
  all: cbn [setTimeout set_show_handle set_hide_handle clearTimeout shown
            pending show_handle fst snd].
  - exact Hsh1.
  - unfold noShowPending. cbn [pending].
    apply Forall_app. split; [|by repeat constructor].
    rewrite List.filter_app. cbn [List.filter fst].
    rewrite Nat.eqb_refl. cbn [negb]. rewrite app_nil_r.
    exact (clearTimeout_noShow (Some (next_timer st1)) st1 Hno1).
Qed.

(** From the start: enter, leave, then both timers are tried. *)
Lemma quick_pass_shows_no_tooltip_witness :
  shown (hoverRun noTooltips
           [WordEnter (js "word") (js "x"); WordLeave;
            TimerFires 0 false; TimerFires 1 false]) = [].
Proof.
  apply (quick_pass_shows_no_tooltip noTooltips (js "word") (js "x")
           [TimerFires 0 false; TimerFires 1 false]).
  - reflexivity.
  - constructor.
  - by repeat constructor.
Defined.

(** ** The share of candidates after a load *)

(** X17. After [loadTranslatorConfig] the share of the candidates that a
    pass selects is the stored [selectionPercentage] over 100 when that
    value is truthy, and 40 over 100 in every other case: when nothing is
    stored, the storage area cannot be read, the key is missing, or the
    stored value is falsy. A stored percentage of 0 therefore selects 40
    percent of the candidates, not none. *)
Theorem stored_share_falls_back_to_forty
    {Dom : Type} `{!DomApi Dom} (env : Env)
    (StringToNumber : list N → spec_float) (w : World Dom) :
  let share :=
    selectionFraction StringToNumber
      (translatorConfig (exec (loadTranslatorConfig env) w)) in
  (truthy (storedShare env) = true →
   share = Number.div (ToNumber StringToNumber (storedShare env))
             (Number.of_Z 100))
  ∧ (truthy (storedShare env) = false →
     share = Number.div (Number.of_Z 40) (Number.of_Z 100))
  ∧ (storedShare env = Some (VNum (Number.of_Z 0)) →
     share = Number.div (Number.of_Z 40) (Number.of_Z 100)).
Proof.
  intros share.
  assert (Hconfig : translatorConfig (exec (loadTranslatorConfig env) w)
                    = Some (Content.loadTranslatorConfig (chrome_storage env)
                              (storage_get env) (date_now env)))
    by reflexivity.
  assert (Hlook :
    Content.loadTranslatorConfig (chrome_storage env) (storage_get env)
      (date_now env) !! "selectionPercentage"%string
    = match storedShare env with
      | Some v => Some v
      | None => Some (VNum (Number.of_Z 40))
      end).
  { unfold storedShare, Content.loadTranslatorConfig.
    destruct (chrome_storage env);
      [|by apply defaultsOnly_lookup].
    destruct (storage_get env) as [|[config|]];
      [by apply defaultsOnly_lookup | |].
    - cbn [stored_or_empty].
      destruct (config !! "selectionPercentage"%string) as [v|] eqn:Hv.
      + by apply mergeConfig_present.
      + by apply mergeConfig_absent.
    - cbn [stored_or_empty]. by apply mergeConfig_absent. }
  assert (Hshare :
    share = Number.div
              (ToNumber StringToNumber
                 (if truthy (storedShare env) then storedShare env
                  else Some (VNum (Number.of_Z 40))))
              (Number.of_Z 100)).
  { subst share. rewrite Hconfig. unfold selectionFraction. rewrite Hlook.
    unfold js_or. destruct (storedShare env) as [v|] eqn:Hs; [|reflexivity].
    by destruct (truthy (Some v)). }
  split; [intros Ht; by rewrite Hshare, Ht|].
  split; [intros Ht; by rewrite Hshare, Ht|].
  intros Hzero. rewrite Hshare, Hzero. reflexivity.
Qed.
